(** * Demo-dashboard: the dataset regeneration pipeline

    A shallow embedding of [app/services/demo_data.py],
    [app/services/firestore.py] and [app/services/bigquery.py], and the
    properties of the event synthesizer, the aggregation step, the
    collection replacement, the table ingest and the pipeline coordinator.

    Conventions of the embedding.
    - Python [int] is [Z]; a [float] is an exact rational [Q] (rounding of
      doubles is not modelled); [int(x)] truncates toward zero.
    - A naive [datetime] is the number of microseconds since
      [datetime.min]; a [timedelta] is a number of microseconds.  The
      [isoformat()] text of a timestamp is represented by the datetime it
      prints.
    - [random] and [datetime.now()] read an oracle of raw draws: every
      outcome of the generator and every monotone clock is some oracle.
    - Code that can raise runs in a state-and-exception monad; the state
      survives a raise, as the stores do. *)

From stdpp Require Import gmap strings list fin_maps pretty.
From Stdlib Require Import ZArith QArith Lia.

Local Open Scope Z_scope.

(** ** Python values, exceptions and control flow *)

Module Py.

Inductive exn :=
| ZeroDivisionError
| IndexError
| ValueError
| TypeError
| KeyError (key : string)
| ClientError (msg : string)
| ExternalServiceError (msg : string).

(** [str(e)] *)
Definition str (e : exn) : string :=
  match e with
  | ZeroDivisionError => "division by zero"
  | IndexError => "list index out of range"
  | ValueError => "empty range for randrange()"
  | TypeError => "unsupported operand type(s)"
  | KeyError key => "'" +:+ key +:+ "'"
  | ClientError msg => msg
  | ExternalServiceError msg => msg
  end.

Inductive res (A : Type) :=
| Ok (a : A)
| Raise (e : exn).
Arguments Ok {A} a.
Arguments Raise {A} e.

Definition M (S A : Type) : Type := S -> res A * S.

Definition ret {S A} (a : A) : M S A := fun s => (Ok a, s).

Definition raise {S A} (e : exn) : M S A := fun s => (Raise e, s).

Definition bind {S A B} (c : M S A) (k : A -> M S B) : M S B :=
  fun s => match c s with
           | (Ok a, s') => k a s'
           | (Raise e, s') => (Raise e, s')
           end.

(** [try: c except Exception as e: h e] *)
Definition catch {S A} (c : M S A) (h : exn -> M S A) : M S A :=
  fun s => match c s with
           | (Ok a, s') => (Ok a, s')
           | (Raise e, s') => h e s'
           end.

Definition lift_res {S A} (r : res A) : M S A := fun s => (r, s).

Definition get {S} : M S S := fun s => (Ok s, s).
Definition modify {S} (f : S -> S) : M S unit := fun s => (Ok tt, f s).

(** [for x in xs: acc = body x acc] with the loop-carried locals in [acc] *)
Fixpoint for_ {S A B} (xs : list A) (body : A -> B -> M S B) (acc : B) : M S B :=
  match xs with
  | [] => ret acc
  | x :: xs' => bind (body x acc) (for_ xs' body)
  end.

(** [range(lo, hi)] *)
Definition range2 (lo hi : Z) : list Z :=
  (fun i => lo + Z.of_nat i) <$> seq 0 (Z.to_nat (hi - lo)).

Definition range (n : Z) : list Z := range2 0 n.

(** [a / b] on numbers *)
Definition truediv (a b : Q) : res Q :=
  if Qeq_bool b 0 then Raise ZeroDivisionError else Ok (a / b)%Q.

(** [int(x)] on a float: truncation toward zero *)
Definition int_ (q : Q) : Z := Z.quot (Qnum q) (Z.pos (Qden q)).

(** [n / d] rounded to the nearest integer, ties to the even one *)
Definition round_div (n d : Z) : Z :=
  let f := n / d in
  let r := 2 * (n mod d) in
  if r <? d then f
  else if d <? r then f + 1
  else if Z.even f then f else f + 1.

(** [round(x)] as [timedelta] applies it *)
Definition round_half_even (q : Q) : Z := round_div (Qnum q) (Z.pos (Qden q)).

(** [max(a, b)] and [min(a, b)] on floats *)
Definition max_f (a b : Q) : Q := if Qle_bool b a then a else b.
Definition min_f (a b : Q) : Q := if Qle_bool a b then a else b.

(** [f"{n:02d}"] *)
Definition fmt02d (n : Z) : string :=
  if (0 <=? n) && (n <? 10) then "0" +:+ pretty n else pretty n.

(** [s.lower()] on ASCII text *)
Definition lower_ascii (c : Ascii.ascii) : Ascii.ascii :=
  let n := Ascii.nat_of_ascii c in
  if ((65 <=? n) && (n <=? 90))%nat then Ascii.ascii_of_nat (n + 32) else c.

Fixpoint lower (s : string) : string :=
  match s with
  | EmptyString => EmptyString
  | String c s' => String (lower_ascii c) (lower s')
  end.

Fixpoint is_prefix (p s : string) : bool :=
  match p, s with
  | EmptyString, _ => true
  | String a p', String b s' => if decide (a = b) then is_prefix p' s' else false
  | String _ _, EmptyString => false
  end.

(** [p in s] *)
Fixpoint contains (p s : string) : bool :=
  is_prefix p s ||
  match s with
  | EmptyString => false
  | String _ s' => contains p s'
  end.

End Py.
Import Py.

Notation "x <- c ;; k" := (bind c (fun x => k))
  (at level 20, c at level 99, k at level 200, only parsing).
Notation "' pat <- c ;; k" := (bind c (fun x => match x with pat => k end))
  (at level 20, pat pattern, c at level 99, k at level 200, only parsing).

(** ** datetime *)

Module Datetime.

Definition us_per_second : Z := 1000000.
Definition us_per_minute : Z := 60 * us_per_second.
Definition us_per_day : Z := 86400 * us_per_second.

(** [timedelta(days=d)], [timedelta(minutes=m)], [timedelta(seconds=s)] on
    integers *)
Definition days (d : Z) : Z := d * us_per_day.
Definition minutes (m : Z) : Z := m * us_per_minute.
Definition seconds (s : Z) : Z := s * us_per_second.

(** [timedelta(days=x)] on a float: rounded to the microsecond *)
Definition days_f (x : Q) : Z := round_half_even (x * inject_Z us_per_day)%Q.

(** [td.total_seconds()] *)
Definition total_seconds (td : Z) : Q := (inject_Z td / inject_Z us_per_second)%Q.

(** [td.days] *)
Definition days_of (td : Z) : Z := td / us_per_day.

(** [td * x] for a float [x] *)
Definition mul_f (td : Z) (x : Q) : Z := round_half_even (inject_Z td * x)%Q.

(** [datetime(1980, 1, 1, 1, 0)] *)
Definition dt_1980_01_01_0100 : Z := days 722814 + minutes 60.

End Datetime.

(** ** The source of randomness and of wall-clock time *)

Record Src := mkSrc {
  oracle : nat -> N;   (* raw draws, one per call of random or now *)
  cursor : nat;        (* draws consumed so far *)
  wall : Z             (* last reading of the clock *)
}.

Definition draw : M Src N :=
  fun s => (Ok (oracle s (cursor s)), mkSrc (oracle s) (S (cursor s)) (wall s)).

(** [random.randint(a, b)] *)
Definition randint (a b : Z) : M Src Z :=
  if b <? a then raise ValueError
  else r <- draw ;; ret (a + Z.of_N r mod (b - a + 1)).

(** [random.choice(xs)] *)
Definition choice {A} (xs : list A) : M Src A :=
  match xs with
  | [] => raise IndexError
  | x0 :: _ => r <- draw ;; ret (nth (N.to_nat r mod length xs) xs x0)
  end.

(** [datetime.now()]: the clock never runs backwards *)
Definition now : M Src Z :=
  fun s => let t := wall s + Z.of_N (oracle s (cursor s)) in
           (Ok t, mkSrc (oracle s) (S (cursor s)) t).

(** ** Configuration ([app/config.py]) *)

Module cfg.

Definition good_comments : list string :=
  ["Great!"; "Love this video thing!"; "Feels like I am there!"; "Good";
   "Highfive rocks"].
Definition bad_comments : list string :=
  ["Disconnected"; "Video dropouts"; "Crackling audio"; "Slows computer down";
   "I am ugly"].
Definition operating_systems : list string :=
  ["Mac OSX"; "Windows"; "Linux"; "ios"; "Android"].
Definition call_types : list string :=
  ["Web"; "Presentation"; "Room-and-Web"; "Multi-room-and-Web"].
Definition drivers : list string := ["Video"; "Audio"; "Network"].
Definition project_list : list string :=
  ["Pilot"; "Pro Eval"; "Global Launch"; "QBR"; "Case Study"].
Definition metric_list : list string :=
  ["7DAU"; "CPW"; "CH/B/D"; "RU"; "Diversity"].

Definition demo_min_projects_per_company : Z := 1.
Definition demo_max_projects_per_company : Z := 3.
Definition demo_trending_metrics_count : nat := 3.
Definition demo_trending_data_interval_days : Z := 7.
Definition demo_trending_data_period_days : Z := 30.
Definition demo_max_reg_delay_minutes : Z := 120.

End cfg.

(** ** Entities and events *)

(** A row of the seed table [success-hq.datastore.user] *)
Record SeedUser := mkSeedUser {
  su_email : string;
  su_company : string;
  su_offset : Z
}.

Record User := mkUser {
  u_email : string;
  u_company : string;
  u_reg_date : Z
}.

Record Company := mkCompany {
  c_name : string;
  c_earliest_reg : Z;
  c_boxes_bought : Z;
  c_boxes_prov : Z
}.

Record Project := mkProject {
  p_name : string;
  p_company : string;
  p_date : Z
}.

Record Trending := mkTrending {
  t_metric : string;
  t_company : string;
  t_value : Q;
  t_date : Z
}.

Record Renewal := mkRenewal {
  r_company : string;
  r_amount : Z;
  r_health : Z;
  r_due : Z
}.

Inductive company_event_type := purchased | provisioned.

Record CompanyEvent := mkCompanyEvent {
  ce_timestamp : Z;
  ce_type : company_event_type;
  ce_company : string;
  ce_purchased : option Z;
  ce_provisioned : option Z;
  ce_serial_number : option string;
  ce_box_name : option string
}.

Inductive user_event_type :=
  register | support_ticket | call | load | rating | comment | dialin.

(** The session identifier is the text
    [str((now - seed).total_seconds()) + "." + str(call)]; it is kept as the
    pair of the elapsed microseconds and the call index that it prints. *)
Definition SessionId : Type := Z * Z.

Record UserEvent := mkUserEvent {
  ue_timestamp : Z;
  ue_type : user_event_type;
  ue_user : string;
  ue_company : string;
  ue_call_duration : option Z;
  ue_call_type : option string;
  ue_call_num_users : option Z;
  ue_call_os : option string;
  ue_rating : option Z;
  ue_comment : option string;
  ue_session_id : option SessionId;
  ue_dialin_duration : option Z;
  ue_ticket_number : option string;
  ue_ticket_driver : option string
}.

Global Instance company_event_type_eq_dec : EqDecision company_event_type.
Proof. solve_decision. Defined.
Global Instance user_event_type_eq_dec : EqDecision user_event_type.
Proof. solve_decision. Defined.

(** Truth values of [None], [0] and the empty text *)
Definition truthy_int (x : option Z) : bool :=
  match x with Some n => negb (n =? 0) | None => false end.
Definition truthy_str (x : option string) : bool :=
  match x with Some s => negb (String.eqb s "") | None => false end.

(** [xs[i]] *)
Definition index {S A} (xs : list A) (i : nat) : M S A :=
  match xs !! i with Some x => ret x | None => raise IndexError end.

(** [min(xs)] *)
Definition min_of {S} (xs : list Z) : M S Z :=
  match xs with
  | [] => raise ValueError
  | x :: xs' => ret (foldl Z.min x xs')
  end.

(** ** The world outside: document store, analytics tables, clock, log *)

(** A field of a stored document *)
Inductive value :=
| VNull
| VInt (n : Z)
| VStr (s : string)
| VTime (t : Z)
| VNum (x : Q).

Definition value_eqb (a b : value) : bool :=
  match a, b with
  | VNull, VNull => true
  | VInt n, VInt m => n =? m
  | VStr s, VStr t => String.eqb s t
  | VTime s, VTime t => s =? t
  | VNum x, VNum y => Qeq_bool x y
  | _, _ => false
  end.

(** [f"{v}"] for the values that appear in messages *)
Definition value_text (v : value) : string :=
  match v with
  | VNull => "None"
  | VInt n => pretty n
  | VStr s => s
  | VTime t => pretty t
  | VNum x => pretty (Qnum x) +:+ "/" +:+ pretty (Z.pos (Qden x))
  end.

(** A stored document is a dictionary from field names to values. *)
Abbreviation document := (gmap string value).

(** A collection maps document identifiers to documents; a query streams
    it in the order of the identifiers. *)
Abbreviation collection := (gmap positive document).

Inductive row :=
| CompanyRow (e : CompanyEvent)
| UserRow (e : UserEvent).

(** What a call of a client library does: it returns, it raises, or (for
    [insert_rows_json] only) it returns a non-empty list of row errors,
    given by its text. *)
Inductive reply :=
| Fine
| Raises (msg : string)
| RowErrors (errors : string).

Inductive level := warning | error.

Record log_entry := mkLog {
  lvl : level;
  text : string;
  detail : option string
}.

Record World := mkWorld {
  src : Src;
  collections : gmap string collection;   (* Firestore *)
  tables : gmap string (list row);        (* BigQuery dataset *)
  seed_rows : list SeedUser;              (* the seed table, in email order *)
  plan : nat -> reply;                    (* what the n-th client call does *)
  calls : nat;                            (* client calls made so far *)
  slept : list Z;                         (* [time.sleep] durations, in order *)
  log : list log_entry                    (* warnings and errors, in order *)
}.

Definition set_src (f : Src -> Src) (w : World) : World :=
  mkWorld (f (src w)) (collections w) (tables w) (seed_rows w) (plan w)
          (calls w) (slept w) (log w).
Definition set_collections (f : gmap string collection -> gmap string collection)
    (w : World) : World :=
  mkWorld (src w) (f (collections w)) (tables w) (seed_rows w) (plan w)
          (calls w) (slept w) (log w).
Definition set_tables (f : gmap string (list row) -> gmap string (list row))
    (w : World) : World :=
  mkWorld (src w) (collections w) (f (tables w)) (seed_rows w) (plan w)
          (calls w) (slept w) (log w).
Definition set_calls (f : nat -> nat) (w : World) : World :=
  mkWorld (src w) (collections w) (tables w) (seed_rows w) (plan w)
          (f (calls w)) (slept w) (log w).
Definition set_slept (f : list Z -> list Z) (w : World) : World :=
  mkWorld (src w) (collections w) (tables w) (seed_rows w) (plan w)
          (calls w) (f (slept w)) (log w).
Definition set_log (f : list log_entry -> list log_entry) (w : World) : World :=
  mkWorld (src w) (collections w) (tables w) (seed_rows w) (plan w)
          (calls w) (slept w) (f (log w)).

(** Synthesis code runs on the randomness and the clock alone. *)
Definition lift_src {A} (c : M Src A) : M World A :=
  fun w => match c (src w) with
           | (r, s') => (r, set_src (fun _ => s') w)
           end.

(** One call of a client library: the plan decides its reply. *)
Definition client_call : M World reply :=
  fun w => (Ok (plan w (calls w)), set_calls S w).

(** A client call whose only failure is an exception *)
Definition rpc : M World unit :=
  r <- client_call ;;
  match r with
  | Raises msg => raise (ClientError msg)
  | _ => ret tt
  end.

Definition logger_warning (msg : string) (err : option string) : M World unit :=
  modify (set_log (fun l => l ++ [mkLog warning msg err])).
Definition logger_error (msg : string) (err : option string) : M World unit :=
  modify (set_log (fun l => l ++ [mkLog error msg err])).

(** [time.sleep(d)] *)
Definition sleep (d : Z) : M World unit :=
  modify (set_slept (fun l => l ++ [d])).

(** [client.collection(name)]: a collection that was never written is empty *)
Definition coll (w : World) (name : string) : collection :=
  default ∅ (collections w !! name).

(** The world after [f] is applied to the collection [name] *)
Definition coll_step (name : string) (f : collection -> collection) (w : World) : World :=
  set_collections (fun cs => <[name := f (coll w name)]> cs) w.

Definition update_coll (name : string) (f : collection -> collection) : M World unit :=
  modify (coll_step name f).

(** [for x in xs: ...] with [break] *)
Inductive flow (B : Type) :=
| Continue (b : B)
| Break (b : B).
Arguments Continue {B} b.
Arguments Break {B} b.

Fixpoint for_break {S A B} (xs : list A) (body : A -> B -> M S (flow B)) (acc : B)
  : M S B :=
  match xs with
  | [] => ret acc
  | x :: xs' =>
      r <- body x acc ;;
      match r with
      | Continue b => for_break xs' body b
      | Break b => ret b
      end
  end.

(** ** [app/services/firestore.py] *)

Module FirestoreService.

(** The identifier of a new document: one the collection does not use. *)
Definition next_id (m : collection) : positive :=
  map_fold (fun k _ acc => Pos.max (Pos.succ k) acc) 1%positive m.

(** What a committed batch does to a collection: deletes, sets on new
    documents, and the update of the fields of one document *)
Definition removed (doc_refs : list positive) (m : collection) : collection :=
  foldr delete m doc_refs.

Definition written (documents : list document) (m : collection) : collection :=
  foldl (fun m d => <[next_id m := d]> m) m documents.

Definition updated (k : positive) (update_fields : document) (m : collection)
  : collection :=
  match m !! k with
  | Some d => <[k := update_fields ∪ d]> m
  | None => m
  end.

(** [collection_ref.select([]).limit(n).stream()], references only *)
Definition stream_refs (collection_name : string) (n : nat) : M World (list positive) :=
  _ <- rpc ;;
  w <- get ;;
  ret (take n (map_to_list (coll w collection_name)).*1).

(** The filter [where(field, "==", v)] *)
Definition field_is (field_name : string) (field_value : value) (d : document) : bool :=
  match d !! field_name with
  | Some v => value_eqb v field_value
  | None => false
  end.

(** [collection.where(field, "==", v).limit(n).stream()] *)
Definition stream_where (collection_name field_name : string) (field_value : value)
    (n : nat) : M World (list (positive * document)) :=
  _ <- rpc ;;
  w <- get ;;
  ret (take n (filter (fun kd => field_is field_name field_value kd.2 = true)
                      (map_to_list (coll w collection_name)))).

(** A write batch of deletes, committed atomically *)
Definition commit_deletes (collection_name : string) (doc_refs : list positive)
  : M World unit :=
  _ <- rpc ;;
  update_coll collection_name (removed doc_refs).

(** A write batch of sets on new documents, committed atomically *)
Definition commit_sets (collection_name : string) (documents : list document)
  : M World unit :=
  _ <- rpc ;;
  update_coll collection_name (written documents).

(** [doc.reference.update(update_fields)]: the given fields replace the
    stored ones, the others stay *)
Definition reference_update (collection_name : string) (k : positive)
    (update_fields : document) : M World unit :=
  _ <- rpc ;;
  update_coll collection_name (updated k update_fields).

(** The nested function [delete_batch]; it adds to the enclosing
    [deleted_count], which is threaded through. *)
Definition delete_batch (collection_name : string) (doc_refs : list positive)
    (deleted_count : nat) : M World (nat * nat) :=
  match doc_refs with
  | [] => ret (0%nat, deleted_count)
  | _ =>
      _ <- commit_deletes collection_name doc_refs ;;
      ret (length doc_refs, (deleted_count + length doc_refs)%nat)
  end.

(** A future of the thread pool.  The batch runs when it is submitted (the
    schedule in which every worker finishes at once); what it raised is
    kept for [result()]. *)
Definition Future : Type := res nat.

Definition submit (collection_name : string) (doc_refs : list positive)
    (deleted_count : nat) : M World (Future * nat) :=
  fun w => match delete_batch collection_name doc_refs deleted_count w with
           | (Ok (n, cnt), w') => (Ok (Ok n, cnt), w')
           | (Raise e, w') => (Ok (Raise e, deleted_count), w')
           end.

Definition result (f : Future) : M World nat := lift_res f.

Definition delete_all_documents (collection_name : string)
    (batch_size max_workers : nat) : M World nat :=
  catch
    (let deleted_count := 0%nat in
     let page_size := (batch_size * 4)%nat in
     let current_batch_refs := [] in
     let batch_futures := [] in
     _ <- (if (max_workers =? 0)%nat then raise ValueError else ret tt) ;;
     docs_stream <- stream_refs collection_name page_size ;;
     '(current_batch_refs, batch_futures, deleted_count) <-
       for_ docs_stream (fun doc '(current_batch_refs, batch_futures, deleted_count) =>
         let current_batch_refs := current_batch_refs ++ [doc] in
         if (batch_size <=? length current_batch_refs)%nat then
           '(future, deleted_count) <-
             submit collection_name current_batch_refs deleted_count ;;
           let batch_futures := batch_futures ++ [future] in
           let current_batch_refs := [] in
           if (max_workers * 2 <=? length batch_futures)%nat then
             match batch_futures with
             | completed_future :: batch_futures =>
                 _ <- result completed_future ;;
                 ret (current_batch_refs, batch_futures, deleted_count)
             | [] => raise IndexError
             end
           else ret (current_batch_refs, batch_futures, deleted_count)
         else ret (current_batch_refs, batch_futures, deleted_count))
       (current_batch_refs, batch_futures, deleted_count) ;;
     '(batch_futures, deleted_count) <-
       match current_batch_refs with
       | [] => ret (batch_futures, deleted_count)
       | _ =>
           '(future, deleted_count) <-
             submit collection_name current_batch_refs deleted_count ;;
           ret (batch_futures ++ [future], deleted_count)
       end ;;
     _ <- for_ batch_futures (fun future _ =>
            catch (_ <- result future ;; ret tt)
                  (fun e =>
                     _ <- logger_error ("Error in batch deletion: " +:+ str e) None ;;
                     raise e)) tt ;;
     ret deleted_count)
    (fun e =>
       _ <- logger_error ("Failed to delete collection '" +:+ collection_name +:+ "'")
                         (Some (str e)) ;;
       raise (ExternalServiceError
                ("Failed to delete collection '" +:+ collection_name +:+ "': "
                 +:+ str e))).

Definition batch_write (collection_name : string) (documents : list document)
  : M World unit :=
  match documents with
  | [] => logger_warning "No documents to write" None
  | _ =>
      catch (commit_sets collection_name documents)
            (fun e =>
               _ <- logger_error "Batch write failed" (Some (str e)) ;;
               raise (ExternalServiceError ("Batch write failed: " +:+ str e)))
  end.

Definition update_document_by_field (collection_name field_name : string)
    (field_value : value) (update_fields : document) : M World unit :=
  let target := field_name +:+ "='" +:+ value_text field_value +:+ "'" in
  catch
    (docs <- stream_where collection_name field_name field_value 1 ;;
     match docs with
     | doc :: _ => reference_update collection_name doc.1 update_fields
     | [] =>
         let msg := "No document found with " +:+ target +:+ " in collection "
                    +:+ collection_name in
         _ <- logger_warning msg None ;;
         raise (ExternalServiceError msg)
     end)
    (fun e =>
       _ <- logger_error ("Failed to update document with " +:+ target
                          +:+ " in collection " +:+ collection_name)
                         (Some (str e)) ;;
       raise (ExternalServiceError
                ("Failed to update document with " +:+ target +:+ ": " +:+ str e))).

End FirestoreService.

(** ** [app/services/bigquery.py] *)

Module BigQueryService.

(** What a finished job does to the tables: [TRUNCATE TABLE], and the
    insertion of a batch of rows *)
Definition truncated (table_name : string) (ts : gmap string (list row))
  : gmap string (list row) :=
  <[table_name := []]> ts.

Definition appended (table_name : string) (batch : list row)
    (ts : gmap string (list row)) : gmap string (list row) :=
  <[table_name := default [] (ts !! table_name) ++ batch]> ts.

Record Result := mkResult {
  success : bool;
  message : string;
  rows_inserted : nat
}.

(** The one query the pipeline runs:
    [SELECT email, company, offset FROM ... ORDER BY email {limit_clause}] *)
Definition execute_query (limit_clause : option nat) : M World (list SeedUser) :=
  catch
    (_ <- rpc ;;
     w <- get ;;
     ret (match limit_clause with
          | Some n => take n (seed_rows w)
          | None => seed_rows w
          end))
    (fun e =>
       _ <- logger_error ("Error executing query: " +:+ str e) None ;;
       raise e).

Definition delete_all_rows (table_name : string) : M World Result :=
  catch
    (_ <- rpc ;;
     _ <- modify (set_tables (truncated table_name)) ;;
     ret (mkResult true ("Successfully truncated table " +:+ table_name) 0))
    (fun e =>
       let error_msg := "Error truncating table " +:+ table_name +:+ ": " +:+ str e in
       _ <- logger_error error_msg None ;;
       raise (ExternalServiceError error_msg)).

(** [client.insert_rows_json(table_ref, batch)]: the text of the row
    errors, empty when there are none *)
Definition insert_rows_json (table_name : string) (batch : list row)
  : M World (option string) :=
  r <- client_call ;;
  match r with
  | Raises msg => raise (ClientError msg)
  | RowErrors errors => ret (Some errors)
  | Fine =>
      _ <- modify (set_tables (appended table_name batch)) ;;
      ret None
  end.

(** [range(0, n, step)] *)
Definition range_step (n step : nat) : list nat :=
  (fun i => i * step)%nat <$> seq 0 (Nat.div (n + step - 1) step).

Definition batch_size : nat := Z.to_nat 10000.
Definition max_retries : Z := 3.
Definition base_delay : Z := 1.

(** The body of [for retry_attempt in range(max_retries)]: one attempt to
    insert the batch.  It breaks out of the loop when the rows are in,
    sleeps and continues when the error text says "not found" and an
    attempt is left, and raises otherwise. *)
Definition insert_attempt (table_name : string) (batch : list row)
    (retry_attempt : Z) (total_inserted : nat) : M World (flow nat) :=
  catch
    (errors <- insert_rows_json table_name batch ;;
     match errors with
     | Some errors =>
         let error_msg := "BigQuery insert_rows_json errors: " +:+ errors in
         _ <- logger_error error_msg None ;;
         raise (ExternalServiceError error_msg)
     | None => ret (Break (total_inserted + length batch)%nat)
     end)
    (fun e =>
       let error_str := str e in
       if contains "not found" (lower error_str)
          && (retry_attempt <? max_retries - 1)
       then
         let delay := base_delay * 2 ^ retry_attempt in
         _ <- logger_warning
                ("Table " +:+ table_name +:+ " not found on attempt "
                 +:+ pretty (retry_attempt + 1) +:+ ", retrying in "
                 +:+ pretty delay +:+ " seconds...") None ;;
         _ <- sleep delay ;;
         ret (Continue total_inserted)
       else raise e).

(** The body of [for i in range(0, len(rows), batch_size)] *)
Definition insert_batch (table_name : string) (rows : list row) (i : nat)
    (total_inserted : nat) : M World nat :=
  let batch := take batch_size (drop i rows) in
  for_break (range max_retries) (insert_attempt table_name batch) total_inserted.

Definition write_rows_to_table (table_name : string) (rows : list row)
  : M World Result :=
  catch
    (match rows with
     | [] =>
         _ <- logger_warning ("No rows to insert into table " +:+ table_name) None ;;
         ret (mkResult true ("No rows to insert into table " +:+ table_name) 0)
     | _ =>
         let total_inserted := 0%nat in
         total_inserted <-
           for_ (range_step (length rows) batch_size) (insert_batch table_name rows)
                total_inserted ;;
         ret (mkResult true
                ("Successfully inserted " +:+ pretty total_inserted
                 +:+ " rows into table " +:+ table_name)
                total_inserted)
     end)
    (fun e =>
       let error_msg := "Error writing rows to table " +:+ table_name +:+ ": "
                        +:+ str e in
       _ <- logger_error error_msg None ;;
       raise (ExternalServiceError error_msg)).

End BigQueryService.

(** ** [app/services/demo_data.py] *)

Module DemoDataService.

(** *** Entity documents *)

Definition _create_user_docs (users : list SeedUser) : M Src (list User) :=
  for_ users (fun user user_docs =>
    t <- now ;;
    delay <- randint 0 cfg.demo_max_reg_delay_minutes ;;
    let reg_date := t + (Datetime.days (- su_offset user) + Datetime.minutes (- delay)) in
    ret (user_docs ++ [mkUser (su_email user) (su_company user) reg_date])) [].

(** [companies_users[company].append(user)] on a dictionary that keeps the
    order in which its keys were first set *)
Fixpoint group_append (company : string) (user : User)
    (groups : list (string * list User)) : list (string * list User) :=
  match groups with
  | [] => [(company, [user])]
  | (c, us) :: rest =>
      if decide (c = company) then (c, us ++ [user]) :: rest
      else (c, us) :: group_append company user rest
  end.

Definition _create_company_docs {S} (users : list User) : M S (list Company) :=
  let companies_users :=
    foldl (fun groups user => group_append (u_company user) user groups) [] users in
  for_ companies_users (fun '(company_name, company_users) company_docs =>
    earliest <- min_of (u_reg_date <$> company_users) ;;
    ret (company_docs ++ [mkCompany company_name earliest 0 0])) [].

(** [range(lo, hi, step)] for a positive step *)
Definition range3 (lo hi step : Z) : list Z :=
  (fun i => lo + Z.of_nat i * step) <$> seq 0 (Z.to_nat ((hi - lo + step - 1) / step)).

Definition _create_project_docs (companies : list Company) : M Src (list Project) :=
  for_ companies (fun company projects =>
    num_projects <- randint cfg.demo_min_projects_per_company
                            cfg.demo_max_projects_per_company ;;
    let period_start := c_earliest_reg company + Datetime.days 90 in
    t <- now ;;
    let period_end := t + Datetime.days 30 in
    if period_end <=? period_start then ret projects
    else
      let period_length_days := Datetime.days_of (period_end - period_start) in
      if 0 <? num_projects then
        interval_days <- lift_res (truediv (inject_Z period_length_days)
                                           (inject_Z num_projects)) ;;
        project_dates <-
          for_ (range num_projects) (fun i project_dates =>
            let base_days := (inject_Z i * interval_days)%Q in
            let randomness_range := Z.max 1 (int_ (interval_days * (1 # 4))%Q) in
            random_offset <- randint (- randomness_range) randomness_range ;;
            let final_days :=
              max_f 0 (min_f (inject_Z (period_length_days - 1))
                             (base_days + inject_Z random_offset))%Q in
            let project_date := period_start + Datetime.days_f final_days in
            ret (project_dates ++ [project_date])) [] ;;
        current_date <- now ;;
        let future_projects := filter (fun d => current_date < d) project_dates in
        project_dates <-
          match future_projects with
          | [] =>
              let future_start := current_date + Datetime.days 1 in
              if future_start <? period_end then
                let future_range_days := Datetime.days_of (period_end - future_start) in
                if 0 <? future_range_days then
                  random_future_days <- randint 0 (future_range_days - 1) ;;
                  ret (<[pred (length project_dates) :=
                           future_start + Datetime.days random_future_days]> project_dates)
                else ret project_dates
              else ret project_dates
          | _ => ret project_dates
          end ;;
        for_ project_dates (fun project_date projects =>
          project_name <- choice cfg.project_list ;;
          ret (projects ++ [mkProject project_name (c_name company) project_date]))
          projects
      else ret projects) [].

(** [random.uniform(a, b)]: [a + (b - a) * random()], 53 random bits *)
Definition uniform (a b : Q) : M Src Q :=
  r <- draw ;;
  ret (a + (b - a) * (inject_Z (Z.of_N r mod 2 ^ 53) / inject_Z (2 ^ 53)))%Q.

(** [round(x, 2)] *)
Definition round2 (x : Q) : Q := (inject_Z (round_half_even (x * 100)) / 100)%Q.

Definition _create_trending_data_docs (companies : list Company)
  : M Src (list Trending) :=
  for_ companies (fun company trending_data =>
    for_ (take cfg.demo_trending_metrics_count cfg.metric_list)
      (fun metric trending_data =>
        for_ (range3 0 cfg.demo_trending_data_period_days
                     cfg.demo_trending_data_interval_days)
          (fun days_offset trending_data =>
            t <- now ;;
            let date := t - Datetime.days days_offset in
            value <- uniform 10 100 ;;
            ret (trending_data
                 ++ [mkTrending metric (c_name company) (round2 value) date]))
          trending_data)
      trending_data) [].

(** *** Company events *)


Definition _build_company_events (company_name : string) (reg_date : Z)
  : M Src (list CompanyEvent) :=
  let event_list := [] in
  (* Initial purchase event *)
  initial_purchase <- randint 1 15 ;;
  let pur_event :=
    mkCompanyEvent reg_date purchased company_name
                   (Some initial_purchase) None None None in
  let event_list := event_list ++ [pur_event] in
  (* Initial provisioning events *)
  d <- randint 2 14 ;;
  let prov_date := reg_date + Datetime.days d in
  initial_prov <- randint 1 initial_purchase ;;
  event_list <-
    for_ (range initial_prov) (fun device event_list =>
      sn <- randint 100000 2000000 ;;
      let prov_event :=
        mkCompanyEvent prov_date provisioned company_name None (Some 1)
                       (Some ("A" +:+ pretty sn))
                       (Some (company_name +:+ ".room." +:+ fmt02d (device + 1))) in
      ret (event_list ++ [prov_event])) event_list ;;
  (* Calculate time-based parameters *)
  t <- now ;;
  let seconds := Datetime.total_seconds (t - reg_date) in
  let days_since_reg := int_ (seconds / inject_Z 86400)%Q in
  let months_since_reg := int_ (inject_Z days_since_reg / inject_Z 30)%Q + 1 in
  (* Additional purchases and provisioning *)
  let boxes := initial_prov in
  let last_purchase_date := reg_date in
  k <- randint 1 2 ;;
  let purchases := k * months_since_reg in
  '(event_list, boxes, last_purchase_date) <-
    for_ (range2 1 purchases) (fun purchase '(event_list, boxes, last_purchase_date) =>
      purchased_ <- randint 5 15 ;;
      purchase_fraction <- lift_res (truediv (inject_Z purchase) (inject_Z purchases)) ;;
      t <- now ;;
      let last_purchase_date := reg_date + Datetime.mul_f (t - reg_date) purchase_fraction in
      (* Purchase event *)
      let pur_event :=
        mkCompanyEvent last_purchase_date purchased company_name
                       (Some purchased_) None None None in
      let event_list := event_list ++ [pur_event] in
      (* Provisioning events for this purchase *)
      d <- randint 2 14 ;;
      let prov_date := last_purchase_date + Datetime.days d in
      last_prov <- randint (purchased_ / 2) purchased_ ;;
      '(event_list, boxes) <-
        for_ (range2 1 (last_prov + 1)) (fun device '(event_list, boxes) =>
          let boxes := boxes + 1 in
          sn <- randint 100000 2000000 ;;
          let prov_event :=
            mkCompanyEvent prov_date provisioned company_name None (Some 1)
                           (Some ("A" +:+ pretty sn))
                           (Some (company_name +:+ ".room." +:+ fmt02d boxes)) in
          ret (event_list ++ [prov_event], boxes)) (event_list, boxes) ;;
      ret (event_list, boxes, last_purchase_date))
    (event_list, boxes, last_purchase_date) ;;
  ret event_list.


Definition _generate_company_events (companies : list Company)
  : M Src (list CompanyEvent) :=
  for_ companies (fun company all_events =>
    let company_name := c_name company in
    let reg_date := c_earliest_reg company in
    company_events <- _build_company_events company_name reg_date ;;
    ret (all_events ++ company_events)) [].

(** *** Aggregation *)

(** One entry of [company_updates]:
    [(company, {"purchased": [total], "provisioned": [total]})] *)
Definition CompanyUpdate : Type := string * gmap string (list Z).

(** [totals[company] += amount], after [totals[company] = 0] when the key
    is new *)
Definition add_to (company : string) (amount : option Z) (totals : gmap string Z)
  : res (gmap string Z) :=
  let totals := match totals !! company with
                | None => <[company := 0]> totals
                | Some _ => totals
                end in
  match amount with
  | Some n => Ok (<[company := default 0 (totals !! company) + n]> totals)
  | None => Raise TypeError
  end.

Definition _generate_company_updates {S} (company_events : list CompanyEvent)
  : M S (list CompanyUpdate) :=
  '(purchases, provisions) <-
    for_ company_events (fun event '(purchases, provisions) =>
      let company := ce_company event in
      match ce_type event with
      | purchased =>
          purchases <- lift_res (add_to company (ce_purchased event) purchases) ;;
          ret (purchases, provisions)
      | provisioned =>
          provisions <- lift_res (add_to company (ce_provisioned event) provisions) ;;
          ret (purchases, provisions)
      end) (∅, ∅) ;;
  let all_companies : gset string := dom purchases ∪ dom provisions in
  for_ (elements all_companies) (fun company company_updates =>
    let purchased_total := default 0 (purchases !! company) in
    let provisioned_total := default 0 (provisions !! company) in
    let company_update : CompanyUpdate :=
      (company, {[ "purchased" := [purchased_total];
                   "provisioned" := [provisioned_total] ]}) in
    ret (company_updates ++ [company_update])) [].

(** [d[key]] *)
Definition getitem {S A} (d : gmap string A) (key : string) : M S A :=
  match d !! key with
  | Some x => ret x
  | None => raise (KeyError key)
  end.

Definition _create_renewal_docs (company_updates : list CompanyUpdate)
  : M Src (list Renewal) :=
  for_ company_updates (fun company_update renewals =>
    let company_name := company_update.1 in
    let update_data := company_update.2 in
    purchased_list <- getitem update_data "purchased" ;;
    purchased_total <- index purchased_list 0 ;;
    let amount := purchased_total * 2499 in
    health_index <- randint 0 5 ;;
    health <- (if health_index <? 1 then randint 10 30
               else if health_index <? 3 then randint 30 60
               else randint 60 100) ;;
    t <- now ;;
    d <- randint 30 120 ;;
    ret (renewals ++ [mkRenewal company_name amount health (t + Datetime.days d)])) [].

(** *** User events *)

Definition _generate_registration_events (users : list User) : list UserEvent :=
  (fun user =>
     mkUserEvent (u_reg_date user) register (u_email user) (u_company user)
                 None None None None None None None None None None) <$> users.

(** The body of [for user in users] in [_generate_ticket_events] *)
Definition ticket_events_for (user : User) : M Src (list UserEvent) :=
  t <- now ;;
  let seconds := Datetime.total_seconds (t - u_reg_date user) in
  let days_since_reg := int_ (seconds / 86400)%Q in
  troubley <- randint 0 3 ;;
  per_ticket <- lift_res (truediv (inject_Z days_since_reg) (inject_Z (4 - troubley))) ;;
  let tickets := int_ (per_ticket / 2)%Q in
  for_ (range tickets) (fun ticket ticket_events =>
    spacing <- lift_res (truediv seconds (inject_Z tickets)) ;;
    let event_date :=
      u_reg_date user + Datetime.seconds (int_ (spacing / (11 # 10))%Q * ticket) in
    ticket_driver <- choice cfg.drivers ;;
    let event :=
      mkUserEvent event_date support_ticket (u_email user) (u_company user)
                  None None None None None None None None
                  (Some (u_email user +:+ "-" +:+ pretty ticket))
                  (Some ticket_driver) in
    ret (ticket_events ++ [event])) [].

Definition _generate_ticket_events (users : list User) : M Src (list UserEvent) :=
  for_ users (fun user ticket_events =>
    events <- ticket_events_for user ;;
    ret (ticket_events ++ events)) [].

(** The body of [for user in users] in [_generate_call_events] *)
Definition call_events_for (user : User) : M Src (list UserEvent) :=
  os <- choice cfg.operating_systems ;;
  t <- now ;;
  let seconds := Datetime.total_seconds (t - u_reg_date user) in
  let days_since_reg := int_ (seconds / 86400)%Q in
  freq <- randint 1 10 ;;
  per_day <- lift_res (truediv (inject_Z days_since_reg) (inject_Z (11 - freq))) ;;
  let calls := int_ (per_day * 10)%Q in
  happy <- randint 0 2 ;;
  ratey <- randint 0 2 ;;
  commenty <- randint 0 2 ;;
  chatty <- randint 0 4 ;;
  let seed := Datetime.dt_1980_01_01_0100 in
  let call_num := 0 in
  '(call_events, call_num) <-
    for_ (range calls) (fun call_ '(call_events, call_num) =>
      let call_num := call_num + 1 in
      (* Determine if caller was happy *)
      call_happy_score <- randint 0 99 ;;
      let call_happy := happy * 25 <=? call_happy_score in
      (* Determine rating *)
      call_rating_score <- randint 0 99 ;;
      call_rating <-
        (if call_rating_score <=? ratey * 40 then
           if call_happy then r <- randint 4 5 ;; ret (Some r)
           else r <- randint 1 3 ;; ret (Some r)
         else ret None) ;;
      (* Determine comment *)
      call_comment_score <- randint 0 99 ;;
      call_comment <-
        (if Qle_bool (inject_Z call_comment_score)
                     (inject_Z (commenty * 33 * ratey) / 3)%Q then
           if truthy_int call_rating && (3 <=? default 0 call_rating)
           then c <- choice cfg.good_comments ;; ret (Some c)
           else c <- choice cfg.bad_comments ;; ret (Some c)
         else ret None) ;;
      (* Determine call length *)
      length_draw <- randint 5 20 ;;
      let call_length := chatty * length_draw in
      (* Determine if dialin session *)
      call_dialin_score <- randint 0 99 ;;
      let dialin_length := if call_dialin_score <? 40 then Some call_length else None in
      (* Determine call type *)
      call_type_score <- randint 0 99 ;;
      call_type <-
        (if call_type_score <? 35 then index cfg.call_types 0
         else if call_type_score <? 70 then index cfg.call_types 1
         else if call_type_score <? 90 then index cfg.call_types 2
         else index cfg.call_types 3) ;;
      (* Determine number of callers *)
      call_size_score <- randint 0 99 ;;
      let call_users :=
        if call_size_score <? 35 then 2
        else if call_size_score <? 70 then 3
        else if call_size_score <? 95 then 4
        else call_size_score - 90 + 5 in
      (* Calculate event date *)
      spacing <- lift_res (truediv seconds (inject_Z calls)) ;;
      jitter <- randint (-1000) 1000 ;;
      let shift := int_ (spacing + inject_Z jitter)%Q * call_num in
      let event_date := u_reg_date user + Datetime.seconds shift in
      t1 <- now ;;
      event_date <- (if t1 <? event_date then now else ret event_date) ;;
      t2 <- now ;;
      let session_id : SessionId := (t2 - seed, call_) in
      (* Create call event *)
      let call_event :=
        mkUserEvent event_date call (u_email user) (u_company user)
                    (Some call_length) (Some call_type) (Some call_users) (Some os)
                    None None (Some session_id) None None None in
      let call_events := call_events ++ [call_event] in
      (* Create load event (1 minute before call) *)
      let load_event :=
        mkUserEvent (event_date - Datetime.minutes 1) load (u_email user)
                    (u_company user)
                    None None None None None None None None None None in
      let call_events := call_events ++ [load_event] in
      (* Create rating event if rating exists *)
      let call_events :=
        if truthy_int call_rating then
          call_events
          ++ [mkUserEvent event_date rating (u_email user) (u_company user)
                          None None None None call_rating None (Some session_id)
                          None None None]
        else call_events in
      (* Create comment event if comment exists *)
      let call_events :=
        if truthy_str call_comment then
          call_events
          ++ [mkUserEvent event_date comment (u_email user) (u_company user)
                          None None None None None call_comment (Some session_id)
                          None None None]
        else call_events in
      (* Create dialin event if dialin exists *)
      let call_events :=
        if truthy_int dialin_length then
          call_events
          ++ [mkUserEvent event_date dialin (u_email user) (u_company user)
                          dialin_length None None None None None None
                          None None None]
        else call_events in
      ret (call_events, call_num)) ([], call_num) ;;
  ret call_events.

Definition _generate_call_events (users : list User) : M Src (list UserEvent) :=
  for_ users (fun user call_events =>
    events <- call_events_for user ;;
    ret (call_events ++ events)) [].

Definition _generate_user_events (users : list User) : M Src (list UserEvent) :=
  let reg_events := _generate_registration_events users in
  ticket_events <- _generate_ticket_events users ;;
  call_events <- _generate_call_events users ;;
  ret (reg_events ++ ticket_events ++ call_events).

(** *** Stored shapes *)

Definition user_doc (u : User) : document :=
  {[ "email" := VStr (u_email u); "company" := VStr (u_company u);
     "reg_date" := VTime (u_reg_date u) ]}.

Definition company_doc (c : Company) : document :=
  {[ "name" := VStr (c_name c); "earliest_reg" := VTime (c_earliest_reg c);
     "boxes_bought" := VInt (c_boxes_bought c);
     "boxes_prov" := VInt (c_boxes_prov c) ]}.

Definition project_doc (p : Project) : document :=
  {[ "name" := VStr (p_name p); "company" := VStr (p_company p);
     "date" := VTime (p_date p) ]}.

Definition trending_doc (t : Trending) : document :=
  {[ "metric" := VStr (t_metric t); "company" := VStr (t_company t);
     "value" := VNum (t_value t); "date" := VTime (t_date t) ]}.

Definition renewal_doc (r : Renewal) : document :=
  {[ "company" := VStr (r_company r); "amount" := VInt (r_amount r);
     "health" := VInt (r_health r); "due" := VTime (r_due r) ]}.

(** *** Collection stages *)

(** The [try] block that opens each [_create_*_collection]:
    [delete_all_documents(name)] with the defaults [batch_size=500],
    [max_workers=10] *)
Definition delete_existing (kind collection_name : string) : M World unit :=
  catch
    (_ <- FirestoreService.delete_all_documents collection_name 500 10 ;; ret tt)
    (fun e =>
       _ <- logger_error ("Failed to delete existing " +:+ kind +:+ " documents")
                         (Some (str e)) ;;
       raise (ExternalServiceError
                ("Firestore service failed to delete existing " +:+ kind
                 +:+ " documents: " +:+ str e))).

(** The [try] block that closes each [_create_*_collection] *)
Definition write_new (kind collection_name : string) (documents : list document)
  : M World unit :=
  catch
    (FirestoreService.batch_write collection_name documents)
    (fun e =>
       _ <- logger_error ("Failed to write " +:+ kind +:+ " documents")
                         (Some (str e)) ;;
       raise (ExternalServiceError
                ("Firestore service failed to create " +:+ kind +:+ " documents: "
                 +:+ str e))).

(** [user_limit] is [None] or a number; [None] and [0] give no [LIMIT]. *)
Definition _get_users (user_limit : option nat) : M World (list SeedUser) :=
  catch
    (let limit_clause := match user_limit with
                         | Some O => None
                         | other => other
                         end in
     BigQueryService.execute_query limit_clause)
    (fun e =>
       _ <- logger_error "Failed to fetch users data" (Some (str e)) ;;
       raise (ExternalServiceError
                ("BigQuery service failed to fetch user data: " +:+ str e))).

Definition _create_user_collection (user_limit : option nat) : M World (list User) :=
  _ <- delete_existing "user" "users" ;;
  users <- _get_users user_limit ;;
  match users with
  | [] =>
      _ <- logger_warning "No users data available" None ;;
      raise (ExternalServiceError
               "No user records found in BigQuery database. Cannot generate demo data without source user data.")
  | _ =>
      users <- lift_src (_create_user_docs users) ;;
      _ <- write_new "user" "users" (user_doc <$> users) ;;
      ret users
  end.

Definition _create_company_collection (users : list User) : M World (list Company) :=
  _ <- delete_existing "company" "companies" ;;
  companies <- _create_company_docs users ;;
  _ <- write_new "company" "companies" (company_doc <$> companies) ;;
  ret companies.

Definition _create_projects_collection (companies : list Company)
  : M World (list Project) :=
  _ <- delete_existing "project" "projects" ;;
  projects <- lift_src (_create_project_docs companies) ;;
  _ <- write_new "project" "projects" (project_doc <$> projects) ;;
  ret projects.

Definition _create_trending_collection (companies : list Company)
  : M World (list Trending) :=
  _ <- delete_existing "trending" "trending" ;;
  trending_data <- lift_src (_create_trending_data_docs companies) ;;
  _ <- write_new "trending" "trending" (trending_doc <$> trending_data) ;;
  ret trending_data.

Definition _create_renewals_collection (company_updates : list CompanyUpdate)
  : M World (list Renewal) :=
  _ <- delete_existing "renewal" "renewals" ;;
  renewals <- lift_src (_create_renewal_docs company_updates) ;;
  _ <- write_new "renewal" "renewals" (renewal_doc <$> renewals) ;;
  ret renewals.

(** *** Table stages *)

Definition _clear_bigquery_tables : M World unit :=
  let tables_to_clear := ["company_events"; "user_events"] in
  _ <- for_ tables_to_clear (fun table_name _ =>
         catch
           (result <- BigQueryService.delete_all_rows table_name ;;
            if BigQueryService.success result then ret tt
            else logger_warning ("Failed to clear table " +:+ table_name +:+ ": "
                                 +:+ BigQueryService.message result) None)
           (fun e =>
              logger_warning ("Could not clear table " +:+ table_name +:+ ": "
                              +:+ str e) None)) tt ;;
  sleep 2.

Definition write_events (kind table_name : string) (rows : list row) : M World unit :=
  catch
    (result <- BigQueryService.write_rows_to_table table_name rows ;;
     if BigQueryService.success result then ret tt
     else raise (ExternalServiceError
                   ("Failed to write " +:+ kind +:+ " events: "
                    +:+ BigQueryService.message result)))
    (fun e =>
       _ <- logger_error ("Failed to write " +:+ kind +:+ " events to BigQuery")
                         (Some (str e)) ;;
       raise (ExternalServiceError
                ("BigQuery service failed to write " +:+ kind +:+ " events: "
                 +:+ str e))).

Definition _write_company_events_to_bigquery (company_events : list CompanyEvent)
  : M World unit :=
  write_events "company" "company_events" (CompanyRow <$> company_events).

Definition _write_user_events_to_bigquery (user_events : list UserEvent)
  : M World unit :=
  write_events "user" "user_events" (UserRow <$> user_events).

(** *** Patching the company documents *)

(** [update_data.get(key, [0])[0]] *)
Definition first_total {S} (update_data : gmap string (list Z)) (key : string)
  : M S Z :=
  index (default [0] (update_data !! key)) 0.

Definition _update_company_docs_with_purchases_and_provisions
    (company_updates : list CompanyUpdate) : M World unit :=
  updated_count <-
    for_ company_updates (fun company_update updated_count =>
      let company_name := company_update.1 in
      let update_data := company_update.2 in
      purchased_total <- first_total update_data "purchased" ;;
      provisioned_total <- first_total update_data "provisioned" ;;
      let update_fields : document :=
        {[ "boxes_bought" := VInt purchased_total;
           "boxes_prov" := VInt provisioned_total ]} in
      catch
        (_ <- FirestoreService.update_document_by_field
                "companies" "name" (VStr company_name) update_fields ;;
         ret (updated_count + 1)%nat)
        (fun e =>
           _ <- logger_error ("Failed to update company document for "
                              +:+ company_name) (Some (str e)) ;;
           ret updated_count)) 0%nat ;;
  ret tt.

(** *** The coordinator *)

Record Stats := mkStats {
  users : nat;
  companies : nat;
  projects : nat;
  trending_entries : nat;
  renewals : nat;
  company_events : nat;
  user_events : nat
}.

(** The dictionary that [create_demo_data] returns; [stats] and [error] are
    the keys that one of the two shapes lacks. *)
Record Outcome := mkOutcome {
  success : bool;
  message : string;
  stats : option Stats;
  error_text : option string
}.

(** The local variables of the [try] block of [create_demo_data] *)
Record Artifacts := mkArtifacts {
  a_users : list User;
  a_companies : list Company;
  a_projects : list Project;
  a_trending : list Trending;
  a_company_events : list CompanyEvent;
  a_company_updates : list CompanyUpdate;
  a_renewals : list Renewal;
  a_user_events : list UserEvent
}.

(** The [try] block of [create_demo_data] *)
Definition stages (user_limit : option nat) : M World Artifacts :=
  (* Create core collections *)
  users <- _create_user_collection user_limit ;;
  companies <- _create_company_collection users ;;
  projects <- _create_projects_collection companies ;;
  trending <- _create_trending_collection companies ;;
  (* Generate and write company events to BigQuery *)
  company_events <- lift_src (_generate_company_events companies) ;;
  _ <- _clear_bigquery_tables ;;
  _ <- _write_company_events_to_bigquery company_events ;;
  (* Generate company updates and create renewals *)
  company_updates <- _generate_company_updates company_events ;;
  renewals <- _create_renewals_collection company_updates ;;
  _ <- _update_company_docs_with_purchases_and_provisions company_updates ;;
  (* Generate and write user events to BigQuery *)
  user_events <- lift_src (_generate_user_events users) ;;
  _ <- _write_user_events_to_bigquery user_events ;;
  ret (mkArtifacts users companies projects trending company_events
                   company_updates renewals user_events).

Definition stats_of (a : Artifacts) : Stats :=
  mkStats (length (a_users a)) (length (a_companies a)) (length (a_projects a))
          (length (a_trending a)) (length (a_renewals a))
          (length (a_company_events a)) (length (a_user_events a)).

Definition create_demo_data (user_limit : option nat) : M World Outcome :=
  catch
    (a <- stages user_limit ;;
     ret (mkOutcome true "Demo data created successfully" (Some (stats_of a)) None))
    (fun e =>
       _ <- logger_error "Demo data creation failed" (Some (str e)) ;;
       ret (mkOutcome false ("Demo data creation failed: " +:+ str e) None
                      (Some (str e)))).

End DemoDataService.


Import DemoDataService.

(** * Vocabulary of the properties *)

Fixpoint sum_with {A} (f : A -> Z) (l : list A) : Z :=
  match l with
  | [] => 0
  | x :: l' => f x + sum_with f l'
  end.

(** What an event adds to the purchased and to the provisioned total *)
Definition purchased_of (e : CompanyEvent) : Z :=
  match ce_type e with
  | purchased => default 0 (ce_purchased e)
  | provisioned => 0
  end.

Definition provisioned_of (e : CompanyEvent) : Z :=
  match ce_type e with
  | purchased => 0
  | provisioned => default 0 (ce_provisioned e)
  end.

(** The events of one company, in generation order *)
Definition events_of (company : string) (evs : list CompanyEvent) : list CompanyEvent :=
  filter (fun e => ce_company e = company) evs.

Definition total_purchased (company : string) (evs : list CompanyEvent) : Z :=
  sum_with purchased_of (events_of company evs).

Definition total_provisioned (company : string) (evs : list CompanyEvent) : Z :=
  sum_with provisioned_of (events_of company evs).

(** An event as the synthesizer writes it for [company]: a purchase carries
    its quantity, a provisioning carries one unit. *)
Definition event_of (company : string) (e : CompanyEvent) : Prop :=
  ce_company e = company /\
  match ce_type e with
  | purchased => exists n, ce_purchased e = Some n /\ 1 <= n <= 15
  | provisioned => ce_provisioned e = Some 1
  end.

(** The companies that occur in a list of events *)
Definition companies_in (evs : list CompanyEvent) : gset string :=
  list_to_set (ce_company <$> evs).

(** The entry of [company_updates] that the totals of [company] make *)
Definition update_for (evs : list CompanyEvent) (company : string) : CompanyUpdate :=
  (company, {[ "purchased" := [total_purchased company evs];
               "provisioned" := [total_provisioned company evs] ]}).

(** An event that carries the quantity of its type *)
Definition has_quantity (e : CompanyEvent) : Prop :=
  match ce_type e with
  | purchased => is_Some (ce_purchased e)
  | provisioned => is_Some (ce_provisioned e)
  end.

(** What an event adds to the total of the type [ty] *)
Definition quantity_of (ty : company_event_type) : CompanyEvent -> Z :=
  match ty with
  | purchased => purchased_of
  | provisioned => provisioned_of
  end.

(** One dictionary of the aggregation after the events [pre]: a company is
    a key once it has an event of the type, and its value is the total *)
Definition tally (ty : company_event_type) (m : gmap string Z)
    (pre : list CompanyEvent) : Prop :=
  forall c,
    m !! c =
    if decide (Exists (fun e => ce_company e = c /\ ce_type e = ty) pre)
    then Some (sum_with (quantity_of ty) (events_of c pre))
    else None.

(** A company's stream: it opens with a purchase and never provisions more
    than was bought. *)
Definition company_stream (company : string) (evs : list CompanyEvent) : Prop :=
  (exists e0, head evs = Some e0 /\ ce_type e0 = purchased) /\
  Forall (event_of company) evs /\
  sum_with provisioned_of evs <= sum_with purchased_of evs.

(** [wp c Q s]: running [c] from [s] ends in a result and a state that
    satisfy [Q]. *)
Definition wp {S A} (c : M S A) (Q : res A -> S -> Prop) (s : S) : Prop :=
  Q (c s).1 (c s).2.

(** A postcondition for code that must return *)
Definition returns {S A} (Q : A -> S -> Prop) : res A -> S -> Prop :=
  fun r s => match r with Ok a => Q a s | Raise _ => False end.

(** [stays R c]: the state [c] leaves is [R]-related to the one it found,
    whether it returns or raises. *)
Definition stays {S A} (R : S -> S -> Prop) (c : M S A) : Prop :=
  forall s, wp c (fun _ s' => R s s') s.

(** A relation between worlds that the bookkeeping of a run (draws, the
    count of client calls, sleeps, the log) cannot break *)
Class Bookkeeping (R : World -> World -> Prop) := {
  bk_refl :: Reflexive R;
  bk_trans :: Transitive R;
  bk_src : forall f w, R w (set_src f w);
  bk_calls : forall f w, R w (set_calls f w);
  bk_slept : forall f w, R w (set_slept f w);
  bk_log : forall e w, R w (set_log (fun l => l ++ [e]) w)
}.

(** [R] puts no condition on the collection [name], or on the tables. *)
Definition allows_coll (R : World -> World -> Prop) (name : string) : Prop :=
  forall f w, R w (coll_step name f w).

Definition allows_tables (R : World -> World -> Prop) : Prop :=
  forall f w, R w (set_tables f w).

(** The stores and the plan of the client replies are as before. *)
Definition same_stores (w w' : World) : Prop :=
  collections w' = collections w /\ tables w' = tables w /\
  seed_rows w' = seed_rows w /\ plan w' = plan w.

(** A future that holds a value *)
Definition resolved (f : FirestoreService.Future) : Prop :=
  match f with Ok _ => True | Raise _ => False end.

(** A postcondition for code that may raise: it speaks of the runs that
    return. *)
Definition if_returns {S A} (Q : A -> S -> Prop) : res A -> S -> Prop :=
  fun r s => match r with Ok a => Q a s | Raise _ => True end.

(** The references that [delete_all_documents] streams: the query is
    limited to four batches. *)
Definition streamed (batch_size : nat) (m : collection) : list positive :=
  take (batch_size * 4) (map_to_list m).*1.

(** The document that [where(field, "==", v).limit(1)] yields *)
Definition first_match (field : string) (v : value) (m : collection)
  : option (positive * document) :=
  head (filter (fun kd => FirestoreService.field_is field v kd.2 = true) (map_to_list m)).

(** The line that the patch stage logs when the update of a company
    fails *)
Definition patch_failed (company_name : string) (e : exn) : log_entry :=
  mkLog error ("Failed to update company document for " +:+ company_name)
        (Some (str e)).

(** The fields that the patch stage sets from an entry of
    [company_updates] with the totals [p] and [v] *)
Definition totals_patch (p v : Z) : document :=
  {[ "boxes_bought" := VInt p; "boxes_prov" := VInt v ]}.

(** An entry of [company_updates] with one total of each kind *)
Definition update_with (u : CompanyUpdate) (p v : Z) : Prop :=
  u.2 = {[ "purchased" := [p]; "provisioned" := [v] ]}.

(** The log only grows. *)
Definition log_grows (w w' : World) : Prop := log w `prefix_of` log w'.

(** One iteration of the patch loop, for the company [name] with the
    totals [p] and [v]: the first document of that name takes the totals,
    or nothing changes and the failure is logged. *)
Definition patch_step (name : string) (p v : Z) (w1 w2 : World) : Prop :=
  log_grows w1 w2 /\
  ((exists k d,
      first_match "name" (VStr name) (coll w1 "companies") = Some (k, d) /\
      coll w2 "companies" = <[k := totals_patch p v ∪ d]> (coll w1 "companies") /\
      log w2 = log w1)
   \/ (coll w2 "companies" = coll w1 "companies" /\
       exists e, patch_failed name e ∈ log w2)).

(** A sub-event that follows the call [c] of its iteration: it has the
    timestamp of the call; a rating or a comment carries the session
    identifier of the call, a dial-in carries none and repeats the
    duration. *)
Definition follows_call (c e : UserEvent) : Prop :=
  ue_timestamp e = ue_timestamp c /\
  match ue_type e with
  | rating =>
      ue_session_id e = ue_session_id c /\
      exists r, ue_rating e = Some r /\ 1 <= r <= 5
  | comment =>
      ue_session_id e = ue_session_id c /\
      exists text, ue_comment e = Some text /\
                   text ∈ cfg.good_comments ++ cfg.bad_comments
  | dialin =>
      ue_session_id e = None /\ ue_call_duration e = ue_call_duration c /\
      exists n, ue_call_duration e = Some n /\ n <> 0
  | _ => False
  end.

(** The events of the iteration [i] of the call loop: the call, with the
    session identifier of the iteration, its load one minute earlier and
    without session identifier, then at most one rating, one comment and
    one dial-in, in this order. *)
Definition call_group (user : User) (i : Z) (g : list UserEvent) : Prop :=
  exists c l rest elapsed,
    g = c :: l :: rest /\
    ue_type c = call /\ ue_session_id c = Some (elapsed, i) /\
    ue_type l = load /\ ue_session_id l = None /\
    ue_timestamp l = ue_timestamp c - Datetime.minutes 1 /\
    Forall (follows_call c) rest /\
    sublist (ue_type <$> rest) [rating; comment; dialin] /\
    Forall (fun e => ue_user e = u_email user /\ ue_company e = u_company user) g.

(** The events of a user's calls, iteration after iteration *)
Definition call_groups (user : User) (groups : list (list UserEvent)) : Prop :=
  forall i g, groups !! i = Some g -> call_group user (Z.of_nat i) g.

(** Reading a company's events in generation order, from the last
    purchase date [last]: a purchase is not earlier than the purchase
    before it and becomes the last one; a provisioning comes 2 to 14 days
    after the last purchase. *)
Definition timeline_step (last : Z) (e : CompanyEvent) : option Z :=
  match ce_type e with
  | purchased => if last <=? ce_timestamp e then Some (ce_timestamp e) else None
  | provisioned =>
      if (last + Datetime.days 2 <=? ce_timestamp e)
         && (ce_timestamp e <=? last + Datetime.days 14)
      then Some last else None
  end.

Definition timeline (start : Z) (evs : list CompanyEvent) : option Z :=
  foldl (fun acc e => last ← acc; timeline_step last e) (Some start) evs.

(** A list of timestamps that never decreases *)
Fixpoint nondecreasing (ts : list Z) : bool :=
  match ts with
  | a :: (b :: _) as rest => (a <=? b) && nondecreasing rest
  | _ => true
  end.

(** ** The claims as the specification states them, where the code departs *)

(** Timestamps of a company in generation order never decrease. *)
Definition company_timestamps_never_decrease
    (company_name : string) (reg_date : Z) (s : Src) : Prop :=
  forall evs s',
    _build_company_events company_name reg_date s = (Ok evs, s') ->
    nondecreasing (ce_timestamp <$> evs) = true.

(** Every load, rating, comment and dial-in of a user carries the session
    identifier of exactly one of the user's calls. *)
Definition sub_events_carry_a_session (user : User) (s : Src) : Prop :=
  forall evs s',
    call_events_for user s = (Ok evs, s') ->
    forall e, e ∈ evs -> ue_type e ∈ [load; rating; comment; dialin] ->
      exists c, c ∈ evs /\ ue_type c = call /\
                is_Some (ue_session_id c) /\ ue_session_id e = ue_session_id c.

(** ** Concrete inputs *)

Module Example.

(** A clock that stands at day 739000 and draws that are all [n] *)
Definition quiet (n : N) : Src := mkSrc (fun _ => n) 0 (Datetime.days 739000).

(** Registered one day before the clock *)
Definition yesterday : Z := Datetime.days 738999.

Definition ann : User := mkUser "ann@acme.test" "Acme" yesterday.

(** Registered thirty days before the clock *)
Definition bob : User := mkUser "bob@bolt.test" "Bolt" (Datetime.days 738970).

(** A world with the given documents, seed rows and plan of replies *)
Definition world (s : Src) (cs : gmap string collection) (seed : list SeedUser)
    (p : nat -> reply) : World :=
  mkWorld s cs ∅ seed p 0 [] [].

(** 2001 documents *)
Definition crowd : collection :=
  list_to_map ((fun i => (Pos.of_nat i, {[ "email" := VStr "old" ]})) <$> seq 1 2001).

Definition crowded : World :=
  world (quiet 0) {[ "users" := crowd ]} [] (fun _ => Fine).

(** Two new documents *)
Definition newcomers : list document :=
  [ {[ "email" := VStr "new1" ]}; {[ "email" := VStr "new2" ]} ].

(** An entry of [company_updates] *)
Definition acme_update : CompanyUpdate :=
  ("Acme", {[ "purchased" := [1]; "provisioned" := [1] ]}).

(** A store whose call number [n] fails *)
Definition fails_at (n : nat) : nat -> reply :=
  fun i => if (i =? n)%nat then Raises "unavailable" else Fine.

(** Empty stores and one seed user, registered a day before the clock *)
Definition seeded (p : nat -> reply) : World :=
  world (quiet 0) ∅ [mkSeedUser "ann@acme.test" "Acme" 1] p.

(** One document in [users], no seed row *)
Definition leftover : World :=
  world (quiet 0) {[ "users" := {[ 1%positive := {[ "email" := VStr "old" ]} ]} ]} []
        (fun _ => Fine).

(** An entry of [company_updates] for a company without a document *)
Definition bolt_update : CompanyUpdate :=
  ("Bolt", {[ "purchased" := [3]; "provisioned" := [2] ]}).

(** The document that the companies stage writes for Acme *)
Definition acme_doc : document := company_doc (mkCompany "Acme" yesterday 0 0).

(** Acme's document alone in [companies], and a store that never fails *)
Definition acme_only : World :=
  world (quiet 0) {[ "companies" := {[ 1%positive := acme_doc ]} ]} [] (fun _ => Fine).

(** Empty stores and two seed users of two companies *)
Definition pair_seeded (p : nat -> reply) : World :=
  world (quiet 0) ∅
    [mkSeedUser "ann@acme.test" "Acme" 1; mkSeedUser "bob@bolt.test" "Bolt" 1] p.

(** 10,001 rows for the table of the company events *)
Definition many_rows : list row :=
  replicate (Z.to_nat 10001)
    (CompanyRow (mkCompanyEvent yesterday purchased "Acme" (Some 1) None None None)).

(** A store that answers "not found" to its second and third call: the
    first two attempts on the second chunk of [many_rows] *)
Definition second_chunk_missing_twice : nat -> reply :=
  fun i => if (0 <? i)%nat && (i <? 3)%nat then Raises "404 Table not found" else Fine.

(** A store whose second call fails for another reason *)
Definition second_chunk_refused : nat -> reply :=
  fun i => if (i =? 1)%nat then Raises "quota exceeded" else Fine.

End Example.

(** The text that [insert_rows_json] leaves in [str(e)] when it fails: the
    message of the exception, or the message made of the row errors *)
Definition error_str (r : reply) : option string :=
  match r with
  | Fine => None
  | Raises msg => Some msg
  | RowErrors errors => Some ("BigQuery insert_rows_json errors: " +:+ errors)
  end.

(** A reply that the retry takes for the table being transiently missing *)
Definition transient (r : reply) : bool :=
  match error_str r with
  | Some text => contains "not found" (lower text)
  | None => false
  end.

(** A reply that fails for another reason *)
Definition fatal (r : reply) : bool :=
  match error_str r with
  | Some text => negb (contains "not found" (lower text))
  | None => false
  end.

(** The rows of a table *)
Definition rows_of (w : World) (table_name : string) : list row :=
  default [] (tables w !! table_name).

(** What some attempts to insert leave of the world, but for the log:
    [n] more client calls, the sleeps, and the tables *)
Definition after_calls (n : nat) (w w' : World) (sleeps : list Z)
    (ts : gmap string (list row)) : Prop :=
  calls w' = (calls w + n)%nat /\ plan w' = plan w /\
  slept w' = slept w ++ sleeps /\ tables w' = ts.

(** The batch that the ingest takes at the offset [i], and the offsets of
    the batches of [rows] *)
Definition batch_at (rows : list row) (i : nat) : list row :=
  take BigQueryService.batch_size (drop i rows).

Definition batch_offsets (rows : list row) : list nat :=
  BigQueryService.range_step (length rows) BigQueryService.batch_size.

(** The replacement of a collection, as each [_create_*_collection] does
    it: [delete_all_documents] with its defaults, then [batch_write] *)
Definition replace (collection_name : string) (new_records : list document)
  : M World unit :=
  _ <- FirestoreService.delete_all_documents collection_name 500 10 ;;
  FirestoreService.batch_write collection_name new_records.

(** ** The run without seed users *)

(** The text of the error that [_create_user_collection] raises when the
    query yields no user *)
Definition no_users_text : string :=
  "No user records found in BigQuery database. Cannot generate demo data without source user data.".

(** The stores are as the run found them. *)
Definition stores_untouched (w w' : World) : Prop :=
  tables w' = tables w /\ forall name, coll w' name = coll w name.

(** A failure that leaves the stores alone *)
Definition aborts_before_any_store_change (user_limit : option nat) (w : World) : Prop :=
  seed_rows w = [] ->
  forall o w', create_demo_data user_limit w = (Ok o, w') ->
    success o = false /\ stores_untouched w w'.

(** Nothing is written, and [users] alone may lose documents. *)
Definition only_users_shrink (w w' : World) : Prop :=
  tables w' = tables w /\ seed_rows w' = seed_rows w /\ plan w' = plan w /\
  (forall name, name <> "users" -> coll w' name = coll w name) /\
  coll w' "users" ⊆ coll w "users".

(** Every client call succeeds. *)
Definition healthy (w : World) : Prop := forall n, plan w n = Fine.

(** ** The coordinator as a state machine *)

(** The stages of the [try] block of [create_demo_data], in its order;
    [ReplaceUsers] is [_create_user_collection], which also fetches the
    seed users. *)
Inductive stage :=
| ReplaceUsers
| ReplaceCompanies
| ReplaceProjects
| ReplaceTrending
| SynthesizeCompanyEvents
| TruncateAnalyticsTables
| IngestCompanyEvents
| AggregateCompanyEvents
| ReplaceRenewals
| PatchCompanyTotals
| SynthesizeUserEvents
| IngestUserEvents.

Definition pipeline : list stage :=
  [ReplaceUsers; ReplaceCompanies; ReplaceProjects; ReplaceTrending;
   SynthesizeCompanyEvents; TruncateAnalyticsTables; IngestCompanyEvents;
   AggregateCompanyEvents; ReplaceRenewals; PatchCompanyTotals;
   SynthesizeUserEvents; IngestUserEvents].

(** No stage has run yet. *)
Definition blank : Artifacts := mkArtifacts [] [] [] [] [] [] [] [].

(** One stage: it reads the results of the earlier stages and adds its
    own. *)
Definition run_stage (user_limit : option nat) (st : stage) (a : Artifacts)
  : M World Artifacts :=
  match st with
  | ReplaceUsers =>
      x <- _create_user_collection user_limit ;;
      ret (mkArtifacts x (a_companies a) (a_projects a) (a_trending a)
             (a_company_events a) (a_company_updates a) (a_renewals a) (a_user_events a))
  | ReplaceCompanies =>
      x <- _create_company_collection (a_users a) ;;
      ret (mkArtifacts (a_users a) x (a_projects a) (a_trending a)
             (a_company_events a) (a_company_updates a) (a_renewals a) (a_user_events a))
  | ReplaceProjects =>
      x <- _create_projects_collection (a_companies a) ;;
      ret (mkArtifacts (a_users a) (a_companies a) x (a_trending a)
             (a_company_events a) (a_company_updates a) (a_renewals a) (a_user_events a))
  | ReplaceTrending =>
      x <- _create_trending_collection (a_companies a) ;;
      ret (mkArtifacts (a_users a) (a_companies a) (a_projects a) x
             (a_company_events a) (a_company_updates a) (a_renewals a) (a_user_events a))
  | SynthesizeCompanyEvents =>
      x <- lift_src (_generate_company_events (a_companies a)) ;;
      ret (mkArtifacts (a_users a) (a_companies a) (a_projects a) (a_trending a)
             x (a_company_updates a) (a_renewals a) (a_user_events a))
  | TruncateAnalyticsTables =>
      _ <- _clear_bigquery_tables ;; ret a
  | IngestCompanyEvents =>
      _ <- _write_company_events_to_bigquery (a_company_events a) ;; ret a
  | AggregateCompanyEvents =>
      x <- _generate_company_updates (a_company_events a) ;;
      ret (mkArtifacts (a_users a) (a_companies a) (a_projects a) (a_trending a)
             (a_company_events a) x (a_renewals a) (a_user_events a))
  | ReplaceRenewals =>
      x <- _create_renewals_collection (a_company_updates a) ;;
      ret (mkArtifacts (a_users a) (a_companies a) (a_projects a) (a_trending a)
             (a_company_events a) (a_company_updates a) x (a_user_events a))
  | PatchCompanyTotals =>
      _ <- _update_company_docs_with_purchases_and_provisions (a_company_updates a) ;;
      ret a
  | SynthesizeUserEvents =>
      x <- lift_src (_generate_user_events (a_users a)) ;;
      ret (mkArtifacts (a_users a) (a_companies a) (a_projects a) (a_trending a)
             (a_company_events a) (a_company_updates a) (a_renewals a) x)
  | IngestUserEvents =>
      _ <- _write_user_events_to_bigquery (a_user_events a) ;; ret a
  end.

Inductive state :=
| Done (a : Artifacts)
| Failed (st : stage) (cause : exn).

(** Strictly sequential, each stage gated on the success of the one
    before; a stage that raises ends the run. *)
Fixpoint machine (user_limit : option nat) (todo : list stage) (a : Artifacts)
    (w : World) : state * World :=
  match todo with
  | [] => (Done a, w)
  | st :: todo' =>
      match run_stage user_limit st a w with
      | (Ok a', w') => machine user_limit todo' a' w'
      | (Raise e, w') => (Failed st e, w')
      end
  end.

(** What the coordinator returns from the last state: the failure is
    logged and its result carries the text of the cause, and no count. *)
Definition report (r : state * World) : res Outcome * World :=
  match r with
  | (Done a, w) =>
      (Ok (mkOutcome true "Demo data created successfully" (Some (stats_of a)) None), w)
  | (Failed _ e, w) =>
      (Ok (mkOutcome false ("Demo data creation failed: " +:+ str e) None (Some (str e))),
       set_log (fun l => l ++ [mkLog error "Demo data creation failed" (Some (str e))]) w)
  end.

(** A failure result that carries the counts of the stages *)
Definition failure_carries_counts (user_limit : option nat) (w : World) : Prop :=
  forall o w', create_demo_data user_limit w = (Ok o, w') ->
    success o = false -> is_Some (stats o).

(** What the aggregation needs of the events, and the patch stage of the
    entries, to return *)
Definition well_formed (a : Artifacts) : Prop :=
  Forall has_quantity (a_company_events a) /\
  Forall (fun u => exists p v, update_with u p v) (a_company_updates a).

(** ** The totals on the company documents *)

(** No two documents of the collection have the same name. *)
Definition names_unique (m : collection) : Prop :=
  forall k1 k2 d1 d2,
    m !! k1 = Some d1 -> m !! k2 = Some d2 -> d1 !! "name" = d2 !! "name" -> k1 = k2.

(** The names of the documents, by identifier *)
Definition names_of (m : collection) : gmap positive (option value) :=
  (fun d : document => d !! "name") <$> m.

(** The collection [companies] is as before. *)
Definition same_companies (w w' : World) : Prop :=
  coll w' "companies" = coll w "companies".

(** The document of every company carries the totals of its events. *)
Definition totals_on_company_documents (user_limit : option nat) (w : World) : Prop :=
  forall a w', stages user_limit w = (Ok a, w') ->
  forall c, c ∈ a_companies a ->
    exists k d,
      coll w' "companies" !! k = Some d /\
      d !! "name" = Some (VStr (c_name c)) /\
      d !! "boxes_bought"
      = Some (VInt (total_purchased (c_name c) (a_company_events a))) /\
      d !! "boxes_prov"
      = Some (VInt (total_provisioned (c_name c) (a_company_events a))).

(** ** The patch loop, entry by entry *)

(** Of the stores, only the collection [name] may differ. *)
Definition only_coll (name : string) (w w' : World) : Prop :=
  tables w' = tables w /\ seed_rows w' = seed_rows w /\ plan w' = plan w /\
  forall other, other <> name -> coll w' other = coll w other.

(** The plan of the client replies is as before. *)
Definition same_plan (w w' : World) : Prop := plan w' = plan w.

(** A reply that is an exception of the client *)
Definition refused (r : reply) : bool :=
  match r with Raises _ => true | _ => false end.

(** The document that an update by match changes from [w]: the first
    match of the query, when the client answers the query and then the
    update; and the number of client calls that the update by match
    makes *)
Definition update_target (name field : string) (v : value) (w : World)
  : option (positive * document) :=
  if refused (plan w (calls w)) then None
  else match first_match field v (coll w name) with
       | Some kd => if refused (plan w (S (calls w))) then None else Some kd
       | None => None
       end.

Definition update_calls (name field : string) (v : value) (w : World) : nat :=
  if refused (plan w (calls w)) then 1%nat
  else match first_match field v (coll w name) with
       | Some _ => 2%nat
       | None => 1%nat
       end.

(** What an update by match of [fields] leaves of [w]: the target has
    taken the fields and nothing is logged, or no document has changed;
    the clock, the tables and the other collections are as before. *)
Definition update_by_match (name field : string) (v : value) (fields : document)
    (w w' : World) : Prop :=
  only_coll name w w' /\
  calls w' = (calls w + update_calls name field v w)%nat /\
  slept w' = slept w /\ src w' = src w /\
  match update_target name field v w with
  | Some (k, d) =>
      coll w' name = <[k := fields ∪ d]> (coll w name) /\ log w' = log w
  | None => coll w' name = coll w name /\ log w `prefix_of` log w'
  end.

(** One entry of the patch loop, for the company [name] with the totals
    [p] and [v]: the update by match of the two totals; when it has no
    target, the line of the failure ends the log. *)
Definition patch_entry (name : string) (p v : Z) (w1 w2 : World) : Prop :=
  update_by_match "companies" "name" (VStr name) (totals_patch p v) w1 w2 /\
  (update_target "companies" "name" (VStr name) w1 = None ->
   exists e, last (log w2) = Some (patch_failed name e)).

(** The worlds that the entries of [company_updates] lead through, one
    entry after the other, whatever became of the entries before *)
Inductive patched : list CompanyUpdate -> World -> World -> Prop :=
| patched_nil w : patched [] w w
| patched_cons u p v ups w w1 w2 :
    update_with u p v -> patch_entry u.1 p v w w1 -> patched ups w1 w2 ->
    patched (u :: ups) w w2.

(** A document of the collection has the name. *)
Definition named (name : string) (m : collection) : Prop :=
  exists k d, m !! k = Some d /\ d !! "name" = Some (VStr name).

(** Between [w] and [w'], a document that the company [name] had in [w]
    has taken the totals [p] and [v] and kept its other fields. *)
Definition merged (name : string) (p v : Z) (w w' : World) : Prop :=
  exists k d,
    coll w "companies" !! k = Some d /\ d !! "name" = Some (VStr name) /\
    coll w' "companies" !! k = Some (totals_patch p v ∪ d).

(** Between [w] and [w'], the documents of the company [name] are as they
    were and the log holds a failure of its update. *)
Definition skipped (name : string) (w w' : World) : Prop :=
  (forall k d, coll w "companies" !! k = Some d -> d !! "name" = Some (VStr name) ->
               coll w' "companies" !! k = Some d) /\
  exists e, patch_failed name e ∈ log w'.
(** ** The draws behind the sub-events of a call *)

(** The value of [random.randint(a, b)] at the draw number [n] of the
    oracle [o] *)
Definition drawn (o : nat -> N) (n : nat) (a b : Z) : Z :=
  a + Z.of_N (o n) mod (b - a + 1).

(** What the iteration of a call decides when it begins at the draw number
    [n], for a user with the dispositions [ratey], [commenty] and
    [chatty].  The call is rated when the rating score, the second draw of
    the iteration, is at most [ratey * 40]; it is commented when the
    comment score, the draw after those of the rating, is at most
    [commenty * 33 * ratey / 3]; it is dialled in when the dial-in score,
    two draws further, is below 40 and the duration, [chatty] times the
    draw before that score, is not zero. *)
Definition rates (o : nat -> N) (ratey : Z) (n : nat) : bool :=
  drawn o (n + 1) 0 99 <=? ratey * 40.

Definition comments (o : nat -> N) (ratey commenty : Z) (n : nat) : bool :=
  Qle_bool (inject_Z (drawn o (n + 2 + Nat.b2n (rates o ratey n)) 0 99))
           (inject_Z (commenty * 33 * ratey) / 3).

Definition dials_in (o : nat -> N) (ratey commenty chatty : Z) (n : nat) : bool :=
  let m := (n + 3 + Nat.b2n (rates o ratey n)
            + Nat.b2n (comments o ratey commenty n))%nat in
  (drawn o (m + 1) 0 99 <? 40) && negb (chatty * drawn o m 5 20 =? 0).

(** The types of the sub-events that the iteration appends after the call
    and its load *)
Definition decided (o : nat -> N) (ratey commenty chatty : Z) (n : nat)
  : list user_event_type :=
  (if rates o ratey n then [rating] else [])
  ++ (if comments o ratey commenty n then [comment] else [])
  ++ (if dials_in o ratey commenty chatty n then [dialin] else []).

(** The draws of a run of the call generator for one user, from [s] to
    [s'], that gave the groups of events [groups].  [starts] lists the
    draw numbers at which the iterations begin, and ends with the draw
    number at which the run ends.  The first iteration begins at the
    eighth draw of the run: the operating system, the clock and the five
    dispositions come before it, [ratey], [commenty] and [chatty] being
    the last three.  An iteration makes 10 draws, one more for the value
    of a rating, one more for the text of a comment, and one more when it
    reads the clock again for a date in the future.  Every group has the
    call, its load, and the sub-events that the draws of its own iteration
    decide. *)
Definition call_draws (s s' : Src) (groups : list (list UserEvent))
    (starts : list nat) : Prop :=
  let o := oracle s in
  let ratey := drawn o (cursor s + 4) 0 2 in
  let commenty := drawn o (cursor s + 5) 0 2 in
  let chatty := drawn o (cursor s + 6) 0 4 in
  length starts = S (length groups) /\
  starts !! 0%nat = Some (cursor s + 7)%nat /\
  last starts = Some (cursor s') /\
  forall i g n n',
    groups !! i = Some g -> starts !! i = Some n -> starts !! S i = Some n' ->
    ue_type <$> g = call :: load :: decided o ratey commenty chatty n /\
    (n + 10 + Nat.b2n (rates o ratey n) + Nat.b2n (comments o ratey commenty n)
     <= n' <=
     n + 11 + Nat.b2n (rates o ratey n) + Nat.b2n (comments o ratey commenty n))%nat.

(** ** The ingest as the specification words it *)

(** How the attempts on one chunk end: the rows are in the table, or an
    error aborts the ingest. *)
Inductive chunk_end :=
| ChunkIn
| ChunkFailed (text : string).

(** One chunk, its first attempt being the client call number [c]: an
    attempt that the client answers without an error ends the attempts
    with the rows in; after an error that is transient, when one of the
    [retries] is left, comes a sleep of [delay] seconds and the next
    attempt, with twice the delay; any other error, and any error of the
    last attempt, is fatal.  The result: how the attempts end, their
    number and the sleeps. *)
Fixpoint spec_insert_chunk (retries : nat) (delay : Z) (p : nat -> reply) (c : nat)
  : chunk_end * nat * list Z :=
  match error_str (p c) with
  | None => (ChunkIn, 1%nat, [])
  | Some text =>
      match retries with
      | S retries' =>
          if transient (p c) then
            let '(e, n, sleeps) := spec_insert_chunk retries' (2 * delay) p (S c) in
            (e, S n, delay :: sleeps)
          else (ChunkFailed text, 1%nat, [])
      | O => (ChunkFailed text, 1%nat, [])
      end
  end.

(** The chunks in their order, each with 3 attempts and a first delay of
    1 second; the first chunk that fails ends the ingest.  The result: the
    text of the fatal error if there is one, the rows that are in the
    table, the number of client calls and the sleeps. *)
Fixpoint spec_insert (p : nat -> reply) (c : nat) (chunks : list (list row))
  : option string * list row * nat * list Z :=
  match chunks with
  | [] => (None, [], 0%nat, [])
  | chunk :: chunks' =>
      match spec_insert_chunk 2 1 p c with
      | (ChunkIn, n, sleeps) =>
          let '(failure, rows, m, sleeps') := spec_insert p (c + n) chunks' in
          (failure, chunk ++ rows, (n + m)%nat, sleeps ++ sleeps')
      | (ChunkFailed text, n, sleeps) => (Some text, [], n, sleeps)
      end
  end.

(** The chunks of the specification: 10,000 rows each, the last one the
    rows that are left *)
Definition chunk_size : nat := Z.to_nat 10000.

Definition spec_chunks (rows : list row) : list (list row) :=
  (fun j => take chunk_size (drop (j * chunk_size) rows))
    <$> seq 0 (Nat.div (length rows + chunk_size - 1) chunk_size).


(** The run from [Example.pair_seeded] with a store that fails once, on
    the query of the patch stage for the second company *)
Definition mixed_run : res Artifacts * World :=
  stages None (Example.pair_seeded (Example.fails_at 15)).

Definition mixed_artifacts : Artifacts :=
  match mixed_run.1 with Ok a => a | Raise _ => blank end.

Definition mixed_final : World := mixed_run.2.

(** * Properties *)

(** ** A program logic for the monad *)

Section Logic.
Context {S : Type}.

Lemma wp_ret {A} (a : A) (Q : res A -> S -> Prop) s : Q (Ok a) s -> wp (ret a) Q s.
Proof. done. Qed.

Lemma wp_raise {A} e (Q : res A -> S -> Prop) s : Q (Raise e) s -> wp (raise e) Q s.
Proof. done. Qed.

Lemma wp_lift_res {A} (r : res A) (Q : res A -> S -> Prop) s : Q r s -> wp (lift_res r) Q s.
Proof. done. Qed.

Lemma wp_bind {A B} (c : M S A) (k : A -> M S B) (Q : res B -> S -> Prop) s :
  wp c (fun r s' => match r with
                    | Ok a => wp (k a) Q s'
                    | Raise e => Q (Raise e) s'
                    end) s ->
  wp (bind c k) Q s.
Proof. unfold wp, bind. by destruct (c s) as [[a|e] s']. Qed.

Lemma wp_catch {A} (c : M S A) (h : exn -> M S A) (Q : res A -> S -> Prop) s :
  wp c (fun r s' => match r with
                    | Ok a => Q (Ok a) s'
                    | Raise e => wp (h e) Q s'
                    end) s ->
  wp (catch c h) Q s.
Proof. unfold wp, catch. by destruct (c s) as [[a|e] s']. Qed.

Lemma wp_mono {A} (c : M S A) (Q Q' : res A -> S -> Prop) s :
  wp c Q s -> (forall r s', Q r s' -> Q' r s') -> wp c Q' s.
Proof. unfold wp. auto. Qed.

Lemma wp_get (Q : res S -> S -> Prop) s : Q (Ok s) s -> wp get Q s.
Proof. done. Qed.

Lemma wp_modify (f : S -> S) (Q : res unit -> S -> Prop) s : Q (Ok tt) (f s) -> wp (modify f) Q s.
Proof. done. Qed.

(** A step that returns binds its value. *)
Lemma wp_bind_returns {A B} (c : M S A) (k : A -> M S B) (Q : B -> S -> Prop) s :
  wp c (returns (fun a s' => wp (k a) (returns Q) s')) s ->
  wp (bind c k) (returns Q) s.
Proof.
  intros H. apply wp_bind. eapply wp_mono; [exact H|].
  by intros [a|e] s'.
Qed.

(** The loop rule: the invariant speaks of the items already visited. *)
Lemma wp_for {A B} (I : list A -> B -> S -> Prop) (body : A -> B -> M S B) xs :
  forall pre acc s,
  I pre acc s ->
  (forall pre' x b s', pre' ++ [x] `prefix_of` pre ++ xs -> I pre' b s' ->
     wp (body x b) (returns (I (pre' ++ [x]))) s') ->
  wp (for_ xs body acc) (returns (I (pre ++ xs))) s.
Proof.
  induction xs as [|x xs IH]; intros pre acc s HI Hbody; simpl.
  - rewrite app_nil_r. by apply wp_ret.
  - apply wp_bind_returns.
    eapply wp_mono.
    + apply (Hbody pre x acc s); [|done].
      exists xs. by rewrite <- app_assoc.
    + intros [b|e] s' Hb; [|done]. simpl in *.
      replace (pre ++ x :: xs) with ((pre ++ [x]) ++ xs) by by rewrite <- app_assoc.
      apply IH; [done|].
      intros pre' y b' s'' Hpre. apply Hbody.
      by rewrite <- app_assoc in Hpre.
Qed.

(** Reading a result off [wp] *)
Lemma wp_returns_inv {A} (c : M S A) (Q : A -> S -> Prop) s :
  wp c (returns Q) s -> exists a s', c s = (Ok a, s') /\ Q a s'.
Proof.
  unfold wp, returns. destruct (c s) as [[a|e] s']; simpl; [eauto|done].
Qed.

Lemma wp_intro {A} (c : M S A) (Q : res A -> S -> Prop) s r s' : c s = (r, s') -> Q r s' -> wp c Q s.
Proof. unfold wp. by intros ->. Qed.

Lemma wp_elim {A} (c : M S A) (Q : res A -> S -> Prop) s r s' : c s = (r, s') -> wp c Q s -> Q r s'.
Proof. unfold wp. by intros ->. Qed.

End Logic.

(** ** The randomness source *)

Lemma wp_randint a b Q s :
  a <= b ->
  (forall v s', a <= v <= b -> wall s' = wall s -> Q (Ok v) s') ->
  wp (randint a b) Q s.
Proof.
  intros Hab HQ. unfold randint.
  destruct (Z.ltb_spec b a); [lia|].
  apply wp_bind. unfold wp, draw; simpl. apply HQ; [|done].
  pose proof (Z.mod_pos_bound (Z.of_N (oracle s (cursor s))) (b - a + 1)). lia.
Qed.

Lemma wp_choice {A} (xs : list A) Q s :
  xs <> [] ->
  (forall x s', x ∈ xs -> wall s' = wall s -> Q (Ok x) s') ->
  wp (choice xs) Q s.
Proof.
  intros Hne HQ. unfold choice. destruct xs as [|x0 xs']; [done|].
  apply wp_bind. unfold wp, draw, ret; cbn [fst snd]. apply HQ; [|done].
  apply list_elem_of_In, nth_In.
  apply Nat.mod_upper_bound. cbn [length]. lia.
Qed.

Lemma wp_now Q s :
  (forall t s', wall s <= t -> wall s' = t -> Q (Ok t) s') ->
  wp now Q s.
Proof. intros HQ. unfold wp, now; simpl. apply HQ; [lia|done]. Qed.

(** ** Arithmetic of the embedding *)

Lemma sum_with_app {A} (f : A -> Z) l1 l2 :
  sum_with f (l1 ++ l2) = sum_with f l1 + sum_with f l2.
Proof. induction l1 as [|x l1 IH]; simpl; lia. Qed.

Lemma elem_of_range2 lo hi x : x ∈ range2 lo hi <-> lo <= x < hi.
Proof.
  unfold range2. rewrite list_elem_of_fmap. split.
  - intros (i & -> & Hi). apply elem_of_seq in Hi. lia.
  - intros Hx. exists (Z.to_nat (x - lo)). split; [lia|].
    apply elem_of_seq. lia.
Qed.

Lemma length_range2 lo hi : length (range2 lo hi) = Z.to_nat (hi - lo).
Proof. unfold range2. by rewrite length_fmap, length_seq. Qed.

Lemma length_range n : length (range n) = Z.to_nat n.
Proof. unfold range. rewrite length_range2. f_equal. lia. Qed.

(** The item a loop over a range visits after [pre] *)
Lemma range2_prefix lo hi pre x :
  pre ++ [x] `prefix_of` range2 lo hi -> x = lo + Z.of_nat (length pre) /\ x < hi.
Proof.
  intros [rest Hr].
  assert (Hl : range2 lo hi !! length pre = Some x).
  { rewrite Hr, <- app_assoc. by apply list_lookup_middle. }
  unfold range2 in Hl. rewrite list_lookup_fmap in Hl.
  destruct (seq 0 (Z.to_nat (hi - lo)) !! length pre) as [i|] eqn:Hi; [|done].
  apply lookup_seq in Hi as [-> Hlt]. simpl in Hl. injection Hl as <-. lia.
Qed.

Lemma prefix_snoc_elem {A} (pre' : list A) x l : pre' ++ [x] `prefix_of` l -> x ∈ l.
Proof. intros [rest ->]. set_solver. Qed.

Lemma truediv_inject a n : n <> 0 -> truediv a (inject_Z n) = Ok (a / inject_Z n)%Q.
Proof.
  intros Hn. unfold truediv.
  destruct (Qeq_bool (inject_Z n) 0) eqn:E; [|done].
  apply Qeq_bool_iff in E. unfold Qeq in E. simpl in E. lia.
Qed.

Ltac wp_step :=
  lazymatch goal with
  | |- wp (bind _ _) (returns _) _ => apply wp_bind_returns
  | |- wp (bind _ _) _ _ => apply wp_bind
  | |- wp (ret _) (returns _) _ => apply wp_ret; unfold returns at 1; cbn beta iota
  | |- wp (ret _) _ _ => apply wp_ret
  | |- wp (lift_res (truediv _ (inject_Z _))) _ _ =>
      rewrite truediv_inject by lia; apply wp_lift_res; cbn beta iota
  | |- returns _ (Ok _) _ => unfold returns at 1; cbn beta iota
  end.

(** [v <- randint a b ;; k], forgetting the state *)
Tactic Notation "wp_rand" ident(v) ident(H) :=
  apply wp_bind_returns; apply wp_randint;
  [try lia | intros v ? H _; unfold returns at 1; cbn beta iota].

(** [t <- now ;; k], forgetting the state *)
Tactic Notation "wp_clock" ident(t) :=
  apply wp_bind_returns; apply wp_now;
  intros t ? _ _; unfold returns at 1; cbn beta iota.

(** ** The company stream *)

Lemma sum_with_snoc {A} (f : A -> Z) l x : sum_with f (l ++ [x]) = sum_with f l + f x.
Proof. rewrite sum_with_app. simpl. lia. Qed.

Lemma head_snoc {A} (l : list A) x y : head l = Some y -> head (l ++ [x]) = Some y.
Proof. by destruct l. Qed.

Lemma event_of_purchase company t n :
  1 <= n <= 15 ->
  event_of company (mkCompanyEvent t purchased company (Some n) None None None).
Proof. intros Hn. split; [done|]. simpl. eauto. Qed.

Lemma event_of_provision company t a b :
  event_of company (mkCompanyEvent t provisioned company None (Some 1) a b).
Proof. by split. Qed.


Lemma build_company_events_stream company_name reg_date s :
  wp (_build_company_events company_name reg_date)
     (returns (fun evs _ => company_stream company_name evs)) s.
Proof.
  unfold _build_company_events.
  wp_rand initial_purchase Hip.
  wp_rand d Hd.
  wp_rand initial_prov Hiv.
  wp_step.
  eapply wp_mono.
  { apply (wp_for (fun pre evs _ =>
       (exists e0, head evs = Some e0 /\ ce_type e0 = purchased) /\
       Forall (event_of company_name) evs /\
       sum_with purchased_of evs = initial_purchase /\
       sum_with provisioned_of evs = Z.of_nat (length pre)) _ _ []).
    - split_and!; [by eexists | | simpl; unfold purchased_of; simpl; lia | done].
      repeat constructor. simpl. exists initial_purchase. split; [done|lia].
    - intros pre' x evs s0 _ ((e0 & Hhd & He0) & Hall & Hp & Hv).
      wp_rand sn Hsn. wp_step.
      rewrite !sum_with_snoc, length_app.
      split_and!.
      + exists e0. split; [by apply head_snoc|done].
      + apply Forall_app. split; [done|]. repeat constructor.
      + unfold purchased_of at 2. simpl. lia.
      + unfold provisioned_of at 2. simpl. lia. }
  intros [evs|e] s0; [|done]. unfold returns at 1. cbn [app].
  rewrite length_range.
  intros (Hhd & Hall & Hp & Hv).
  wp_clock t.
  wp_rand k Hk.
  wp_step.
  eapply wp_mono.
  { apply (wp_for (fun _ '(evs, _, _) _ => company_stream company_name evs)
                  _ _ []).
    - split_and!; [done|done|lia].
    - intros pre' purchase [[evs' boxes] lpd] s3 Hpre (Hhd' & Hall' & Hle).
      apply range2_prefix in Hpre as [Hge Hlt].
      wp_rand purchased_ Hpu.
      wp_step. wp_step.
      wp_clock t'.
      wp_rand d' Hd'.
      apply wp_bind_returns; apply wp_randint.
      { apply Z.div_le_upper_bound; lia. }
      intros last_prov s7 Hlp _. unfold returns at 1. cbn beta iota.
      wp_step.
      eapply wp_mono.
      { apply (wp_for (fun pre '(evs, _) _ =>
           (exists e0, head evs = Some e0 /\ ce_type e0 = purchased) /\
           Forall (event_of company_name) evs /\
           sum_with purchased_of evs = sum_with purchased_of evs' + purchased_ /\
           sum_with provisioned_of evs
           = sum_with provisioned_of evs' + Z.of_nat (length pre)) _ _ []).
        - destruct Hhd' as (e0 & Hhd' & He0).
          rewrite !sum_with_snoc.
          split_and!.
          + exists e0. split; [by apply head_snoc|done].
          + apply Forall_app. split; [done|]. repeat constructor.
            simpl. exists purchased_. split; [done|lia].
          + unfold purchased_of at 2. simpl. lia.
          + unfold provisioned_of at 2. simpl. lia.
        - intros pre'' device [evs'' boxes''] s8 _
            ((e0 & Hhd'' & He0) & Hall'' & Hp'' & Hv'').
          wp_rand sn Hsn. wp_step.
          rewrite !sum_with_snoc, length_app.
          split_and!.
          + exists e0. split; [by apply head_snoc|done].
          + apply Forall_app. split; [done|]. repeat constructor.
          + unfold purchased_of at 2. simpl. lia.
          + unfold provisioned_of at 2. simpl. lia. }
      intros [[evs'' boxes'']|e] s8; [|done]. unfold returns at 1. cbn [app].
      rewrite length_range2.
      intros (Hhd'' & Hall'' & Hp'' & Hv'').
      wp_step.
      split_and!; [done|done|]. pose proof (Z.div_pos purchased_ 2). lia. }
  intros [[[evs' boxes] lpd]|e] s3; [|done]. unfold returns at 1. intros Hs.
  by wp_step.
Qed.


Lemma event_of_has_quantity c e : event_of c e -> has_quantity e.
Proof.
  intros [_ H]. unfold has_quantity. destruct (ce_type e); [|by eexists].
  destruct H as (n & -> & _). by eexists.
Qed.

Lemma events_of_app c l1 l2 : events_of c (l1 ++ l2) = events_of c l1 ++ events_of c l2.
Proof. apply filter_app. Qed.

Lemma events_of_same c st : Forall (event_of c) st -> events_of c st = st.
Proof.
  unfold events_of. induction 1 as [|e st [He _] _ IH]; [done|].
  rewrite filter_cons_True by done. by rewrite IH.
Qed.

Lemma events_of_other c c' st : c <> c' -> Forall (event_of c') st -> events_of c st = [].
Proof.
  intros Hne. unfold events_of. induction 1 as [|e st [He _] _ IH]; [done|].
  rewrite filter_cons_False by congruence. done.
Qed.

(** A loop that only appends the image of its item *)
Lemma for_append_map {S A B} (f : A -> B) (xs : list A) (acc : list B) (s : S) :
  for_ xs (fun x acc => ret (acc ++ [f x])) acc s = (Ok (acc ++ (f <$> xs)), s).
Proof.
  revert acc. induction xs as [|x xs IH]; intros acc; simpl.
  - by rewrite app_nil_r.
  - unfold bind, ret at 1. rewrite IH. by rewrite <- app_assoc.
Qed.

Lemma generate_company_events_streams companies s :
  wp (_generate_company_events companies)
     (returns (fun evs _ =>
        exists streams, evs = concat streams /\
          Forall2 (fun c st => company_stream (c_name c) st) companies streams)) s.
Proof.
  unfold _generate_company_events.
  eapply wp_mono.
  { apply (wp_for (fun pre evs _ =>
       exists streams, evs = concat streams /\
         Forall2 (fun c st => company_stream (c_name c) st) pre streams) _ _ []).
    - by exists [].
    - intros pre' c evs s' _ (streams & -> & Hall).
      wp_step. eapply wp_mono; [apply build_company_events_stream|].
      intros [st|e] s''; [|done]. unfold returns at 1 3. intros Hst.
      wp_step. exists (streams ++ [st]). split.
      + rewrite concat_app. simpl. by rewrite app_nil_r.
      + apply Forall2_app; [done|]. by constructor. }
  by intros [evs|e] s'.
Qed.

(** Per company, the provisioned total of the generated events is at most
    the purchased total. *)
Lemma streams_totals streams names c :
  Forall2 (fun n st => company_stream n st) names streams ->
  total_provisioned c (concat streams) <= total_purchased c (concat streams).
Proof.
  unfold total_provisioned, total_purchased.
  induction 1 as [|n st names streams (_ & Hall & Hle) _ IH]; simpl; [done|].
  rewrite events_of_app, !sum_with_app.
  destruct (decide (c = n)) as [->|Hne].
  - rewrite events_of_same by done. lia.
  - rewrite (events_of_other c n) by done. simpl. lia.
Qed.


Lemma add_to_some c n (m : gmap string Z) :
  add_to c (Some n) m = Ok (<[c := default 0 (m !! c) + n]> m).
Proof.
  unfold add_to. destruct (m !! c) as [v|] eqn:E; simpl.
  - by rewrite E.
  - rewrite lookup_insert_eq. simpl. by rewrite insert_insert_eq.
Qed.


Lemma quantity_of_other ty e : ce_type e <> ty -> quantity_of ty e = 0.
Proof.
  unfold quantity_of, purchased_of, provisioned_of.
  destruct ty, (ce_type e); congruence.
Qed.

Lemma sum_quantity_absent ty c pre :
  ~ Exists (fun e => ce_company e = c /\ ce_type e = ty) pre ->
  sum_with (quantity_of ty) (events_of c pre) = 0.
Proof.
  unfold events_of. induction pre as [|e pre IH]; intros Hn; [done|].
  rewrite Exists_cons in Hn.
  destruct (decide (ce_company e = c)) as [Hc|Hc].
  - rewrite filter_cons_True by done. simpl.
    rewrite quantity_of_other by tauto. rewrite IH by tauto. done.
  - rewrite filter_cons_False by done. apply IH. tauto.
Qed.

Lemma tally_empty ty : tally ty ∅ [].
Proof.
  intros c. rewrite lookup_empty. case_decide as H; [|done].
  by apply Exists_nil in H.
Qed.

Lemma tally_skip ty m pre e : ce_type e <> ty -> tally ty m pre -> tally ty m (pre ++ [e]).
Proof.
  intros Hty Hm c. rewrite (Hm c).
  rewrite events_of_app, sum_with_app.
  assert (Hx : Exists (fun e => ce_company e = c /\ ce_type e = ty) (pre ++ [e])
               <-> Exists (fun e => ce_company e = c /\ ce_type e = ty) pre).
  { rewrite Exists_app, Exists_cons, Exists_nil. tauto. }
  assert (Hz : sum_with (quantity_of ty) (events_of c [e]) = 0).
  { unfold events_of. destruct (decide (ce_company e = c)).
    - rewrite filter_cons_True by done. simpl. rewrite quantity_of_other by done. done.
    - by rewrite filter_cons_False by done. }
  rewrite Hz. repeat case_decide; try tauto. f_equal. lia.
Qed.

Lemma tally_add ty m pre e :
  ce_type e = ty -> tally ty m pre ->
  tally ty (<[ce_company e := default 0 (m !! ce_company e) + quantity_of ty e]> m)
        (pre ++ [e]).
Proof.
  intros Hty Hm c. rewrite events_of_app, sum_with_app.
  destruct (decide (ce_company e = c)) as [<-|Hne].
  - rewrite lookup_insert_eq. rewrite decide_True.
    2:{ rewrite Exists_app, Exists_cons. tauto. }
    f_equal. unfold events_of at 2. rewrite filter_cons_True by done. simpl.
    rewrite (Hm (ce_company e)). case_decide as Hx; simpl; [lia|].
    rewrite sum_quantity_absent by done. lia.
  - rewrite lookup_insert_ne by done. rewrite (Hm c).
    unfold events_of at 3. rewrite filter_cons_False by done. simpl.
    assert (Hx : Exists (fun e => ce_company e = c /\ ce_type e = ty) (pre ++ [e])
                 <-> Exists (fun e => ce_company e = c /\ ce_type e = ty) pre).
    { rewrite Exists_app, Exists_cons, Exists_nil. tauto. }
    repeat case_decide; try tauto. f_equal. lia.
Qed.

Lemma tally_default ty m evs c :
  tally ty m evs -> default 0 (m !! c) = sum_with (quantity_of ty) (events_of c evs).
Proof.
  intros Hm. rewrite (Hm c). case_decide; [done|].
  by rewrite sum_quantity_absent.
Qed.

Lemma tally_dom ty m evs c :
  tally ty m evs ->
  c ∈ dom m <-> Exists (fun e => ce_company e = c /\ ce_type e = ty) evs.
Proof.
  intros Hm. rewrite elem_of_dom, (Hm c). case_decide; split; try done.
  all: first [by intros [? ?] | by eexists].
Qed.

(** The aggregation: one entry per company that occurs, with its totals *)
Lemma generate_company_updates_spec {S} (evs : list CompanyEvent) (s : S) :
  Forall has_quantity evs ->
  wp (_generate_company_updates evs)
     (returns (fun ups s' =>
        s' = s /\
        exists order, ups = update_for evs <$> order /\ NoDup order /\
                      (forall c, c ∈ order <-> c ∈ companies_in evs))) s.
Proof.
  intros Hq. unfold _generate_company_updates.
  wp_step.
  eapply wp_mono.
  { apply (wp_for (fun pre '(purchases, provisions) s' =>
       s' = s /\ tally purchased purchases pre /\ tally provisioned provisions pre)
       _ _ []).
    - split_and!; [done|apply tally_empty..].
    - intros pre' e [pu pv] s' Hpre (-> & Hpu & Hpv).
      apply prefix_snoc_elem in Hpre. simpl in Hpre.
      rewrite Forall_forall in Hq. specialize (Hq e Hpre).
      unfold has_quantity in Hq. cbn zeta.
      destruct (ce_type e) eqn:Hty; destruct Hq as [n Hn]; rewrite Hn.
      + wp_step. rewrite add_to_some. apply wp_lift_res. wp_step.
        split_and!; [done| |by apply tally_skip; [congruence|]].
        replace n with (quantity_of purchased e).
        * by apply tally_add.
        * simpl. unfold purchased_of. by rewrite Hty, Hn.
      + wp_step. rewrite add_to_some. apply wp_lift_res. wp_step.
        split_and!; [done|by apply tally_skip; [congruence|]|].
        replace n with (quantity_of provisioned e).
        * by apply tally_add.
        * simpl. unfold provisioned_of. by rewrite Hty, Hn. }
  intros [[pu pv]|e] s'; [|done]. unfold returns at 1. cbn [app].
  intros (-> & Hpu & Hpv).
  wp_step. unfold wp. cbv zeta. rewrite for_append_map. simpl. split; [done|].
  exists (elements (dom pu ∪ dom pv)).
  split_and!.
  - apply list_fmap_ext. intros _ c _. unfold update_for, total_purchased, total_provisioned.
    by rewrite (tally_default _ _ _ _ Hpu), (tally_default _ _ _ _ Hpv).
  - apply NoDup_elements.
  - intros c. rewrite elem_of_elements, elem_of_union.
    rewrite (tally_dom _ _ _ _ Hpu), (tally_dom _ _ _ _ Hpv).
    unfold companies_in. rewrite elem_of_list_to_set, list_elem_of_fmap.
    rewrite !Exists_exists. split.
    + intros [(e & He & Hc & _)|(e & He & Hc & _)]; eauto.
    + intros (e & -> & He). destruct (ce_type e) eqn:Hty; [left|right]; eauto.
Qed.


(** ** What a computation may change *)


Section Stays.
Context {S : Type} (R : S -> S -> Prop) `{!Reflexive R, !Transitive R}.

Lemma stays_ret {A} (a : A) : stays R (ret a).
Proof. intros s. apply wp_ret. reflexivity. Qed.

Lemma stays_raise {A} e : stays R (raise (A:=A) e).
Proof. intros s. apply wp_raise. reflexivity. Qed.

Lemma stays_lift_res {A} (r : res A) : stays R (lift_res r).
Proof. intros s. apply wp_lift_res. reflexivity. Qed.

Lemma stays_get : stays R get.
Proof. intros s. apply wp_get. reflexivity. Qed.

Lemma stays_bind {A B} (c : M S A) (k : A -> M S B) :
  stays R c -> (forall a, stays R (k a)) -> stays R (bind c k).
Proof.
  intros Hc Hk s. apply wp_bind. eapply wp_mono; [apply Hc|].
  intros [a|e] s' Hs; [|done].
  eapply wp_mono; [apply Hk|]. intros r s'' Hs'. by transitivity s'.
Qed.

Lemma stays_catch {A} (c : M S A) (h : exn -> M S A) :
  stays R c -> (forall e, stays R (h e)) -> stays R (catch c h).
Proof.
  intros Hc Hh s. apply wp_catch. eapply wp_mono; [apply Hc|].
  intros [a|e] s' Hs; [done|].
  eapply wp_mono; [apply Hh|]. intros r s'' Hs'. by transitivity s'.
Qed.

Lemma stays_for {A B} (xs : list A) (body : A -> B -> M S B) acc :
  (forall x b, stays R (body x b)) -> stays R (for_ xs body acc).
Proof.
  intros Hb. revert acc. induction xs as [|x xs IH]; intros acc; simpl.
  - apply stays_ret.
  - apply stays_bind; [apply Hb|]. intros b. apply IH.
Qed.

Lemma stays_for_break {A B} (xs : list A) (body : A -> B -> M S (flow B)) acc :
  (forall x b, stays R (body x b)) -> stays R (for_break xs body acc).
Proof.
  intros Hb. revert acc. induction xs as [|x xs IH]; intros acc; simpl.
  - apply stays_ret.
  - apply stays_bind; [apply Hb|]. intros [b|b]; [apply IH|apply stays_ret].
Qed.

Lemma stays_modify (f : S -> S) : (forall s, R s (f s)) -> stays R (modify f).
Proof. intros Hf s. apply wp_modify. apply Hf. Qed.

End Stays.


Section WorldStays.
Context (R : World -> World -> Prop) `{!Bookkeeping R}.

Lemma stays_lift_src {A} (c : M Src A) : stays R (lift_src c).
Proof.
  intros w. unfold wp, lift_src. destruct (c (src w)) as [r s']. apply bk_src.
Qed.

Lemma stays_client_call : stays R client_call.
Proof. intros w. apply bk_calls. Qed.

Lemma stays_rpc : stays R rpc.
Proof.
  apply stays_bind; [apply _..|apply stays_client_call|].
  intros [| |]; first [apply stays_ret | apply stays_raise]; apply _.
Qed.

Lemma stays_logger_warning msg err : stays R (logger_warning msg err).
Proof. apply stays_modify. intros w. apply (bk_log (mkLog warning msg err)). Qed.

Lemma stays_logger_error msg err : stays R (logger_error msg err).
Proof. apply stays_modify. intros w. apply (bk_log (mkLog error msg err)). Qed.

Lemma stays_sleep d : stays R (sleep d).
Proof. apply stays_modify. intros w. apply bk_slept. Qed.

Lemma stays_update_coll name f :
  (forall w, R w (coll_step name f w)) -> stays R (update_coll name f).
Proof. intros H. by apply stays_modify. Qed.

End WorldStays.

(** Walks a computation and leaves the steps on the stores. *)
Ltac stays_step :=
  lazymatch goal with
  | |- Reflexive _ => solve [typeclasses eauto]
  | |- Transitive _ => solve [typeclasses eauto]
  | |- Bookkeeping _ => solve [typeclasses eauto]
  | |- forall _, _ => intro
  | |- stays _ (ret _) => apply stays_ret
  | |- stays _ (raise _) => apply stays_raise
  | |- stays _ (lift_res _) => apply stays_lift_res
  | |- stays _ get => apply stays_get
  | |- stays _ (lift_src _) => apply stays_lift_src
  | |- stays _ rpc => apply stays_rpc
  | |- stays _ client_call => apply stays_client_call
  | |- stays _ (logger_warning _ _) => apply stays_logger_warning
  | |- stays _ (logger_error _ _) => apply stays_logger_error
  | |- stays _ (sleep _) => apply stays_sleep
  | |- stays _ (bind _ _) => apply stays_bind
  | |- stays _ (catch _ _) => apply stays_catch
  | |- stays _ (for_ _ _ _) => apply stays_for
  | |- stays _ (for_break _ _ _) => apply stays_for_break
  | |- stays _ (update_coll _ _) => apply stays_update_coll
  | |- stays _ (modify _) => apply stays_modify
  | |- stays _ (match ?x with _ => _ end) => destruct x
  | |- stays _ ((match ?x with _ => _ end) _) => destruct x
  | |- stays _ (if ?b then _ else _) => destruct b
  end.

Ltac stays_walk := repeat stays_step.

Section FirestoreStays.
Context (R : World -> World -> Prop) `{!Bookkeeping R}.
Import FirestoreService.

Lemma stays_stream_refs name n : stays R (stream_refs name n).
Proof. unfold stream_refs. stays_walk. Qed.

Lemma stays_stream_where name field v n : stays R (stream_where name field v n).
Proof. unfold stream_where. stays_walk. Qed.

Lemma stays_submit name refs cnt :
  (forall ks w, R w (coll_step name (removed ks) w)) ->
  stays R (submit name refs cnt).
Proof.
  intros Hdel w.
  assert (H : stays R (delete_batch name refs cnt)).
  { unfold delete_batch, commit_deletes. stays_walk; apply Hdel. }
  specialize (H w). unfold wp, submit in *.
  by destruct (delete_batch name refs cnt w) as [[[n c]|e] w'].
Qed.

Lemma stays_delete_all_documents name bs mw :
  (forall ks w, R w (coll_step name (removed ks) w)) ->
  stays R (delete_all_documents name bs mw).
Proof.
  intros Hdel. unfold delete_all_documents, result.
  stays_walk; first [apply stays_stream_refs | apply stays_submit]; done.
Qed.

Lemma stays_batch_write name docs :
  (forall w, R w (coll_step name (written docs) w)) ->
  stays R (batch_write name docs).
Proof. intros Hw. unfold batch_write, commit_sets. stays_walk; apply Hw. Qed.

Lemma stays_update_document_by_field name field v fields :
  (forall k w, R w (coll_step name (updated k fields) w)) ->
  stays R (update_document_by_field name field v fields).
Proof.
  intros Hu. unfold update_document_by_field, reference_update.
  stays_walk; first [apply stays_stream_where | apply Hu]; done.
Qed.

End FirestoreStays.


Section ServiceStays.
Context (R : World -> World -> Prop) `{!Bookkeeping R}.

Lemma stays_execute_query limit : stays R (BigQueryService.execute_query limit).
Proof. unfold BigQueryService.execute_query. stays_walk. Qed.

Lemma stays_delete_all_rows t :
  (forall w, R w (set_tables (BigQueryService.truncated t) w)) ->
  stays R (BigQueryService.delete_all_rows t).
Proof. intros H. unfold BigQueryService.delete_all_rows. stays_walk. apply H. Qed.

Lemma stays_insert_rows_json t batch :
  (forall w, R w (set_tables (BigQueryService.appended t batch) w)) ->
  stays R (BigQueryService.insert_rows_json t batch).
Proof. intros H. unfold BigQueryService.insert_rows_json. stays_walk. apply H. Qed.

Lemma stays_write_rows_to_table t rows :
  (forall batch w, R w (set_tables (BigQueryService.appended t batch) w)) ->
  stays R (BigQueryService.write_rows_to_table t rows).
Proof.
  intros H. unfold BigQueryService.write_rows_to_table, BigQueryService.insert_batch,
    BigQueryService.insert_attempt.
  stays_walk; apply stays_insert_rows_json; apply H.
Qed.

Lemma stays_index {A} (xs : list A) i : stays R (index xs i).
Proof. unfold index. stays_walk. Qed.

Lemma stays_min_of xs : stays R (min_of xs).
Proof. unfold min_of. stays_walk. Qed.

Lemma stays_create_company_docs users : stays R (_create_company_docs users).
Proof. unfold _create_company_docs. stays_walk. apply stays_min_of. Qed.

Lemma stays_generate_company_updates evs : stays R (_generate_company_updates evs).
Proof. unfold _generate_company_updates. stays_walk. Qed.

Lemma stays_delete_existing kind name :
  (forall ks w, R w (coll_step name (FirestoreService.removed ks) w)) ->
  stays R (delete_existing kind name).
Proof.
  intros H. unfold delete_existing. stays_walk.
  by apply stays_delete_all_documents.
Qed.

Lemma stays_write_new kind name docs :
  (forall w, R w (coll_step name (FirestoreService.written docs) w)) ->
  stays R (write_new kind name docs).
Proof. intros H. unfold write_new. stays_walk. by apply stays_batch_write. Qed.

Lemma stays_get_users limit : stays R (_get_users limit).
Proof. unfold _get_users. stays_walk. apply stays_execute_query. Qed.

Lemma stays_create_user_collection limit :
  allows_coll R "users" -> stays R (_create_user_collection limit).
Proof.
  intros H. unfold _create_user_collection. stays_walk;
    first [apply stays_delete_existing | apply stays_get_users | apply stays_write_new];
    intros; apply H.
Qed.

Lemma stays_create_company_collection users :
  allows_coll R "companies" -> stays R (_create_company_collection users).
Proof.
  intros H. unfold _create_company_collection. stays_walk;
    first [apply stays_delete_existing | apply stays_create_company_docs
          | apply stays_write_new]; intros; apply H.
Qed.

Lemma stays_create_projects_collection companies :
  allows_coll R "projects" -> stays R (_create_projects_collection companies).
Proof.
  intros H. unfold _create_projects_collection. stays_walk;
    first [apply stays_delete_existing | apply stays_write_new]; intros; apply H.
Qed.

Lemma stays_create_trending_collection companies :
  allows_coll R "trending" -> stays R (_create_trending_collection companies).
Proof.
  intros H. unfold _create_trending_collection. stays_walk;
    first [apply stays_delete_existing | apply stays_write_new]; intros; apply H.
Qed.

Lemma stays_create_renewals_collection ups :
  allows_coll R "renewals" -> stays R (_create_renewals_collection ups).
Proof.
  intros H. unfold _create_renewals_collection. stays_walk;
    first [apply stays_delete_existing | apply stays_write_new]; intros; apply H.
Qed.

Lemma stays_clear_bigquery_tables : allows_tables R -> stays R _clear_bigquery_tables.
Proof.
  intros H. unfold _clear_bigquery_tables. stays_walk.
  apply stays_delete_all_rows. intros; apply H.
Qed.

Lemma stays_write_events kind t rows : allows_tables R -> stays R (write_events kind t rows).
Proof.
  intros H. unfold write_events. stays_walk.
  apply stays_write_rows_to_table. intros; apply H.
Qed.

Lemma stays_update_company_docs ups :
  allows_coll R "companies" ->
  stays R (_update_company_docs_with_purchases_and_provisions ups).
Proof.
  intros H. unfold _update_company_docs_with_purchases_and_provisions, first_total.
  stays_walk; first [apply stays_index | idtac].
  apply stays_update_document_by_field; [done|]. intros; apply H.
Qed.

End ServiceStays.


Import FirestoreService.

Lemma same_stores_bookkeeping : Bookkeeping same_stores.
Proof.
  split.
  - by intros w.
  - intros w1 w2 w3 (?&?&?&?) (?&?&?&?). unfold same_stores. split_and!; congruence.
  - by intros f w.
  - by intros f w.
  - by intros f w.
  - by intros f w.
Qed.
#[global] Existing Instance same_stores_bookkeeping.

Lemma same_stores_coll w w' name : same_stores w w' -> coll w' name = coll w name.
Proof. intros (H & _). unfold coll. by rewrite H. Qed.

Lemma coll_coll_step name f w : coll (coll_step name f w) name = f (coll w name).
Proof. unfold coll at 1. simpl. by rewrite lookup_insert_eq. Qed.

Lemma coll_coll_step_ne name name' f w :
  name <> name' -> coll (coll_step name f w) name' = coll w name'.
Proof. intros H. unfold coll. simpl. by rewrite lookup_insert_ne. Qed.

(** What holds of every run holds together with what holds of this one. *)
Lemma wp_stays {S A} (R : S -> S -> Prop) (c : M S A) (Q : res A -> S -> Prop) s :
  stays R c -> wp c Q s -> wp c (fun r s' => Q r s' /\ R s s') s.
Proof. intros HR HQ. specialize (HR s). unfold wp in *. done. Qed.

(** *** Batches on a collection *)

Lemma lookup_removed ks (m : collection) k :
  removed ks m !! k = if decide (k ∈ ks) then None else m !! k.
Proof.
  unfold removed. induction ks as [|k' ks IH]; cbn [foldr].
  - case_decide as H; [by inversion H|reflexivity].
  - destruct (decide (k' = k)) as [->|Hne].
    + rewrite lookup_delete_eq. by rewrite decide_True by set_solver.
    + rewrite lookup_delete_ne by done. rewrite IH.
      repeat case_decide; set_solver.
Qed.

Lemma removed_app ks1 ks2 (m : collection) :
  removed ks2 (removed ks1 m) = removed (ks1 ++ ks2) m.
Proof.
  apply map_eq. intros k. rewrite !lookup_removed.
  repeat case_decide; set_solver.
Qed.

Lemma removed_all (m : collection) : removed (map_to_list m).*1 m = ∅.
Proof.
  apply map_eq. intros k. rewrite lookup_removed, lookup_empty.
  case_decide as H; [done|].
  destruct (m !! k) as [d|] eqn:E; [|done].
  exfalso. apply H. apply list_elem_of_fmap. exists (k, d).
  split; [done|]. by apply elem_of_map_to_list.
Qed.

Lemma removed_subseteq ks (m : collection) : removed ks m ⊆ m.
Proof.
  apply map_subseteq_spec. intros k d. rewrite lookup_removed.
  by case_decide.
Qed.

Lemma next_id_above (m : collection) k : is_Some (m !! k) -> (k < next_id m)%positive.
Proof.
  unfold next_id. revert k.
  apply (map_fold_weak_ind (fun r (m : collection) =>
           forall k, is_Some (m !! k) -> (k < r)%positive)).
  - intros k [d Hd]. by rewrite lookup_empty in Hd.
  - intros i d m' r Hi IH k [d' Hk].
    destruct (decide (i = k)) as [->|Hne].
    + lia.
    + rewrite lookup_insert_ne in Hk by done.
      specialize (IH k (ex_intro _ d' Hk)). lia.
Qed.

Lemma next_id_fresh (m : collection) : m !! next_id m = None.
Proof.
  destruct (m !! next_id m) as [d|] eqn:E; [|done].
  pose proof (next_id_above m (next_id m) (ex_intro _ d E)). lia.
Qed.

Lemma written_size docs (m : collection) : size (written docs m) = (size m + length docs)%nat.
Proof.
  unfold written. revert m. induction docs as [|d docs IH]; intros m; simpl; [lia|].
  rewrite IH, map_size_insert_None by apply next_id_fresh. lia.
Qed.

Lemma written_subseteq docs (m : collection) : m ⊆ written docs m.
Proof.
  unfold written. revert m. induction docs as [|d docs IH]; intros m; simpl; [done|].
  etrans; [|apply IH]. apply insert_subseteq, next_id_fresh.
Qed.

(** The documents of a collection after a write are the old ones and the
    written ones, each under an identifier of its own. *)
Lemma written_values docs (m : collection) :
  (map_to_list (written docs m)).*2 ≡ₚ (map_to_list m).*2 ++ docs.
Proof.
  unfold written. revert m. induction docs as [|d docs IH]; intros m; simpl.
  - by rewrite app_nil_r.
  - rewrite IH. rewrite map_to_list_insert by apply next_id_fresh.
    simpl. by rewrite Permutation_middle.
Qed.


(** The loop rule for a body that may raise *)
Lemma wp_for_raise {S A B} (I : list A -> B -> S -> Prop) (E : exn -> S -> Prop)
    (body : A -> B -> M S B) xs :
  forall pre acc s,
  I pre acc s ->
  (forall pre' x b s', pre' ++ [x] `prefix_of` pre ++ xs -> I pre' b s' ->
     wp (body x b) (fun r s'' => match r with
                                 | Ok b' => I (pre' ++ [x]) b' s''
                                 | Raise e => E e s''
                                 end) s') ->
  wp (for_ xs body acc) (fun r s' => match r with
                                     | Ok b => I (pre ++ xs) b s'
                                     | Raise e => E e s'
                                     end) s.
Proof.
  induction xs as [|x xs IH]; intros pre acc s HI Hbody; simpl.
  - rewrite app_nil_r. by apply wp_ret.
  - apply wp_bind. eapply wp_mono.
    + apply (Hbody pre x acc s); [|done]. exists xs. by rewrite <- app_assoc.
    + intros [b|e] s' Hb; [|done].
      replace (pre ++ x :: xs) with ((pre ++ [x]) ++ xs) by by rewrite <- app_assoc.
      apply IH; [done|].
      intros pre' y b' s'' Hpre. apply Hbody. by rewrite <- app_assoc in Hpre.
Qed.

Import FirestoreService.

Lemma wp_rpc (Q : res unit -> World -> Prop) w :
  (forall w', same_stores w w' -> calls w' = S (calls w) ->
     match plan w (calls w) with
     | Raises msg => Q (Raise (ClientError msg)) w'
     | _ => Q (Ok tt) w'
     end) ->
  wp rpc Q w.
Proof.
  intros HQ. unfold rpc. apply wp_bind. unfold wp, client_call. cbn [fst snd].
  specialize (HQ (set_calls S w) ltac:(done) ltac:(done)).
  destruct (plan w (calls w)); by apply HQ.
Qed.

Lemma wp_bind_if_returns {S A B} (c : M S A) (k : A -> M S B) (Q : B -> S -> Prop) s :
  wp c (if_returns (fun a s' => wp (k a) (if_returns Q) s')) s ->
  wp (bind c k) (if_returns Q) s.
Proof.
  intros H. apply wp_bind. eapply wp_mono; [exact H|]. by intros [a|e] s'.
Qed.

Lemma wp_for_if_returns {S A B} (I : list A -> B -> S -> Prop)
    (body : A -> B -> M S B) xs pre acc s :
  I pre acc s ->
  (forall pre' x b s', pre' ++ [x] `prefix_of` pre ++ xs -> I pre' b s' ->
     wp (body x b) (if_returns (I (pre' ++ [x]))) s') ->
  wp (for_ xs body acc) (if_returns (I (pre ++ xs))) s.
Proof.
  intros HI Hbody.
  apply (wp_for_raise I (fun _ _ => True)); [done|].
  intros pre' x b s' Hpre HI'. eapply wp_mono; [by apply Hbody|].
  by intros [b'|e] s''.
Qed.

(** A handler that logs and raises again leaves nothing to show of the
    runs that return. *)
Lemma wp_reraise {S A} (c : M S unit) (e : exn) (Q : A -> S -> Prop) s :
  wp (bind c (fun _ => raise e)) (if_returns Q) s.
Proof. unfold wp, bind, raise. by destruct (c s) as [[[]|e'] s']. Qed.

Lemma wp_catch_reraise {S A} (c : M S A) (l : exn -> M S unit) (f : exn -> exn)
    (Q : A -> S -> Prop) s :
  wp c (if_returns Q) s ->
  wp (catch c (fun e => bind (l e) (fun _ => raise (f e)))) (if_returns Q) s.
Proof.
  intros H. apply wp_catch. eapply wp_mono; [exact H|].
  intros [a|e] s' HQ; [done|]. apply wp_reraise.
Qed.

(** A submitted batch either commits, and is gone from the collection, or
    fails and leaves the collection as it was. *)
Lemma wp_submit name refs cnt w :
  wp (submit name refs cnt)
     (returns (fun '(fut, cnt') w' =>
        match fut with
        | Ok _ => coll w' name = removed refs (coll w name) /\
                  cnt' = (cnt + length refs)%nat
        | Raise _ => coll w' name = coll w name /\ cnt' = cnt
        end)) w.
Proof.
  unfold wp, submit, delete_batch, commit_deletes, rpc, client_call, bind,
    update_coll, modify, ret, raise.
  destruct refs as [|k refs]; cbn [fst snd returns].
  - split; [done|]. simpl. lia.
  - destruct (plan w (calls w)); cbn [fst snd returns]; try done.
    all: by rewrite coll_coll_step.
Qed.

Lemma wp_results name (futs : list Future) w :
  wp (for_ futs (fun future _ =>
        catch (bind (result future) (fun _ => ret tt))
              (fun e => bind (logger_error ("Error in batch deletion: " +:+ str e) None)
                             (fun _ => raise e))) tt)
     (if_returns (fun _ w' => Forall resolved futs /\ coll w' name = coll w name)) w.
Proof.
  apply (wp_for_if_returns
           (fun pre _ w' => Forall resolved pre /\ coll w' name = coll w name)
           _ _ []); [done|].
  intros pre' fut [] w' _ [Hres Hc].
  apply (wp_catch_reraise _ (fun e => logger_error _ None) (fun e => e)).
  unfold result. destruct fut as [n|e]; [|done].
  apply wp_bind_if_returns, wp_lift_res. apply wp_ret. split; [|done].
  apply Forall_app. split; [done|]. by constructor.
Qed.

Lemma wp_rpc_if_returns (Q : unit -> World -> Prop) w :
  (forall w', same_stores w w' -> Q tt w') -> wp rpc (if_returns Q) w.
Proof.
  intros HQ. apply wp_rpc. intros w' Hs _.
  destruct (plan w (calls w)); try done; by apply HQ.
Qed.

(** When [delete_all_documents] returns, the streamed documents are gone
    and counted. *)
Lemma delete_all_documents_returns name bs mw w :
  wp (delete_all_documents name bs mw)
     (if_returns (fun n w' =>
        coll w' name = removed (streamed bs (coll w name)) (coll w name) /\
        n = length (streamed bs (coll w name)))) w.
Proof.
  unfold delete_all_documents.
  apply (wp_catch_reraise _ (fun e => logger_error _ (Some (str e)))
           (fun e => ExternalServiceError _)).
  apply wp_bind_if_returns.
  destruct (mw =? 0)%nat; [done|]. apply wp_ret. unfold if_returns at 1.
  apply wp_bind_if_returns. unfold stream_refs.
  apply wp_bind_if_returns, wp_rpc_if_returns. intros w1 Hs1.
  assert (Hc1 := same_stores_coll _ _ name Hs1).
  apply wp_bind_if_returns, wp_get. unfold if_returns at 1.
  apply wp_ret. unfold if_returns at 1. rewrite Hc1. fold (streamed bs (coll w name)).
  set (m0 := coll w name). set (ks := streamed bs m0).
  apply wp_bind_if_returns. eapply wp_mono.
  { apply (wp_for_if_returns (fun pre '(cur, futs, cnt) w' =>
       Forall resolved futs ->
       exists gone, pre = gone ++ cur /\ coll w' name = removed gone m0 /\
                    cnt = length gone) _ _ []).
    - intros _. exists []. by rewrite Hc1.
    - intros pre' doc [[cur futs] cnt] w2 _ HI.
      destruct (bs <=? length (cur ++ [doc]))%nat.
      2:{ apply wp_ret. intros Hres. destruct (HI Hres) as (gone & -> & Hg & ->).
          exists gone. by rewrite <- app_assoc. }
      apply wp_bind_if_returns. eapply wp_mono; [apply wp_submit|].
      intros [[fut cnt']|e] w3; [|done]. unfold returns at 1, if_returns at 1.
      intros Hfut.
      assert (Hnext : Forall resolved (futs ++ [fut]) ->
        exists gone, (pre' ++ [doc]) = gone ++ [] /\ coll w3 name = removed gone m0 /\
                     cnt' = length gone).
      { intros Hres. apply Forall_app in Hres as [Hres Hf].
        apply Forall_inv in Hf. destruct fut as [n|e]; [|by simpl in Hf].
        destruct (HI Hres) as (gone & -> & Hg & ->). destruct Hfut as [Hc ->].
        exists (gone ++ (cur ++ [doc])). rewrite app_nil_r, <- app_assoc.
        split_and!; [done| |rewrite !length_app; simpl; lia].
        by rewrite Hc, Hg, removed_app. }
      destruct (mw * 2 <=? length (futs ++ [fut]))%nat; [|by apply wp_ret].
      destruct (futs ++ [fut]) as [|f0 futs'] eqn:Ef; [done|].
      apply wp_bind_if_returns. unfold result. destruct f0 as [n0|e0]; [|done].
      apply wp_lift_res. unfold if_returns at 1. apply wp_ret.
      intros Hres. apply Hnext. by constructor. }
  intros [[[cur futs] cnt]|e] w2; [|done]. unfold if_returns at 1. cbn [app].
  intros HI.
  apply wp_bind_if_returns.
  eapply (wp_mono _ (if_returns (fun '(futs', cnt') w3 =>
         Forall resolved futs' ->
         coll w3 name = removed ks m0 /\ cnt' = length ks))).
  { destruct cur as [|k cur].
    - apply wp_ret. intros Hres. destruct (HI Hres) as (gone & Hk & Hg & ->).
      rewrite app_nil_r in Hk. by subst gone.
    - apply wp_bind_if_returns. eapply wp_mono; [apply wp_submit|].
      intros [[fut cnt']|e] w3; [|done]. unfold returns at 1, if_returns at 1.
      intros Hfut. apply wp_ret. intros Hres.
      apply Forall_app in Hres as [Hres Hf].
      apply Forall_inv in Hf. destruct fut as [n|e]; [|by simpl in Hf].
      destruct (HI Hres) as (gone & Hk & Hg & ->). destruct Hfut as [Hc ->].
      rewrite Hk, !length_app. split; [|simpl; lia].
      by rewrite Hc, Hg, removed_app. }
  intros [[futs' cnt']|e] w3; [|done]. unfold if_returns at 1. intros Hfin.
  apply wp_bind_if_returns. eapply wp_mono; [apply (wp_results name)|].
  intros [[]|e] w4; [|done]. unfold if_returns at 1. intros [Hres Hc4].
  apply wp_ret. unfold if_returns. rewrite Hc4. by apply Hfin.
Qed.


Import FirestoreService.

Lemma batch_write_returns name docs w :
  wp (batch_write name docs)
     (if_returns (fun _ w' => coll w' name = written docs (coll w name))) w.
Proof.
  unfold batch_write. destruct docs as [|d docs]; [done|].
  apply (wp_catch_reraise _ (fun e => logger_error _ (Some (str e)))
           (fun e => ExternalServiceError _)).
  unfold commit_sets. apply wp_bind_if_returns, wp_rpc_if_returns. intros w1 Hs1.
  unfold update_coll. apply wp_modify. unfold if_returns.
  by rewrite coll_coll_step, (same_stores_coll _ _ name Hs1).
Qed.

Lemma filter_none {A} (P : A -> Prop) `{!forall x, Decision (P x)} (l : list A) :
  (forall x, x ∈ l -> ~ P x) -> filter P l = [].
Proof.
  induction l as [|x l IH]; intros Hno; [done|].
  rewrite filter_cons_False by (apply Hno; left).
  apply IH. intros y Hy. apply Hno. by right.
Qed.

Lemma first_match_Some field v m k d :
  first_match field v m = Some (k, d) -> m !! k = Some d /\ field_is field v d = true.
Proof.
  unfold first_match. intros H. apply head_Some_elem_of in H.
  apply list_elem_of_filter in H as [Hf H]. by apply elem_of_map_to_list in H.
Qed.

Lemma first_match_None field v m :
  first_match field v m = None <->
  forall k d, m !! k = Some d -> field_is field v d = false.
Proof.
  unfold first_match. rewrite head_None. split.
  - intros H k d Hk. apply elem_of_map_to_list in Hk.
    destruct (field_is field v d) eqn:E; [|done].
    assert (Hin : (k, d) ∈ filter (fun kd => field_is field v kd.2 = true) (map_to_list m)).
    { by apply list_elem_of_filter. }
    rewrite H in Hin. by inversion Hin.
  - intros H. apply filter_none. intros [k d] Hkd.
    apply elem_of_map_to_list in Hkd. simpl. by rewrite (H k d Hkd).
Qed.


Import FirestoreService.

Lemma wp_rpc_exact (Q : res unit -> World -> Prop) w :
  match plan w (calls w) with
  | Raises msg => Q (Raise (ClientError msg)) (set_calls S w)
  | _ => Q (Ok tt) (set_calls S w)
  end ->
  wp rpc Q w.
Proof.
  intros HQ. unfold rpc. apply wp_bind. unfold wp, client_call. cbn [fst snd].
  by destruct (plan w (calls w)).
Qed.

Lemma coll_set_calls f w name : coll (set_calls f w) name = coll w name.
Proof. done. Qed.

(** [update_document_by_field] updates the first match and logs nothing,
    or raises and changes nothing. *)
Lemma update_document_by_field_spec name field v fields w :
  wp (update_document_by_field name field v fields)
     (fun r w' =>
        match r with
        | Ok _ => exists k d, first_match field v (coll w name) = Some (k, d) /\
                              coll w' name = <[k := fields ∪ d]> (coll w name) /\
                              log w' = log w
        | Raise e => coll w' name = coll w name /\ exists msg, e = ExternalServiceError msg
        end) w.
Proof.
  unfold update_document_by_field. apply wp_catch.
  eapply (wp_mono _ (fun r w' =>
     match r with
     | Ok _ => exists k d, first_match field v (coll w name) = Some (k, d) /\
                           coll w' name = <[k := fields ∪ d]> (coll w name) /\
                           log w' = log w
     | Raise e => coll w' name = coll w name
     end)).
  2:{ intros [[]|e] w' H; [done|].
      unfold wp, bind, logger_error, modify, raise. cbn [fst snd]. eauto. }
  unfold stream_where. apply wp_bind. apply wp_bind. apply wp_rpc_exact.
  destruct (plan w (calls w)) eqn:Ep; [|done|].
  all: apply wp_bind, wp_get, wp_ret.
  all: rewrite coll_set_calls.
  all: pose proof (first_match_Some field v (coll w name)) as Hfm.
  all: unfold first_match in *.
  all: destruct (filter _ (map_to_list (coll w name))) as [|[k d] rest]; cbn [take head].
  all: try by unfold wp, bind, logger_warning, modify, raise.
  all: destruct (Hfm k d eq_refl) as [Hk Hf].
  all: unfold reference_update; apply wp_bind, wp_rpc_exact.
  all: destruct (plan (set_calls S w) (calls (set_calls S w))); [|done|].
  all: apply wp_modify; exists k, d; split; [done|].
  all: rewrite coll_coll_step; unfold updated.
  all: rewrite !coll_set_calls; cbn [fst]; by rewrite Hk.
Qed.


Import FirestoreService.

Lemma log_grows_bookkeeping : Bookkeeping log_grows.
Proof.
  split; unfold log_grows.
  - by intros w.
  - intros w1 w2 w3 H12 H23. by etrans.
  - by intros f w.
  - by intros f w.
  - by intros f w.
  - intros e w. simpl. by apply prefix_app_r.
Qed.
#[global] Existing Instance log_grows_bookkeeping.

Lemma log_grows_coll name : allows_coll log_grows name.
Proof. intros f w. by unfold log_grows. Qed.

Lemma log_grows_tables : allows_tables log_grows.
Proof. intros f w. by unfold log_grows. Qed.

Lemma first_total_update {S} (u : CompanyUpdate) p v (s : S) :
  update_with u p v ->
  first_total u.2 "purchased" s = (Ok p, s) /\
  first_total u.2 "provisioned" s = (Ok v, s).
Proof.
  unfold update_with, first_total. intros ->.
  rewrite lookup_insert_eq, lookup_insert_ne by done.
  by rewrite lookup_singleton_eq.
Qed.

(** The patch loop keeps what each of its iterations keeps; it returns
    whatever the store does. *)
Lemma patch_loop (P : CompanyUpdate -> Z -> Z -> Prop)
    (I : list CompanyUpdate -> World -> Prop) ups w :
  Forall (fun u => exists p v, update_with u p v /\ P u p v) ups ->
  I [] w ->
  (forall pre u p v w1 w2,
     pre ++ [u] `prefix_of` ups -> P u p v ->
     I pre w1 -> patch_step u.1 p v w1 w2 -> I (pre ++ [u]) w2) ->
  wp (_update_company_docs_with_purchases_and_provisions ups)
     (returns (fun _ w' => I ups w')) w.
Proof.
  intros Hwf H0 Hstep. unfold _update_company_docs_with_purchases_and_provisions.
  apply wp_bind_returns. eapply wp_mono.
  { apply (wp_for (fun pre _ w' => I pre w') _ _ []); [done|].
    intros pre u cnt w1 Hpre HI. cbn [app] in Hpre.
    assert (Hu : u ∈ ups) by by eapply prefix_snoc_elem.
    rewrite Forall_forall in Hwf. destruct (Hwf u Hu) as (p & v & Huv & HP).
    destruct (first_total_update u p v w1 Huv) as [Hp Hv].
    apply wp_bind_returns. eapply wp_intro; [exact Hp|]. unfold returns at 1.
    apply wp_bind_returns. eapply wp_intro; [exact Hv|]. unfold returns at 1.
    apply wp_catch. apply wp_bind.
    eapply wp_mono.
    { apply (wp_stays log_grows).
      - apply stays_update_document_by_field; [apply _|]. intros. apply log_grows_coll.
      - apply update_document_by_field_spec. }
    intros [[]|e] w2 [Hspec Hlog].
    - apply wp_ret. unfold returns. destruct Hspec as (k & d & Hfm & Hc & Hl).
      apply (Hstep pre u p v w1 w2); [done..|].
      split; [done|]. left. by exists k, d.
    - apply wp_bind, wp_modify, wp_ret. unfold returns.
      destruct Hspec as [Hc _].
      apply (Hstep pre u p v w1); [done..|].
      split.
      + unfold log_grows in *. simpl. by apply prefix_app_r.
      + right. split; [done|]. exists e. simpl.
        apply elem_of_app. right. by apply list_elem_of_singleton. }
  by intros [cnt|e] w'.
Qed.


Lemma totals_patch_bought p v (d : document) :
  (totals_patch p v ∪ d) !! "boxes_bought" = Some (VInt p).
Proof. apply lookup_union_Some_l. unfold totals_patch. by rewrite lookup_insert_eq. Qed.

Lemma totals_patch_prov p v (d : document) :
  (totals_patch p v ∪ d) !! "boxes_prov" = Some (VInt v).
Proof.
  apply lookup_union_Some_l. unfold totals_patch.
  rewrite lookup_insert_ne by done. by rewrite lookup_singleton_eq.
Qed.

Lemma totals_patch_other p v (d : document) field :
  field <> "boxes_bought" -> field <> "boxes_prov" ->
  (totals_patch p v ∪ d) !! field = d !! field.
Proof.
  intros H1 H2. apply lookup_union_r. unfold totals_patch.
  rewrite lookup_insert_ne by done. by rewrite lookup_singleton_ne.
Qed.

Lemma generated_events_have_quantity names streams :
  Forall2 (fun n st => company_stream n st) names streams ->
  Forall has_quantity (concat streams).
Proof.
  induction 1 as [|n st names streams (_ & Hall & _) _ IH]; simpl; [done|].
  apply Forall_app. split; [|done].
  eapply Forall_impl; [exact Hall|]. intros e. apply event_of_has_quantity.
Qed.

(** C9. For every list of companies and every outcome of the draws, the
    synthesizer returns events whose provisioned total is, per company, at
    most the purchased total (the first provisioning is drawn from
    [1, initial_purchase], each later one from [purchased // 2, purchased]);
    the aggregation turns them into entries whose provisioned total is at
    most the purchased one; and, from any state of the stores, the patch
    stage returns and every company document that it changed has
    [boxes_prov <= boxes_bought]. *)
Theorem provisioned_at_most_purchased (companies : list Company) (w : World) :
  exists evs ups w1,
    lift_src (_generate_company_events companies) w = (Ok evs, w1) /\
    (forall c, total_provisioned c evs <= total_purchased c evs) /\
    _generate_company_updates evs w1 = (Ok ups, w1) /\
    (forall u, u ∈ ups ->
       update_with u (total_purchased u.1 evs) (total_provisioned u.1 evs)) /\
    forall w2, exists w3,
      _update_company_docs_with_purchases_and_provisions ups w2 = (Ok tt, w3) /\
      forall k d', coll w3 "companies" !! k = Some d' ->
        coll w2 "companies" !! k = Some d' \/
        exists p v, d' !! "boxes_bought" = Some (VInt p) /\
                    d' !! "boxes_prov" = Some (VInt v) /\ v <= p.
Proof.
  destruct (wp_returns_inv _ _ _
              (generate_company_events_streams companies (src w)))
    as (evs & s1 & Hgen & streams & -> & Hstreams).
  assert (Hst : Forall2 (fun n st => company_stream n st)
                        (c_name <$> companies) streams).
  { by apply Forall2_fmap_l. }
  assert (Hle : forall c, total_provisioned c (concat streams)
                          <= total_purchased c (concat streams)).
  { intros c. by eapply streams_totals. }
  destruct (wp_returns_inv _ _ _
              (generate_company_updates_spec (concat streams)
                 (set_src (fun _ => s1) w)
                 (generated_events_have_quantity _ _ Hst)))
    as (ups & w1' & Hups & -> & order & -> & Hnd & Horder).
  exists (concat streams), (update_for (concat streams) <$> order),
    (set_src (fun _ => s1) w).
  split_and!; [|done|done| |].
  - unfold lift_src. by rewrite Hgen.
  - intros u Hu. apply list_elem_of_fmap in Hu as (c & -> & _). done.
  - intros w2.
    pose proof (patch_loop
      (fun u p v => v <= p)
      (fun _ w' => forall k d', coll w' "companies" !! k = Some d' ->
         coll w2 "companies" !! k = Some d' \/
         exists p v, d' !! "boxes_bought" = Some (VInt p) /\
                     d' !! "boxes_prov" = Some (VInt v) /\ v <= p)
      (update_for (concat streams) <$> order) w2) as Hloop.
    apply wp_returns_inv in Hloop as ([] & w3 & Hrun & Hfin); [by eauto| | |].
    + apply Forall_fmap, Forall_forall. intros c _.
      exists (total_purchased c (concat streams)),
        (total_provisioned c (concat streams)). split; [done|apply Hle].
    + eauto.
    + intros pre u p v wa wb _ Hpv HI [_ [(k & d & Hfm & Hc & _)|[Hc _]]] k' d'.
      * rewrite Hc. destruct (decide (k = k')) as [->|Hne].
        -- rewrite lookup_insert_eq. intros [= <-]. right. exists p, v.
           by rewrite totals_patch_bought, totals_patch_prov.
        -- rewrite lookup_insert_ne by done. apply HI.
      * rewrite Hc. apply HI.
Qed.


Lemma field_is_name name (d : document) :
  FirestoreService.field_is "name" (VStr name) d = true -> d !! "name" = Some (VStr name).
Proof.
  unfold FirestoreService.field_is. destruct (d !! "name") as [[]|]; simpl; try done.
  intros H. apply String.eqb_eq in H. by subst.
Qed.

Lemma totals_patch_name p v (d : document) :
  (totals_patch p v ∪ d) !! "name" = d !! "name".
Proof. by apply totals_patch_other. Qed.


(** [v <- randint a b ;; k] and [c <- choice xs ;; k], forgetting the state *)
Tactic Notation "wp_pick" ident(x) ident(H) :=
  apply wp_bind_returns; apply wp_choice;
  [done | intros x ? H _; unfold returns at 1; cbn beta iota].

Lemma wp_index {S A} (xs : list A) i x (Q : res A -> S -> Prop) s :
  xs !! i = Some x -> Q (Ok x) s -> wp (index xs i) Q s.
Proof. unfold index. by intros ->. Qed.

Lemma call_events_for_groups user s :
  wp (call_events_for user)
     (returns (fun evs _ =>
        exists t freq groups,
          1 <= freq <= 10 /\
          length groups =
            Z.to_nat (int_ (inject_Z (int_ (Datetime.total_seconds (t - u_reg_date user)
                                            / 86400))
                            / inject_Z (11 - freq) * 10)) /\
          evs = concat groups /\ call_groups user groups)) s.
Proof.
  unfold call_events_for.
  wp_pick os Hos. wp_clock t. wp_rand freq Hfreq.
  wp_step. wp_step.
  wp_rand happy Hhappy. wp_rand ratey Hratey. wp_rand commenty Hcommenty.
  wp_rand chatty Hchatty.
  wp_step. eapply wp_mono.
  { apply (wp_for (fun pre '(evs, call_num) _ =>
       exists groups, length groups = length pre /\
                      evs = concat groups /\ call_groups user groups) _ _ []).
    - exists []. split_and!; [done|done|]. intros i g Hg. by rewrite lookup_nil in Hg.
    - intros pre' call_ [evs call_num] s1 Hpre (groups & Hlen & -> & Hgroups).
      apply range2_prefix in Hpre as [Hidx Hlt].
      wp_rand call_happy_score Hhs.
      wp_rand call_rating_score Hrs.
      apply wp_bind_returns.
      eapply (wp_mono _ (returns (fun cr _ =>
                match cr with Some r => 1 <= r <= 5 | None => True end))).
      { destruct (call_rating_score <=? ratey * 40); [|by wp_step].
        destruct (happy * 25 <=? call_happy_score).
        - wp_rand r Hr. wp_step. lia.
        - wp_rand r Hr. wp_step. lia. }
      intros [call_rating|e] s2; [|done]. unfold returns at 1 3. intros Hcr.
      wp_rand call_comment_score Hcs.
      apply wp_bind_returns.
      eapply (wp_mono _ (returns (fun cc _ =>
                match cc with
                | Some text => text ∈ cfg.good_comments ++ cfg.bad_comments
                | None => True
                end))).
      { destruct (Qle_bool _ _); [|by wp_step].
        destruct (truthy_int call_rating && (3 <=? default 0 call_rating)).
        - wp_pick c Hc. wp_step. set_solver.
        - wp_pick c Hc. wp_step. set_solver. }
      intros [call_comment|e] s3; [|done]. unfold returns at 1 3. intros Hcc.
      wp_rand length_draw Hld.
      wp_rand call_dialin_score Hds.
      wp_rand call_type_score Hts.
      apply wp_bind_returns.
      eapply (wp_mono _ (returns (fun _ _ => True))).
      { repeat (destruct (call_type_score <? _)); by eapply wp_index. }
      intros [call_type|e] s4; [|done]. unfold returns at 1 3. intros _.
      wp_rand call_size_score Hss.
      wp_step. wp_step.
      wp_rand jitter Hj.
      wp_clock t1.
      apply wp_bind_returns.
      eapply (wp_mono _ (returns (fun _ _ => True))).
      { destruct (_ <? _); [|by wp_step]. apply wp_now. by intros. }
      intros [event_date|e] s5; [|done]. unfold returns at 1 3. intros _.
      wp_clock t2. wp_step.
      set (sid := (t2 - Datetime.dt_1980_01_01_0100, call_)).
      set (c := mkUserEvent event_date call _ _ _ _ _ _ _ _ _ _ _ _).
      set (l := mkUserEvent (event_date - Datetime.minutes 1) load _ _ _ _ _ _ _ _ _ _ _ _).
      set (r := mkUserEvent event_date rating _ _ _ _ _ _ _ _ _ _ _ _).
      set (cm := mkUserEvent event_date comment _ _ _ _ _ _ _ _ _ _ _ _).
      set (d := mkUserEvent event_date dialin _ _ _ _ _ _ _ _ _ _ _ _).
      set (rs := if truthy_int call_rating then [r] else []).
      set (cs := if truthy_str call_comment then [cm] else []).
      set (ds := if truthy_int (if call_dialin_score <? 40
                                then Some (chatty * length_draw) else None)
                 then [d] else []).
      exists (groups ++ [c :: l :: rs ++ cs ++ ds]).
      split_and!.
      + rewrite !length_app. simpl. lia.
      + rewrite concat_app. simpl. rewrite app_nil_r. subst rs cs ds.
        destruct (truthy_int call_rating), (truthy_str call_comment),
          (truthy_int _); by rewrite <- ?app_assoc.
      + intros i g Hi. apply lookup_app_Some in Hi as [Hi|[Hge Hi]];
          [by apply Hgroups|].
        apply list_lookup_singleton_Some in Hi as [Hi <-].
        assert (Z.of_nat i = call_) as -> by lia.
        exists c, l, (rs ++ cs ++ ds), (t2 - Datetime.dt_1980_01_01_0100).
        assert (Hr : follows_call c r \/ truthy_int call_rating = false).
        { destruct call_rating as [rv|]; [|by right].
          left. split; [done|]. simpl. split; [done|]. by exists rv. }
        assert (Hcm : follows_call c cm \/ truthy_str call_comment = false).
        { destruct call_comment as [text|]; [|by right].
          left. split; [done|]. simpl. split; [done|]. by exists text. }
        assert (Hd : follows_call c d \/
                     truthy_int (if call_dialin_score <? 40
                                 then Some (chatty * length_draw) else None) = false).
        { destruct (call_dialin_score <? 40); [|by right].
          destruct (truthy_int (Some (chatty * length_draw))) eqn:E; [|by right].
          left. split; [done|]. simpl. split_and!; [done|done|].
          eexists. split; [done|]. simpl in E. by apply negb_true_iff, Z.eqb_neq in E. }
        split_and!; try done.
        * repeat apply Forall_app_2; subst rs cs ds.
          -- destruct Hr as [Hr|Hr]; [|rewrite Hr; apply Forall_nil_2].
             destruct (truthy_int call_rating); [by apply Forall_singleton|apply Forall_nil_2].
          -- destruct Hcm as [Hcm|Hcm]; [|rewrite Hcm; apply Forall_nil_2].
             destruct (truthy_str call_comment); [by apply Forall_singleton|apply Forall_nil_2].
          -- destruct Hd as [Hd|Hd]; [|rewrite Hd; apply Forall_nil_2].
             match goal with |- Forall _ (if ?b then _ else _) => destruct b end;
               [by apply Forall_singleton|apply Forall_nil_2].
        * subst rs cs ds.
          destruct (truthy_int call_rating), (truthy_str call_comment),
            (truthy_int _); cbn; repeat constructor.
        * subst rs cs ds.
          destruct (truthy_int call_rating), (truthy_str call_comment),
            (truthy_int _); cbn; by repeat constructor. }
  intros [[evs call_num]|e] s1; [|done]. unfold returns at 1. cbn [app].
  rewrite length_range. intros (groups & Hlen & -> & Hgroups).
  wp_step. by exists t, freq, groups.
Qed.


(** ** Rounding and truncation *)

Lemma round_div_bounds n d : 0 < d -> n / d <= round_div n d <= n / d + 1.
Proof.
  intros Hd. unfold round_div.
  repeat match goal with |- context [if ?b then _ else _] => destruct b end; lia.
Qed.

Lemma round_div_mono n1 n2 d : 0 < d -> n1 <= n2 -> round_div n1 d <= round_div n2 d.
Proof.
  intros Hd Hn.
  assert (Hf : n1 / d <= n2 / d) by by apply Z.div_le_mono.
  destruct (decide (n1 / d = n2 / d)) as [Heq|Hne].
  2:{ pose proof (round_div_bounds n1 d Hd). pose proof (round_div_bounds n2 d Hd). lia. }
  assert (Hm : n1 mod d <= n2 mod d).
  { rewrite !Z.mod_eq by lia. rewrite Heq. lia. }
  unfold round_div. rewrite Heq.
  repeat match goal with
         | |- context [?a <? ?b] => destruct (Z.ltb_spec a b)
         | |- context [Z.even ?a] => destruct (Z.even a)
         end; lia.
Qed.

Lemma round_div_0 d : 0 < d -> round_div 0 d = 0.
Proof.
  intros Hd. unfold round_div. rewrite Z.div_0_l, Z.mod_0_l by lia.
  destruct (Z.ltb_spec (2 * 0) d); [done|lia].
Qed.

(** [td * (i / m)] on exact fractions is the rounded quotient. *)
Lemma mul_f_fraction td i m :
  0 < m -> Datetime.mul_f td (inject_Z i / inject_Z m) = round_div (td * i) m.
Proof.
  intros Hm. destruct m as [|p|p]; [lia| |lia].
  unfold Datetime.mul_f, round_half_even. simpl.
  f_equal; lia.
Qed.

Lemma int_nonneg q : (0 <= q)%Q -> 0 <= int_ q.
Proof.
  intros Hq. unfold int_. apply Z.quot_pos; [|lia].
  unfold Qle in Hq. simpl in Hq. lia.
Qed.

Lemma Qdiv_nonneg a b : (0 <= a)%Q -> (0 < b)%Q -> (0 <= a / b)%Q.
Proof.
  intros Ha Hb. apply Qle_shift_div_l; [done|]. by rewrite Qmult_0_l.
Qed.

Lemma inject_Z_pos n : 0 < n -> (0 < inject_Z n)%Q.
Proof. intros Hn. unfold Qlt. simpl. lia. Qed.

Lemma inject_Z_nonneg n : 0 <= n -> (0 <= inject_Z n)%Q.
Proof. intros Hn. unfold Qle. simpl. lia. Qed.

Lemma total_seconds_nonneg td : 0 <= td -> (0 <= Datetime.total_seconds td)%Q.
Proof.
  intros Htd. unfold Datetime.total_seconds.
  apply Qdiv_nonneg; [by apply inject_Z_nonneg|by apply inject_Z_pos].
Qed.

(** ** The order of a company's timestamps *)

(** [v <- randint a b ;; k] and [t <- now ;; k], keeping what they do to
    the clock *)
Tactic Notation "wp_rand_w" ident(v) ident(H) ident(Hw) :=
  apply wp_bind_returns; apply wp_randint;
  [try lia | intros v ? H Hw; unfold returns at 1; cbn beta iota].

Tactic Notation "wp_clock_w" ident(t) ident(H) ident(Hw) :=
  apply wp_bind_returns; apply wp_now;
  intros t ? H Hw; unfold returns at 1; cbn beta iota.

Lemma timeline_snoc start evs e :
  timeline start (evs ++ [e]) = last ← timeline start evs; timeline_step last e.
Proof. unfold timeline. by rewrite foldl_app. Qed.

Lemma timeline_snoc_purchase start evs last t c q :
  timeline start evs = Some last -> last <= t ->
  timeline start (evs ++ [mkCompanyEvent t purchased c q None None None]) = Some t.
Proof.
  intros Ht Hle. rewrite timeline_snoc, Ht. simpl. unfold timeline_step. simpl.
  destruct (Z.leb_spec last t); [done|lia].
Qed.

Lemma timeline_snoc_provision start evs last d c sn bn :
  timeline start evs = Some last -> 2 <= d <= 14 ->
  timeline start (evs ++ [mkCompanyEvent (last + Datetime.days d) provisioned c
                                          None (Some 1) sn bn]) = Some last.
Proof.
  intros Ht Hd. rewrite timeline_snoc, Ht. simpl. unfold timeline_step. simpl.
  unfold Datetime.days, Datetime.us_per_day, Datetime.us_per_second.
  destruct (Z.leb_spec (last + 2 * (86400 * 1000000))
                       (last + d * (86400 * 1000000))); [|lia].
  destruct (Z.leb_spec (last + d * (86400 * 1000000))
                       (last + 14 * (86400 * 1000000))); [done|lia].
Qed.

Lemma build_company_events_timeline company_name reg_date s :
  reg_date <= wall s ->
  wp (_build_company_events company_name reg_date)
     (returns (fun evs _ => is_Some (timeline reg_date evs))) s.
Proof.
  intros Hreg. unfold _build_company_events.
  wp_rand_w initial_purchase Hip Hw1.
  wp_rand_w d Hd Hw2.
  wp_rand_w initial_prov Hiv Hw3.
  wp_step.
  eapply wp_mono.
  { apply (wp_for (fun _ evs s' =>
       timeline reg_date evs = Some reg_date /\ wall s' = wall s) _ _ []).
    - split; [|congruence]. by apply (timeline_snoc_purchase _ [] reg_date).
    - intros pre' x evs s0 _ [Ht Hw].
      wp_rand_w sn Hsn Hw4. wp_step. split; [|congruence].
      by apply timeline_snoc_provision. }
  intros [evs|e] s0; [|done]. unfold returns at 1. intros [Ht Hw0].
  wp_clock_w t Ht0 Hw5.
  wp_rand_w k Hk Hw6.
  wp_step.
  set (m := k * (int_ (inject_Z (int_ (Datetime.total_seconds (t - reg_date)
                                        / inject_Z 86400)) / inject_Z 30) + 1)).
  eapply wp_mono.
  { apply (wp_for (fun pre '(evs, _, lpd) s' =>
       timeline reg_date evs = Some lpd /\ reg_date <= wall s' /\
       (0 < m -> lpd <= reg_date
                        + round_div ((wall s' - reg_date) * Z.of_nat (length pre)) m))
       _ _ []).
    - split_and!; [done|lia|]. intros Hm. simpl.
      rewrite Z.mul_0_r, round_div_0 by done. lia.
    - intros pre' purchase [[evs' boxes] lpd] s3 Hpre (Ht' & Hw' & Hlpd).
      apply range2_prefix in Hpre as [Hge Hlt]. cbn [app] in *.
      assert (Hm : 0 < m) by lia. specialize (Hlpd Hm).
      wp_rand_w purchased_ Hpu Hw7.
      wp_step. wp_step.
      wp_clock_w t' Ht1 Hw8.
      rewrite mul_f_fraction by done.
      set (lpd' := reg_date + round_div ((t' - reg_date) * purchase) m).
      assert (Hmono : lpd <= lpd').
      { etrans; [exact Hlpd|]. unfold lpd'.
        apply Z.add_le_mono_l, round_div_mono; [done|]. nia. }
      wp_rand_w d' Hd' Hw9.
      apply wp_bind_returns; apply wp_randint.
      { apply Z.div_le_upper_bound; lia. }
      intros last_prov s7 Hlp Hw10. unfold returns at 1. cbn beta iota.
      wp_step.
      eapply wp_mono.
      { apply (wp_for (fun _ '(evs, _) s' =>
           timeline reg_date evs = Some lpd' /\ wall s' = t') _ _ []).
        - split; [|congruence]. by eapply timeline_snoc_purchase.
        - intros pre'' device [evs'' boxes''] s8 _ [Ht'' Hw''].
          wp_rand_w sn Hsn Hw11. wp_step. split; [|congruence].
          by apply timeline_snoc_provision. }
      intros [[evs'' boxes'']|e] s8; [|done]. unfold returns at 1.
      intros [Ht'' Hw''].
      wp_step. wp_step. split_and!; [done|lia|]. intros _.
      rewrite Hw'', length_app. unfold lpd'. simpl length.
      replace (Z.of_nat (length pre' + 1)) with purchase by lia. done. }
  intros [[[evs' boxes] lpd]|e] s3; [|done]. unfold returns at 1.
  intros (Ht' & _). wp_step. by eexists.
Qed.

(** ** Support tickets *)

Lemma ticket_events_for_spec user s :
  wp (ticket_events_for user)
     (returns (fun evs _ =>
        exists t troubley,
          wall s <= t /\ 0 <= troubley <= 3 /\
          let seconds := Datetime.total_seconds (t - u_reg_date user) in
          let tickets :=
            int_ (inject_Z (int_ (seconds / 86400)) / inject_Z (4 - troubley) / 2) in
          length evs = Z.to_nat tickets /\
          forall i e, evs !! i = Some e ->
            ue_type e = support_ticket /\ ue_user e = u_email user /\
            ue_timestamp e =
              u_reg_date user
              + Datetime.seconds (int_ (seconds / inject_Z tickets / (11 # 10))
                                  * Z.of_nat i))) s.
Proof.
  unfold ticket_events_for.
  wp_clock_w t Ht Hw. wp_rand troubley Htr.
  wp_step. wp_step.
  eapply wp_mono.
  { apply (wp_for (fun pre evs _ =>
       length evs = length pre /\
       forall i e, evs !! i = Some e ->
         ue_type e = support_ticket /\ ue_user e = u_email user /\
         ue_timestamp e =
           u_reg_date user
           + Datetime.seconds
               (int_ (Datetime.total_seconds (t - u_reg_date user)
                      / inject_Z (int_ (inject_Z (int_ (Datetime.total_seconds
                                                          (t - u_reg_date user) / 86400))
                                        / inject_Z (4 - troubley) / 2))
                      / (11 # 10))
                * Z.of_nat i)) _ _ []).
    - split; [done|]. intros i e Hi. by rewrite lookup_nil in Hi.
    - intros pre' ticket evs s1 Hpre [Hlen Hevs].
      apply range2_prefix in Hpre as [Hidx Hlt].
      wp_step. wp_step.
      wp_pick driver Hdr. wp_step.
      split; [rewrite !length_app; simpl; lia|].
      intros i e Hi. apply lookup_app_Some in Hi as [Hi|[Hge Hi]]; [by apply Hevs|].
      apply list_lookup_singleton_Some in Hi as [Hi <-].
      split_and!; [done|done|]. simpl. do 3 f_equal. lia. }
  intros [evs|e] s1; [|done]. unfold returns. cbn [app].
  rewrite length_range. intros [Hlen Hevs].
  exists t, troubley. cbv zeta. split_and!; [lia|lia|lia|done|done].
Qed.


(** ** The user generators *)

Lemma nondecreasing_steps (l : list Z) :
  (forall i a b, l !! i = Some a -> l !! S i = Some b -> a <= b) ->
  nondecreasing l = true.
Proof.
  induction l as [|a [|b l] IH]; intros H; [done..|].
  cbn [nondecreasing]. apply andb_true_intro. split.
  - apply Z.leb_le. by apply (H 0%nat).
  - apply IH. intros i x y Hx Hy. by apply (H (S i)).
Qed.

(** C10. The ticket and the call generator return for every list of users
    and every outcome of the draws: no division raises.  For one user, the
    divisor [4 - troubley] comes from a draw in [0, 3] and the divisor
    [11 - frequency] from a draw in [1, 10]; the divisions by the counts
    are in loops over [range(count)]; the number of ticket events is the
    ticket count and the number of call groups the call count, so that a
    count of zero, or below, gives no event. *)
Theorem event_generators_are_total (users : list User) (user : User) (s : Src) :
  (exists evs s', _generate_ticket_events users s = (Ok evs, s')) /\
  (exists evs s', _generate_call_events users s = (Ok evs, s')) /\
  (exists evs s' t troubley,
     ticket_events_for user s = (Ok evs, s') /\
     0 <= troubley <= 3 /\ 1 <= 4 - troubley /\
     let tickets :=
       int_ (inject_Z (int_ (Datetime.total_seconds (t - u_reg_date user) / 86400))
             / inject_Z (4 - troubley) / 2) in
     length evs = Z.to_nat tickets /\ (tickets <= 0 -> evs = [])) /\
  (exists evs s' t freq groups,
     call_events_for user s = (Ok evs, s') /\
     1 <= freq <= 10 /\ 1 <= 11 - freq /\
     let calls :=
       int_ (inject_Z (int_ (Datetime.total_seconds (t - u_reg_date user) / 86400))
             / inject_Z (11 - freq) * 10) in
     evs = concat groups /\ call_groups user groups /\
     length groups = Z.to_nat calls /\ (calls <= 0 -> evs = [])).
Proof.
  split_and!.
  - assert (H : wp (_generate_ticket_events users) (returns (fun _ _ => True)) s);
      [|apply wp_returns_inv in H as (evs & s' & Hrun & _); by eauto].
    unfold _generate_ticket_events.
    apply (wp_for (fun _ _ _ => True) _ _ []); [done|].
    intros pre' u evs s1 _ _. wp_step.
    eapply wp_mono; [apply ticket_events_for_spec|].
    intros [tev|e] s2; [|done]. intros _. wp_step. by wp_step.
  - assert (H : wp (_generate_call_events users) (returns (fun _ _ => True)) s);
      [|apply wp_returns_inv in H as (evs & s' & Hrun & _); by eauto].
    unfold _generate_call_events.
    apply (wp_for (fun _ _ _ => True) _ _ []); [done|].
    intros pre' u evs s1 _ _. wp_step.
    eapply wp_mono; [apply call_events_for_groups|].
    intros [cev|e] s2; [|done]. intros _. wp_step. by wp_step.
  - destruct (wp_returns_inv _ _ _ (ticket_events_for_spec user s))
      as (evs & s' & Hrun & t & troubley & _ & Htr & Hlen & _).
    exists evs, s', t, troubley. split_and!; [done|lia|lia|lia|].
    cbv zeta. split; [done|]. intros Hz.
    apply length_zero_iff_nil. cbv zeta in Hlen. lia.
  - destruct (wp_returns_inv _ _ _ (call_events_for_groups user s))
      as (evs & s' & Hrun & t & freq & groups & Hfr & Hlen & -> & Hgr).
    exists (concat groups), s', t, freq, groups.
    split_and!; [done|lia|lia|lia|].
    cbv zeta. split_and!; [done|done|done|]. intros Hz.
    assert (groups = []) as ->; [|done].
    apply length_zero_iff_nil. lia.
Qed.


Lemma elem_of_concat {A} (x : A) (ls : list (list A)) :
  x ∈ concat ls <-> exists i l, ls !! i = Some l /\ x ∈ l.
Proof.
  rewrite list_elem_of_In, in_concat. split.
  - intros (l & Hl & Hx). apply list_elem_of_In, list_elem_of_lookup in Hl as [i Hi].
    exists i, l. by rewrite list_elem_of_In.
  - intros (i & l & Hi & Hx). exists l. rewrite <- !list_elem_of_In.
    split; [by eapply list_elem_of_lookup_2|done].
Qed.

(** The calls of a user have pairwise different session identifiers. *)
Lemma call_groups_sessions user groups i j gi gj ci cj :
  call_groups user groups ->
  groups !! i = Some gi -> groups !! j = Some gj ->
  head gi = Some ci -> head gj = Some cj ->
  ue_session_id ci = ue_session_id cj -> i = j.
Proof.
  intros Hg Hi Hj Hci Hcj Hs.
  destruct (Hg i gi Hi) as (c1 & l1 & r1 & x1 & -> & _ & Hs1 & _).
  destruct (Hg j gj Hj) as (c2 & l2 & r2 & x2 & -> & _ & Hs2 & _).
  injection Hci as <-. injection Hcj as <-.
  rewrite Hs1, Hs2 in Hs. injection Hs as _ Hij. lia.
Qed.


(** C3, as stated, fails: the load of a call carries no session
    identifier.  Ann registered a day before the clock and every draw is
    [0]: one call, its load, a rating and a comment. *)
Lemma load_carries_no_session :
  ~ sub_events_carry_a_session Example.ann (Example.quiet 0).
Proof.
  unfold sub_events_carry_a_session. intros H.
  destruct (call_events_for Example.ann (Example.quiet 0)) as [[evs|e] s'] eqn:Hrun;
    vm_compute in Hrun; [|discriminate].
  specialize (H evs s' eq_refl).
  injection Hrun as <- <-.
  destruct (H (mkUserEvent 63849598940000000 load "ann@acme.test" "Acme"
                           None None None None None None None None None None))
    as (c & Hc & Hty & [sid Hsid] & Hs).
  - apply elem_of_cons. right. apply elem_of_cons. by left.
  - apply elem_of_cons. by left.
  - simpl in Hs. congruence.
Qed.


(** C2, as the code has it.  For a company whose registration is not in
    the future, the synthesizer returns, and in generation order every
    purchase is stamped no earlier than the purchase before it (the first
    one at the registration) and every provisioning 2 to 14 days after the
    purchase before it.  For a user whose registration is not in the
    future, the ticket generator returns and the timestamps of the
    registration and of the tickets, in generation order, never decrease.
    Nothing of the kind holds of the events of the calls. *)
Theorem timestamps_in_generation_order
    (company_name : string) (reg_date : Z) (user : User) (s : Src) :
  reg_date <= wall s ->
  u_reg_date user <= wall s ->
  (exists evs s',
     _build_company_events company_name reg_date s = (Ok evs, s') /\
     is_Some (timeline reg_date evs)) /\
  (exists evs s',
     ticket_events_for user s = (Ok evs, s') /\
     nondecreasing (u_reg_date user :: (ue_timestamp <$> evs)) = true).
Proof.
  intros Hreg Hureg. split.
  - by apply wp_returns_inv, build_company_events_timeline.
  - destruct (wp_returns_inv _ _ _ (ticket_events_for_spec user s))
      as (evs & s' & Hrun & t & troubley & Ht & Htr & Hlen & Hevs).
    exists evs, s'. split; [done|].
    cbv zeta in Hlen, Hevs.
    set (tickets := int_ (inject_Z (int_ (Datetime.total_seconds (t - u_reg_date user)
                                          / 86400)) / inject_Z (4 - troubley) / 2)) in *.
    set (step := int_ (Datetime.total_seconds (t - u_reg_date user)
                       / inject_Z tickets / (11 # 10))) in *.
    assert (Hstep : evs <> [] -> 0 <= step).
    { intros Hne. assert (0 < tickets).
      { destruct evs; [done|]. simpl in Hlen. lia. }
      apply int_nonneg. apply Qdiv_nonneg; [|done].
      apply Qdiv_nonneg; [|by apply inject_Z_pos].
      apply total_seconds_nonneg. lia. }
    apply nondecreasing_steps. intros i a b Ha Hb.
    assert (Hne : evs <> []) by (intros ->; by destruct i).
    specialize (Hstep Hne).
    rewrite lookup_cons in Hb. rewrite list_lookup_fmap in Hb.
    destruct (evs !! i) as [eb|] eqn:Eb; [|done]. injection Hb as <-.
    destruct (Hevs i eb Eb) as (_ & _ & ->).
    destruct i as [|i]; simpl in Ha.
    + injection Ha as <-. unfold Datetime.seconds, Datetime.us_per_second. nia.
    + rewrite list_lookup_fmap in Ha.
      destruct (evs !! i) as [ea|] eqn:Ea; [|done]. injection Ha as <-.
      destruct (Hevs i ea Ea) as (_ & _ & ->).
      unfold Datetime.seconds, Datetime.us_per_second. nia.
Qed.

Lemma timestamps_in_generation_order_witness :
  Example.yesterday <= wall (Example.quiet 1) /\
  u_reg_date Example.bob <= wall (Example.quiet 1) /\
  (exists evs s',
     _build_company_events "Acme" Example.yesterday (Example.quiet 1) = (Ok evs, s') /\
     is_Some (timeline Example.yesterday evs)) /\
  (exists evs s',
     ticket_events_for Example.bob (Example.quiet 1) = (Ok evs, s') /\
     nondecreasing (u_reg_date Example.bob :: (ue_timestamp <$> evs)) = true).
Proof.
  assert (H1 : Example.yesterday <= wall (Example.quiet 1)) by (vm_compute; discriminate).
  assert (H2 : u_reg_date Example.bob <= wall (Example.quiet 1))
    by (vm_compute; discriminate).
  split; [exact H1|]. split; [exact H2|].
  exact (timestamps_in_generation_order "Acme" Example.yesterday Example.bob
           (Example.quiet 1) H1 H2).
Defined.

(** C2, as stated, fails: for a company registered a day before the clock,
    with every draw [1], the first provisioning is stamped three days after
    the registration and the second purchase half a day after it. *)
Lemma company_timestamps_decrease :
  ~ company_timestamps_never_decrease "Acme" Example.yesterday (Example.quiet 1).
Proof.
  unfold company_timestamps_never_decrease. intros H.
  destruct (_build_company_events "Acme" Example.yesterday (Example.quiet 1))
    as [[evs|e] s'] eqn:Hrun; vm_compute in Hrun; [|discriminate].
  specialize (H evs s' eq_refl).
  injection Hrun as <- <-. vm_compute in H. discriminate.
Qed.


(** ** The table ingest *)

Import BigQueryService.

Lemma attempt_fine t batch k total w :
  plan w (calls w) = Fine ->
  exists w', insert_attempt t batch k total w
             = (Ok (Break (total + length batch)%nat), w') /\
             after_calls 1 w w' [] (appended t batch (tables w)).
Proof.
  intros Hp. cbv beta delta [insert_attempt catch bind insert_rows_json client_call].
  rewrite Hp. eexists. split; [reflexivity|].
  unfold after_calls. simpl. rewrite app_nil_r. split_and!; [lia|done..].
Qed.

Lemma attempt_retry t batch k total w :
  transient (plan w (calls w)) = true -> 0 <= k < 2 ->
  exists w', insert_attempt t batch k total w = (Ok (Continue total), w') /\
             after_calls 1 w w' [2 ^ k] (tables w).
Proof.
  intros Htr Hk. cbv beta delta [insert_attempt catch bind insert_rows_json client_call].
  unfold transient, error_str in Htr.
  destruct (plan w (calls w)) as [|msg|errors]; [done| |].
  - cbn [raise str]. rewrite Htr.
    destruct (Z.ltb_spec k (max_retries - 1)); [|unfold max_retries in *; lia].
    eexists. split; [reflexivity|]. unfold after_calls, base_delay. simpl.
    rewrite Z.mul_1_l. split_and!; [lia|done..].
  - cbn [ret logger_error modify raise str]. rewrite Htr.
    destruct (Z.ltb_spec k (max_retries - 1)); [|unfold max_retries in *; lia].
    eexists. split; [reflexivity|]. unfold after_calls, base_delay. simpl.
    rewrite Z.mul_1_l. split_and!; [lia|done..].
Qed.

Lemma attempt_raise t batch k total w :
  fatal (plan w (calls w)) = true \/
  (transient (plan w (calls w)) = true /\ 2 <= k) ->
  exists e w', insert_attempt t batch k total w = (Raise e, w') /\
               after_calls 1 w w' [] (tables w).
Proof.
  intros Hcase. cbv beta delta [insert_attempt catch bind insert_rows_json client_call].
  unfold fatal, transient, error_str in Hcase.
  assert (Hk : forall (b : bool), b && (k <? max_retries - 1) = true ->
                 b = true /\ k < 2).
  { intros b Hb. apply andb_prop in Hb as [-> Hb]. apply Z.ltb_lt in Hb.
    unfold max_retries in Hb. split; [done|lia]. }
  destruct (plan w (calls w)) as [|msg|errors].
  - destruct Hcase as [?|[? _]]; done.
  - cbn [raise str].
    destruct (contains "not found" (lower msg) && (k <? max_retries - 1)) eqn:E.
    + apply Hk in E as [E Hlt]. rewrite E in Hcase.
      destruct Hcase as [?|[_ ?]]; [done|lia].
    + eexists _, _. split; [reflexivity|]. unfold after_calls. simpl.
      rewrite app_nil_r. split_and!; [lia|done..].
  - cbn [ret logger_error modify raise str].
    destruct (contains "not found" (lower _) && (k <? max_retries - 1)) eqn:E.
    + apply Hk in E as [E Hlt]. rewrite E in Hcase.
      destruct Hcase as [?|[_ ?]]; [done|lia].
    + eexists _, _. split; [reflexivity|]. unfold after_calls. simpl.
      rewrite app_nil_r. split_and!; [lia|done..].
Qed.

Lemma range_max_retries : range max_retries = [0; 1; 2].
Proof. reflexivity. Qed.

Lemma after_calls_trans n1 n2 w1 w2 w3 sl1 sl2 ts1 ts2 :
  after_calls n1 w1 w2 sl1 ts1 -> after_calls n2 w2 w3 sl2 ts2 ->
  after_calls (n1 + n2) w1 w3 (sl1 ++ sl2) ts2.
Proof.
  intros (Hc1 & Hp1 & Hs1 & Ht1) (Hc2 & Hp2 & Hs2 & Ht2).
  unfold after_calls. rewrite Hc2, Hc1, Hp2, Hp1, Hs2, Hs1, app_assoc.
  split_and!; [lia|done..].
Qed.

Lemma batch_fine t rows i total w :
  plan w (calls w) = Fine ->
  exists w', insert_batch t rows i total w
             = (Ok (total + length (take batch_size (drop i rows)))%nat, w') /\
             after_calls 1 w w' []
               (appended t (take batch_size (drop i rows)) (tables w)).
Proof.
  intros Hp. unfold insert_batch. rewrite range_max_retries. cbn [for_break].
  destruct (attempt_fine t (take batch_size (drop i rows)) 0 total w Hp)
    as (w' & Hrun & Hw').
  unfold bind at 1. rewrite Hrun. by exists w'.
Qed.

Lemma batch_twice t rows i total w :
  transient (plan w (calls w)) = true ->
  transient (plan w (S (calls w))) = true ->
  plan w (S (S (calls w))) = Fine ->
  exists w', insert_batch t rows i total w
             = (Ok (total + length (take batch_size (drop i rows)))%nat, w') /\
             after_calls 3 w w' [1; 2]
               (appended t (take batch_size (drop i rows)) (tables w)).
Proof.
  intros H0 H1 H2. unfold insert_batch. rewrite range_max_retries. cbn [for_break].
  set (batch := take batch_size (drop i rows)).
  destruct (attempt_retry t batch 0 total w H0 ltac:(lia)) as (w1 & Hr1 & Hw1).
  pose proof Hw1 as (Hc1 & Hp1 & _ & Ht1).
  replace (S (calls w)) with (calls w1) in H1 by lia. rewrite <- Hp1 in H1.
  destruct (attempt_retry t batch 1 total w1 H1 ltac:(lia)) as (w2 & Hr2 & Hw2).
  pose proof Hw2 as (Hc2 & Hp2 & _ & Ht2).
  replace (S (S (calls w))) with (calls w2) in H2 by lia.
  rewrite <- Hp1, <- Hp2 in H2.
  destruct (attempt_fine t batch 2 total w2 H2) as (w3 & Hr3 & Hw3).
  unfold bind at 1. rewrite Hr1. unfold bind at 1. rewrite Hr2.
  unfold bind at 1. rewrite Hr3. exists w3. split; [done|].
  pose proof (after_calls_trans _ _ _ _ _ _ _ _ _
                (after_calls_trans _ _ _ _ _ _ _ _ _ Hw1 Hw2) Hw3) as H.
  rewrite Ht2, Ht1 in H. exact H.
Qed.

Lemma batch_exhausted t rows i total w :
  transient (plan w (calls w)) = true ->
  transient (plan w (S (calls w))) = true ->
  transient (plan w (S (S (calls w)))) = true ->
  exists e w', insert_batch t rows i total w = (Raise e, w') /\
               after_calls 3 w w' [1; 2] (tables w).
Proof.
  intros H0 H1 H2. unfold insert_batch. rewrite range_max_retries. cbn [for_break].
  set (batch := take batch_size (drop i rows)).
  destruct (attempt_retry t batch 0 total w H0 ltac:(lia)) as (w1 & Hr1 & Hw1).
  pose proof Hw1 as (Hc1 & Hp1 & _ & Ht1).
  replace (S (calls w)) with (calls w1) in H1 by lia. rewrite <- Hp1 in H1.
  destruct (attempt_retry t batch 1 total w1 H1 ltac:(lia)) as (w2 & Hr2 & Hw2).
  pose proof Hw2 as (Hc2 & Hp2 & _ & Ht2).
  replace (S (S (calls w))) with (calls w2) in H2 by lia.
  rewrite <- Hp1, <- Hp2 in H2.
  assert (Hlast : 2 <= 2) by lia.
  destruct (attempt_raise t batch 2 total w2 (or_intror (conj H2 Hlast)))
    as (e & w3 & Hr3 & Hw3).
  unfold bind at 1. rewrite Hr1. unfold bind at 1. rewrite Hr2.
  unfold bind at 1. rewrite Hr3. exists e, w3. split; [done|].
  pose proof (after_calls_trans _ _ _ _ _ _ _ _ _
                (after_calls_trans _ _ _ _ _ _ _ _ _ Hw1 Hw2) Hw3) as H.
  rewrite Ht2, Ht1 in H. exact H.
Qed.

Lemma batch_fatal t rows i total w :
  fatal (plan w (calls w)) = true ->
  exists e w', insert_batch t rows i total w = (Raise e, w') /\
               after_calls 1 w w' [] (tables w).
Proof.
  intros H0. unfold insert_batch. rewrite range_max_retries. cbn [for_break].
  destruct (attempt_raise t (take batch_size (drop i rows)) 0 total w (or_introl H0))
    as (e & w' & Hrun & Hw').
  unfold bind at 1. rewrite Hrun. by exists e, w'.
Qed.


Import BigQueryService.

Lemma for_app {S A B} (xs ys : list A) (body : A -> B -> M S B) acc s :
  for_ (xs ++ ys) body acc s = bind (for_ xs body acc) (for_ ys body) s.
Proof.
  revert acc s. induction xs as [|x xs IH]; intros acc s; simpl; [done|].
  unfold bind. destruct (body x acc s) as [[b|e] s']; [|done].
  rewrite IH. done.
Qed.

Lemma appended_rows t batch ts :
  default [] (appended t batch ts !! t) = default [] (ts !! t) ++ batch.
Proof. unfold appended. by rewrite lookup_insert_eq. Qed.

(** Batches that all go in at the first attempt *)
Lemma batches_fine t rows starts total w :
  (forall n, (n < length starts)%nat -> plan w (calls w + n) = Fine) ->
  exists w' ts,
    for_ starts (insert_batch t rows) total w
    = (Ok (total + length (concat (batch_at rows <$> starts)))%nat, w') /\
    after_calls (length starts) w w' [] ts /\
    default [] (ts !! t) = default [] (tables w !! t) ++ concat (batch_at rows <$> starts).
Proof.
  revert total w. induction starts as [|i starts IH]; intros total w Hp.
  - exists w, (tables w). simpl. rewrite !app_nil_r. split_and!; [by rewrite Nat.add_0_r| |done].
    unfold after_calls. rewrite app_nil_r. split_and!; [lia|done..].
  - destruct (batch_fine t rows i total w) as (w1 & Hr1 & Hw1).
    { pose proof (Hp 0%nat) as H0. rewrite Nat.add_0_r in H0. apply H0. simpl. lia. }
    pose proof Hw1 as (Hc1 & Hp1 & _ & Ht1).
    destruct (IH (total + length (batch_at rows i))%nat w1) as (w2 & ts & Hr2 & Hw2 & Hts).
    { intros n Hn. rewrite Hp1, Hc1. pose proof (Hp (S n)) as Hn'.
      replace (calls w + 1 + n)%nat with (calls w + S n)%nat by lia.
      apply Hn'. simpl. lia. }
    exists w2, ts. split_and!.
    + cbn [for_]. unfold bind. rewrite Hr1. fold (batch_at rows i). rewrite Hr2.
      cbn [fmap list_fmap concat]. by rewrite length_app, Nat.add_assoc.
    + pose proof (after_calls_trans _ _ _ _ _ _ _ _ _ Hw1 Hw2) as H. exact H.
    + rewrite Hts, Ht1, appended_rows. simpl. by rewrite app_assoc.
Qed.

Lemma chunks_cover (rows : list row) (bs k : nat) :
  (length rows <= k * bs)%nat ->
  concat ((fun i => take bs (drop (i * bs) rows)) <$> seq 0 k) = rows.
Proof.
  revert rows. induction k as [|k IH]; intros rows Hlen.
  - destruct rows; [done|simpl in Hlen; lia].
  - cbn [seq fmap list_fmap concat]. rewrite <- fmap_S_seq, <- list_fmap_compose.
    transitivity (take bs rows ++ drop bs rows); [|apply take_drop]. f_equal.
    transitivity (concat ((fun i => take bs (drop (i * bs) (drop bs rows))) <$> seq 0 k)).
    + f_equal. apply list_fmap_ext. intros _ i _. simpl.
      by rewrite drop_drop.
    + apply IH. rewrite length_drop. simpl in Hlen. lia.
Qed.

Lemma batches_cover (rows : list row) :
  concat (batch_at rows <$> range_step (length rows) batch_size) = rows.
Proof.
  unfold range_step. rewrite <- list_fmap_compose.
  apply (chunks_cover rows batch_size). 
  assert (Hbs : (0 < batch_size)%nat) by (unfold batch_size; lia).
  pose proof (Nat.div_mod_eq (length rows + batch_size - 1) batch_size) as Hd.
  pose proof (Nat.mod_upper_bound (length rows + batch_size - 1) batch_size) as Hm.
  nia.
Qed.

Lemma range_step_first (rows : list row) :
  rows <> [] ->
  exists rest, range_step (length rows) batch_size = 0%nat :: rest.
Proof.
  intros Hne. unfold range_step.
  assert (Hbs : (0 < batch_size)%nat) by (unfold batch_size; lia).
  destruct ((length rows + batch_size - 1) `div` batch_size)%nat as [|k] eqn:E.
  - apply Nat.div_small_iff in E; [|lia]. destruct rows; [done|simpl in E; lia].
  - by eexists.
Qed.


(** ** A store that never fails *)

Import FirestoreService.

Lemma wp_rpc_fine (Q : unit -> World -> Prop) w :
  healthy w -> Q tt (set_calls S w) -> wp rpc (returns Q) w.
Proof. intros Hp HQ. apply wp_rpc_exact. by rewrite Hp. Qed.

Lemma wp_submit_fine name refs cnt w :
  healthy w ->
  wp (submit name refs cnt)
     (returns (fun '(fut, _) w' => resolved fut /\ healthy w')) w.
Proof.
  intros Hp.
  cbv beta delta [wp submit delete_batch commit_deletes rpc client_call bind].
  destruct refs as [|k refs]; [done|]. by rewrite Hp.
Qed.

(** With a store that never fails, [delete_all_documents] returns. *)
Lemma delete_all_documents_fine name bs mw w :
  healthy w -> mw <> 0%nat ->
  wp (delete_all_documents name bs mw)
     (returns (fun n w' =>
        healthy w' /\
        coll w' name = removed (streamed bs (coll w name)) (coll w name) /\
        n = length (streamed bs (coll w name)))) w.
Proof.
  intros Hp Hmw.
  assert (Hret : wp (delete_all_documents name bs mw)
                    (returns (fun _ w' => healthy w')) w).
  { unfold delete_all_documents. apply wp_catch.
    eapply (wp_mono _ (returns (fun _ w' => healthy w')));
      [|by intros [a|e] w'].
    apply wp_bind_returns. destruct (Nat.eqb_spec mw 0); [done|].
    apply wp_ret. unfold returns at 1.
    apply wp_bind_returns. unfold stream_refs.
    apply wp_bind_returns, wp_rpc_fine; [done|].
    apply wp_bind_returns, wp_get, wp_ret. unfold returns at 1 2.
    apply wp_bind_returns. eapply wp_mono.
    { apply (wp_for (fun _ '(_, futs, _) w' =>
         Forall resolved futs /\ healthy w') _ _ []); [done|].
      intros pre' doc [[cur futs] cnt] w2 _ [Hres Hp2].
      destruct (bs <=? length (cur ++ [doc]))%nat; [|by apply wp_ret].
      apply wp_bind_returns. eapply wp_mono; [by apply wp_submit_fine|].
      intros [[fut cnt']|e] w3; [|done]. unfold returns at 1 2. intros [Hf Hp3].
      assert (Hall : Forall resolved (futs ++ [fut])).
      { apply Forall_app. split; [done|]. by constructor. }
      destruct (mw * 2 <=? length (futs ++ [fut]))%nat; [|by apply wp_ret].
      destruct (futs ++ [fut]) as [|f0 futs'] eqn:Ef; [by destruct futs|].
      apply Forall_cons in Hall as [Hf0 Hall].
      apply wp_bind_returns. unfold result. destruct f0 as [n0|e0]; [|done].
      apply wp_lift_res. unfold returns at 1. by apply wp_ret. }
    intros [[[cur futs] cnt]|e] w2; [|done]. unfold returns at 1 2. intros [Hres Hp2].
    apply wp_bind_returns.
    eapply (wp_mono _ (returns (fun '(futs', _) w3 =>
              Forall resolved futs' /\ healthy w3))).
    { destruct cur as [|k cur]; [by apply wp_ret|].
      apply wp_bind_returns. eapply wp_mono; [by apply wp_submit_fine|].
      intros [[fut cnt']|e] w3; [|done]. unfold returns at 1 2. intros [Hf Hp3].
      apply wp_ret. split; [|done]. apply Forall_app. split; [done|]. by constructor. }
    intros [[futs' cnt']|e] w3; [|done]. unfold returns at 1 2. intros [Hres3 Hp3].
    apply wp_bind_returns. eapply wp_mono.
    { apply (wp_for (fun _ _ w' => healthy w') _ _ []); [done|].
      intros pre' fut [] w4 Hpre Hp4.
      apply prefix_snoc_elem in Hpre. cbn [app] in Hpre.
      rewrite Forall_forall in Hres3. specialize (Hres3 fut Hpre).
      destruct fut as [n0|e0]; [|done]. by apply wp_catch, wp_bind, wp_lift_res, wp_ret. }
    intros [[]|e] w4; [|done]. unfold returns at 1 2. intros Hp4. by apply wp_ret. }
  pose proof (delete_all_documents_returns name bs mw w) as Hspec.
  unfold wp in *. destruct (delete_all_documents name bs mw w) as [[n|e] w']; [|done].
  simpl in *. by destruct Hspec.
Qed.

Lemma batch_write_fine name docs w :
  healthy w ->
  wp (batch_write name docs)
     (returns (fun _ w' => healthy w' /\ coll w' name = written docs (coll w name))) w.
Proof.
  intros Hp.
  pose proof (batch_write_returns name docs w) as Hspec.
  assert (Hret : wp (batch_write name docs) (returns (fun _ w' => healthy w')) w).
  { unfold batch_write. destruct docs as [|d docs].
    - by apply wp_modify.
    - apply wp_catch. unfold commit_sets. apply wp_bind.
      apply wp_rpc_exact. rewrite Hp. by apply wp_modify. }
  unfold wp in *. destruct (batch_write name docs w) as [[[]|e] w']; [|done].
  simpl in *. done.
Qed.

(** ** The run without seed users *)

Lemma only_users_shrink_bookkeeping : Bookkeeping only_users_shrink.
Proof.
  split.
  - by intros w.
  - intros w1 w2 w3 (?&?&?&Ha&?) (?&?&?&Hb&?). unfold only_users_shrink.
    split_and!; [congruence..| |by etrans].
    intros name Hn. by rewrite Hb, Ha.
  - by intros f w.
  - by intros f w.
  - by intros f w.
  - by intros f w.
Qed.
#[global] Existing Instance only_users_shrink_bookkeeping.

Lemma only_users_shrink_removed ks w :
  only_users_shrink w (coll_step "users" (removed ks) w).
Proof.
  unfold only_users_shrink. split_and!; [done..| |].
  - intros name Hn. by apply coll_coll_step_ne.
  - rewrite coll_coll_step. apply removed_subseteq.
Qed.

Lemma delete_existing_fine kind name w :
  healthy w ->
  wp (delete_existing kind name)
     (returns (fun _ w' => healthy w' /\
        coll w' name = removed (streamed 500 (coll w name)) (coll w name))) w.
Proof.
  intros Hp. unfold delete_existing. apply wp_catch, wp_bind.
  eapply wp_mono; [by apply delete_all_documents_fine|].
  intros [n|e] w'; [|done]. unfold returns at 1. intros (Hp' & Hc & _).
  by apply wp_ret.
Qed.

Lemma get_users_no_seed user_limit w :
  seed_rows w = [] ->
  wp (_get_users user_limit)
     (fun r _ => (forall us, r = Ok us -> us = []) /\ (healthy w -> r = Ok [])) w.
Proof.
  intros Hseed.
  assert (Hnil : forall lim, match lim with
                              | Some n => take n (seed_rows w)
                              | None => seed_rows w
                              end = @nil SeedUser).
  { intros [n|]; rewrite Hseed; [apply take_nil|done]. }
  unfold _get_users, BigQueryService.execute_query.
  apply wp_catch, wp_catch, wp_bind, wp_rpc_exact.
  destruct (plan w (calls w)) eqn:Hr.
  - apply wp_bind, wp_get, wp_ret. cbn [seed_rows set_calls]. rewrite Hnil.
    split; [by intros us [= <-]|done].
  - apply wp_bind, wp_modify, wp_raise, wp_bind, wp_modify, wp_raise.
    split; [done|]. intros Hp. by rewrite Hp in Hr.
  - apply wp_bind, wp_get, wp_ret. cbn [seed_rows set_calls]. rewrite Hnil.
    split; [by intros us [= <-]|done].
Qed.

Lemma create_user_collection_no_seed user_limit w :
  seed_rows w = [] ->
  wp (_create_user_collection user_limit)
     (fun r w' =>
        (exists e, r = Raise e) /\ only_users_shrink w w' /\
        (healthy w ->
           r = Raise (ExternalServiceError no_users_text) /\
           coll w' "users" = removed (streamed 500 (coll w "users")) (coll w "users"))) w.
Proof.
  intros Hseed. unfold _create_user_collection. apply wp_bind.
  eapply wp_mono.
  { apply (wp_stays only_users_shrink).
    - apply stays_delete_existing; [apply _|]. apply only_users_shrink_removed.
    - apply (wp_intro _ (fun r w' => healthy w -> returns (fun _ w' => healthy w' /\
        coll w' "users" = removed (streamed 500 (coll w "users")) (coll w "users")) r w') w
        (delete_existing "user" "users" w).1 (delete_existing "user" "users" w).2).
      + by destruct (delete_existing "user" "users" w).
      + intros Hp. by apply delete_existing_fine. }
  intros [[]|e] w1 [Hfine Hs1].
  2:{ split_and!; [by eexists|done|]. intros Hp. by destruct (Hfine Hp). }
  assert (Hseed1 : seed_rows w1 = []) by (destruct Hs1 as (_&->&_); done).
  apply wp_bind. eapply wp_mono.
  { apply (wp_stays same_stores); [apply stays_get_users; apply _|].
    by apply get_users_no_seed. }
  intros r w2 [[Hnil Hok] Hsame].
  assert (Hs2 : only_users_shrink w1 w2).
  { destruct Hsame as (Hc&?&?&?). unfold only_users_shrink, coll. rewrite Hc. done. }
  destruct r as [us|e].
  2:{ split_and!; [by eexists|by etrans|]. intros Hp.
      destruct (Hfine Hp) as [Hp1 _]. by specialize (Hok Hp1). }
  rewrite (Hnil us eq_refl).
  apply wp_bind, wp_modify, wp_raise.
  assert (Hs : only_users_shrink w w2) by by etrans.
  split_and!; [by eexists| |].
  - etrans; [exact Hs|]. apply (bk_log (mkLog warning "No users data available" None)).
  - intros Hp. split; [done|]. destruct (Hfine Hp) as [_ Hc].
    change (coll w2 "users" = removed (streamed 500 (coll w "users")) (coll w "users")).
    by rewrite (same_stores_coll _ _ "users" Hsame).
Qed.

(** C7, as the specification words it, fails: a run without seed users
    starts by deleting the documents of [users]. *)
Lemma no_seed_users_still_clears_users :
  ~ aborts_before_any_store_change None Example.leftover.
Proof.
  intros H. unfold aborts_before_any_store_change in H. specialize (H eq_refl).
  destruct (create_demo_data None Example.leftover) as [[o|e] w'] eqn:Hrun;
    vm_compute in Hrun; [|discriminate].
  destruct (H o w' eq_refl) as (_ & _ & Hc).
  injection Hrun as <- <-.
  specialize (Hc "users"). apply (f_equal (fun m => m !! 1%positive)) in Hc.
  vm_compute in Hc. discriminate.
Qed.

(** C7, amended: without seed users the run returns a failure that carries
    no statistics; no table and no collection other than [users] changes and
    nothing is written to [users], which may lose documents; when every
    client call succeeds the error is the one about the missing user records
    and the documents that the deletion streams are gone from [users]. *)
Theorem no_seed_users_fails_after_clearing_users (user_limit : option nat) (w : World) :
  seed_rows w = [] ->
  exists o w',
    create_demo_data user_limit w = (Ok o, w') /\
    DemoDataService.success o = false /\ stats o = None /\
    only_users_shrink w w' /\
    (healthy w ->
       error_text o = Some no_users_text /\
       coll w' "users" = removed (streamed 500 (coll w "users")) (coll w "users")).
Proof.
  intros Hseed.
  pose proof (create_user_collection_no_seed user_limit w Hseed) as Hu.
  unfold create_demo_data, stages, catch, bind. unfold wp in Hu.
  destruct (_create_user_collection user_limit w) as [r w1]. cbn [fst snd] in Hu.
  destruct Hu as ([e ->] & Hs & Hfine).
  eexists _, _. split; [reflexivity|]. cbn [DemoDataService.success stats error_text].
  split_and!; [done..| |].
  - etrans; [exact Hs|]. apply (bk_log (mkLog error "Demo data creation failed" (Some (str e)))).
  - intros Hp. destruct (Hfine Hp) as [[= ->] Hc]. done.
Qed.

Lemma no_seed_users_fails_after_clearing_users_witness :
  seed_rows Example.leftover = [] /\
  exists o w',
    create_demo_data None Example.leftover = (Ok o, w') /\
    DemoDataService.success o = false /\ stats o = None /\
    only_users_shrink Example.leftover w' /\
    (healthy Example.leftover ->
       error_text o = Some no_users_text /\
       coll w' "users" = removed (streamed 500 (coll Example.leftover "users"))
                                 (coll Example.leftover "users")).
Proof.
  split; [reflexivity|].
  apply (no_seed_users_fails_after_clearing_users None Example.leftover). reflexivity.
Defined.

(** ** Replacing a collection *)

Lemma removed_size ks (m : collection) :
  NoDup ks -> (forall k, k ∈ ks -> is_Some (m !! k)) ->
  (size (removed ks m) + length ks = size m)%nat.
Proof.
  induction ks as [|k ks IH]; intros Hnd Hin; cbn [removed foldr length]; [lia|].
  apply NoDup_cons in Hnd as [Hk Hnd].
  fold (removed ks m). rewrite map_size_delete_Some.
  - specialize (IH Hnd (fun k' H' => Hin k' (list_elem_of_further _ _ _ H'))).
    assert (size (removed ks m) <> 0)%nat; [|lia].
    intros H0. apply map_size_empty_inv in H0.
    destruct (Hin k (list_elem_of_here _ _)) as [x Hx].
    assert (removed ks m !! k = Some x) as Hr.
    { rewrite lookup_removed. by rewrite decide_False. }
    by rewrite H0, lookup_empty in Hr.
  - rewrite lookup_removed. rewrite decide_False by done.
    apply Hin, list_elem_of_here.
Qed.

Lemma streamed_NoDup bs (m : collection) : NoDup (streamed bs m).
Proof.
  unfold streamed. eapply sublist_NoDup; [|apply sublist_take].
  apply NoDup_fst_map_to_list.
Qed.

Lemma streamed_in bs (m : collection) k : k ∈ streamed bs m -> is_Some (m !! k).
Proof.
  unfold streamed. intros H%elem_of_take. destruct H as (i & H%list_elem_of_lookup_2 & _).
  apply list_elem_of_fmap in H as ([k' x] & -> & H).
  apply elem_of_map_to_list in H. by exists x.
Qed.

Lemma streamed_length bs (m : collection) :
  length (streamed bs m) = ((bs * 4) `min` size m)%nat.
Proof. unfold streamed. by rewrite length_take, length_fmap, length_map_to_list. Qed.

(** A collection of at most four batches is streamed whole. *)
Lemma streamed_all bs (m : collection) :
  (size m <= bs * 4)%nat -> removed (streamed bs m) m = ∅.
Proof.
  intros H. unfold streamed. rewrite take_ge; [apply removed_all|].
  by rewrite length_fmap, length_map_to_list.
Qed.

(** Of a larger one, a document is not streamed. *)
Lemma streamed_misses bs (m : collection) :
  (bs * 4 < size m)%nat ->
  exists k x, m !! k = Some x /\ removed (streamed bs m) m !! k = Some x.
Proof.
  intros H.
  destruct (lookup_lt_is_Some_2 (map_to_list m) (bs * 4)) as [[k x] Hkx].
  { by rewrite length_map_to_list. }
  exists k, x.
  assert (Hm : m !! k = Some x) by by eapply elem_of_map_to_list, list_elem_of_lookup_2.
  split; [done|]. rewrite lookup_removed. rewrite decide_False; [done|].
  unfold streamed. intros Hin.
  apply list_elem_of_lookup in Hin as [i Hi].
  assert (Hlt : (i < bs * 4)%nat).
  { apply lookup_lt_Some in Hi. rewrite length_take in Hi. lia. }
  rewrite lookup_take_lt in Hi by done.
  assert (Hk : (map_to_list m).*1 !! (bs * 4)%nat = Some k).
  { by rewrite list_lookup_fmap, Hkx. }
  pose proof (NoDup_lookup _ _ _ _ (NoDup_fst_map_to_list m) Hi Hk). lia.
Qed.

(** With the store of the failing run, the replacement leaves the last of
    the 2001 old documents beside the two new ones. *)
Lemma replace_crowded :
  exists w', replace "users" Example.newcomers Example.crowded = (Ok tt, w') /\
             size (coll w' "users") = 3%nat.
Proof.
  destruct (replace "users" Example.newcomers Example.crowded) as [[[]|e] w'] eqn:Hrun;
    vm_compute in Hrun; [|discriminate].
  exists w'. split; [done|]. injection Hrun as <-. by vm_compute.
Qed.

(** C4: [replace] deletes the documents that one query limited to
    four batches (2000 documents) streams, then writes the new ones; a
    collection of at most 2000 documents is replaced by the new records,
    a larger one keeps the documents beyond the first 2000. *)
Theorem replace_deletes_at_most_one_page
    (name : string) (docs : list document) (w : World) :
  healthy w ->
  exists w',
    replace name docs w = (Ok tt, w') /\
    ((size (coll w name) <= 2000)%nat ->
       coll w' name = written docs ∅ /\ size (coll w' name) = length docs) /\
    ((2000 < size (coll w name))%nat ->
       size (coll w' name) = (size (coll w name) - 2000 + length docs)%nat /\
       exists k x, coll w name !! k = Some x /\ coll w' name !! k = Some x).
Proof.
  intros Hp.
  assert (Hrun : wp (replace name docs) (returns (fun _ w' =>
            coll w' name = written docs (removed (streamed 500 (coll w name)) (coll w name)))) w).
  { unfold replace. apply wp_bind_returns.
    eapply wp_mono; [by apply delete_all_documents_fine|].
    intros [n|e] w1; [|done]. unfold returns at 1 2. intros (Hp1 & Hc1 & _).
    eapply wp_mono; [by apply batch_write_fine|].
    intros [[]|e] w2; [|done]. unfold returns. intros [_ ->]. by rewrite Hc1. }
  unfold wp in Hrun. destruct (replace name docs w) as [[[]|e] w']; [|done].
  cbn [fst snd returns] in Hrun. exists w'. split; [done|]. rewrite Hrun.
  set (m := coll w name). split; intros Hsz.
  - rewrite streamed_all by (simpl; lia). split; [done|].
    by rewrite written_size, map_size_empty.
  - split.
    + rewrite written_size.
      pose proof (removed_size (streamed 500 m) m (streamed_NoDup _ _) (streamed_in _ _)) as Hs.
      rewrite streamed_length in Hs. change (500 * 4)%nat with 2000%nat in Hs. lia.
    + destruct (streamed_misses 500 m) as (k & x & Hm & Hr); [simpl; lia|].
      exists k, x. split; [done|].
      eapply lookup_weaken; [exact Hr|apply written_subseteq].
Qed.

Lemma replace_deletes_at_most_one_page_witness :
  healthy Example.crowded /\
  exists w',
    replace "users" Example.newcomers Example.crowded = (Ok tt, w') /\
    ((size (coll Example.crowded "users") <= 2000)%nat ->
       coll w' "users" = written Example.newcomers ∅ /\
       size (coll w' "users") = length Example.newcomers) /\
    ((2000 < size (coll Example.crowded "users"))%nat ->
       size (coll w' "users")
       = (size (coll Example.crowded "users") - 2000 + length Example.newcomers)%nat /\
       exists k x, coll Example.crowded "users" !! k = Some x /\
                   coll w' "users" !! k = Some x).
Proof.
  assert (H : healthy Example.crowded) by (intros n; reflexivity).
  split; [exact H|].
  exact (replace_deletes_at_most_one_page "users" Example.newcomers Example.crowded H).
Defined.


(** ** The coordinator *)

Lemma create_demo_data_machine user_limit w :
  create_demo_data user_limit w = report (machine user_limit pipeline blank w).
Proof.
  unfold create_demo_data, stages, pipeline, report, catch.
  cbn [machine run_stage]. unfold bind, ret, logger_error, modify.
  cbn [a_users a_companies a_projects a_trending a_company_events a_company_updates
       a_renewals a_user_events blank].
  repeat (match goal with
          | |- context [match ?c with (_, _) => _ end] =>
              destruct c as [[?|?] ?]; [|reflexivity]
          end;
          cbn [a_users a_companies a_projects a_trending a_company_events
               a_company_updates a_renewals a_user_events]).
  reflexivity.
Qed.

(** The stage that clears the tables returns, whatever the store does. *)
Lemma clear_bigquery_tables_returns w :
  wp _clear_bigquery_tables (returns (fun _ _ => True)) w.
Proof.
  unfold _clear_bigquery_tables. apply wp_bind_returns. eapply wp_mono.
  { apply (wp_for (fun _ _ _ => True) _ _ []); [done|].
    intros pre t [] w1 _ _. apply wp_catch.
    unfold BigQueryService.delete_all_rows. apply wp_bind, wp_catch, wp_bind, wp_rpc_exact.
    destruct (plan w1 (calls w1)).
    - by apply wp_bind, wp_modify, wp_ret, wp_ret.
    - by apply wp_bind, wp_modify, wp_raise, wp_modify.
    - by apply wp_bind, wp_modify, wp_ret, wp_ret. }
  intros [[]|e] w1; [|done]. intros _. by apply wp_modify.
Qed.

Lemma update_company_docs_returns ups w :
  Forall (fun u => exists p v, update_with u p v) ups ->
  wp (_update_company_docs_with_purchases_and_provisions ups) (returns (fun _ _ => True)) w.
Proof.
  intros Hwf.
  apply (patch_loop (fun _ _ _ => True) (fun _ _ => True)); [|done..].
  eapply Forall_impl; [exact Hwf|]. intros u (p & v & H). by exists p, v.
Qed.

Lemma run_stage_well_formed user_limit st a w a' w' :
  well_formed a -> run_stage user_limit st a w = (Ok a', w') -> well_formed a'.
Proof.
  intros [Hq Hu]. destruct st; cbn [run_stage]; unfold bind, ret.
  all: lazymatch goal with
       | |- match ?c with (_, _) => _ end = _ -> _ =>
           destruct c as [[x|e] w1] eqn:Hrun; [|discriminate]
       end.
  all: intros [= <- <-]; try (by split).
  - split; [|done]. cbn [a_company_events].
    unfold lift_src in Hrun.
    destruct (wp_returns_inv _ _ _ (generate_company_events_streams (a_companies a) (src w)))
      as (evs & s1 & Hgen & streams & -> & Hstreams).
    rewrite Hgen in Hrun. injection Hrun as <- _.
    apply (generated_events_have_quantity (c_name <$> a_companies a)).
    by apply Forall2_fmap_l.
  - split; [done|]. cbn [a_company_updates].
    destruct (wp_returns_inv _ _ _ (generate_company_updates_spec (a_company_events a) w Hq))
      as (ups & w1' & Hups & -> & order & -> & _).
    rewrite Hups in Hrun. injection Hrun as <- _.
    apply Forall_fmap, Forall_forall. intros c _.
    by exists (total_purchased c (a_company_events a)),
              (total_provisioned c (a_company_events a)).
Qed.

(** The stage at which the machine stops has raised, and the world is the
    one that stage left. *)
Lemma machine_failed user_limit todo a w st e w' :
  well_formed a ->
  machine user_limit todo a w = (Failed st e, w') ->
  exists a0 w0, well_formed a0 /\ st ∈ todo /\
                run_stage user_limit st a0 w0 = (Raise e, w').
Proof.
  revert a w. induction todo as [|st0 todo IH]; intros a w Hwf; cbn [machine]; [done|].
  destruct (run_stage user_limit st0 a w) as [[a1|e1] w1] eqn:Hrun.
  - intros Hm. destruct (IH a1 w1) as (a0 & w0 & Hwf0 & Hin & H0); [|done|].
    + by eapply run_stage_well_formed.
    + exists a0, w0. split_and!; [done| |done]. by apply list_elem_of_further.
  - intros [= <- <- <-]. exists a, w. split_and!; [done| |done]. apply list_elem_of_here.
Qed.

Lemma blank_well_formed : well_formed blank.
Proof. by split. Qed.

(** C6, as the specification words it, fails: the failure result of a run
    without seed users carries no count. *)
Lemma failure_result_has_no_counts : ~ failure_carries_counts None Example.leftover.
Proof.
  intros H. unfold failure_carries_counts in H.
  destruct (create_demo_data None Example.leftover) as [[o|e] w'] eqn:Hrun;
    vm_compute in Hrun; [|discriminate].
  specialize (H o w' eq_refl). injection Hrun as <- <-.
  destruct (H eq_refl) as [x Hx]. discriminate.
Qed.

(** C6, amended: the coordinator runs its stages strictly in order and
    stops at the first one that raises; it never raises itself: it
    logs the failure and returns a result with the text of the cause and
    without counts, or the success with the counts of all the stages.
    The stage that clears the tables and the stage that patches the
    company totals never raise: a failure inside them is logged and the
    run goes on. *)
Theorem stage_failure_halts_the_run (user_limit : option nat) (w : World) :
  create_demo_data user_limit w = report (machine user_limit pipeline blank w) /\
  (forall st e w',
     machine user_limit pipeline blank w = (Failed st e, w') ->
     st <> TruncateAnalyticsTables /\ st <> PatchCompanyTotals /\
     exists a0 w0, run_stage user_limit st a0 w0 = (Raise e, w')) /\
  (exists o w',
     create_demo_data user_limit w = (Ok o, w') /\
     match machine user_limit pipeline blank w with
     | (Done a, w1) =>
         o = mkOutcome true "Demo data created successfully" (Some (stats_of a)) None /\
         w' = w1
     | (Failed _ e, w1) =>
         o = mkOutcome false ("Demo data creation failed: " +:+ str e) None
                       (Some (str e)) /\
         log w' = log w1 ++ [mkLog error "Demo data creation failed" (Some (str e))] /\
         collections w' = collections w1 /\ tables w' = tables w1
     end).
Proof.
  split_and!.
  - apply create_demo_data_machine.
  - intros st e w' Hm.
    destruct (machine_failed _ _ _ _ _ _ _ blank_well_formed Hm)
      as (a0 & w0 & [Hq Hu] & _ & Hrun).
    split_and!; [| |by eauto].
    + intros ->. cbn [run_stage] in Hrun. unfold bind in Hrun.
      pose proof (clear_bigquery_tables_returns w0) as Hc. unfold wp in Hc.
      destruct (_clear_bigquery_tables w0) as [[[]|e0] w1]; [discriminate|done].
    + intros ->. cbn [run_stage] in Hrun. unfold bind in Hrun.
      pose proof (update_company_docs_returns _ w0 Hu) as Hc. unfold wp in Hc.
      destruct (_update_company_docs_with_purchases_and_provisions _ w0)
        as [[[]|e0] w1]; [discriminate|done].
  - rewrite create_demo_data_machine.
    destruct (machine user_limit pipeline blank w) as [[a|st e] w1]; cbn [report].
    + by eexists _, _.
    + by eexists _, _.
Qed.


(** ** The totals on the company documents *)

Import FirestoreService.

Lemma group_append_keys c u gs :
  (group_append c u gs).*1 = if decide (c ∈ gs.*1) then gs.*1 else gs.*1 ++ [c].
Proof.
  induction gs as [|[c0 us] gs IH]; cbn [group_append fmap list_fmap fst].
  - by rewrite decide_False by set_solver.
  - destruct (decide (c0 = c)) as [->|Hne]; cbn [fmap list_fmap fst].
    + by rewrite decide_True by set_solver.
    + fold (@fmap list _ _ _ fst gs). rewrite IH.
      destruct (decide (c ∈ gs.*1)).
      * by rewrite decide_True by set_solver.
      * by rewrite decide_False by set_solver.
Qed.

Lemma groups_NoDup users gs :
  NoDup gs.*1 ->
  NoDup (foldl (fun groups user => group_append (u_company user) user groups) gs users).*1.
Proof.
  revert gs. induction users as [|u users IH]; intros gs Hnd; cbn [foldl]; [done|].
  apply IH. rewrite group_append_keys. case_decide as Hin; [done|].
  apply NoDup_app. split_and!; [done| |apply NoDup_singleton].
  intros x Hx Hx'. apply list_elem_of_singleton in Hx' as ->. done.
Qed.

Lemma create_company_docs_names {S} users (s : S) :
  wp (_create_company_docs users)
     (if_returns (fun cs s' => s' = s /\ NoDup (c_name <$> cs))) s.
Proof.
  unfold _create_company_docs.
  set (gs := foldl _ [] users).
  assert (Hnd : NoDup gs.*1) by (apply groups_NoDup; constructor).
  eapply wp_mono.
  { apply (wp_for_if_returns (fun pre cs s' => s' = s /\ c_name <$> cs = pre.*1) _ _ []);
      [done|].
    intros pre' [name us] cs s' _ [-> Hcs].
    unfold min_of. destruct (u_reg_date <$> us) as [|x xs]; [done|].
    apply wp_bind, wp_ret, wp_ret. split; [done|].
    by rewrite !fmap_app, Hcs. }
  intros [cs|e] s'; [|done]. unfold if_returns. cbn [app]. intros [-> ->]. done.
Qed.

Lemma create_company_collection_returns users w :
  (size (coll w "companies") <= 2000)%nat ->
  wp (_create_company_collection users)
     (if_returns (fun cs w' =>
        NoDup (c_name <$> cs) /\
        coll w' "companies" = written (company_doc <$> cs) ∅)) w.
Proof.
  intros Hsz. unfold _create_company_collection, delete_existing, write_new.
  apply wp_bind_if_returns.
  apply (wp_catch_reraise _ (fun e => logger_error _ (Some (str e)))
           (fun e => ExternalServiceError _)).
  apply wp_bind_if_returns. eapply wp_mono; [apply delete_all_documents_returns|].
  intros [n|e] w1; [|done]. unfold if_returns at 1 2. intros [Hc1 _].
  rewrite streamed_all in Hc1 by (simpl; lia).
  apply wp_ret. unfold if_returns at 1.
  apply wp_bind_if_returns. eapply wp_mono; [apply create_company_docs_names|].
  intros [cs|e] w2; [|done]. unfold if_returns at 1 2. intros [-> Hnd].
  apply wp_bind_if_returns.
  apply (wp_catch_reraise _ (fun e => logger_error _ (Some (str e)))
           (fun e => ExternalServiceError _)).
  eapply wp_mono; [apply batch_write_returns|].
  intros [[]|e] w3; [|done]. unfold if_returns at 1 2. intros Hc3.
  apply wp_ret. unfold if_returns. by rewrite Hc3, Hc1.
Qed.

Lemma NoDup_fmap_eq {A B} (f : A -> B) (l : list A) x y :
  NoDup (f <$> l) -> x ∈ l -> y ∈ l -> f x = f y -> x = y.
Proof.
  intros Hnd Hx Hy Hf.
  apply list_elem_of_lookup in Hx as [i Hi]. apply list_elem_of_lookup in Hy as [j Hj].
  assert (Hi' : (f <$> l) !! i = Some (f x)) by by rewrite list_lookup_fmap, Hi.
  assert (Hj' : (f <$> l) !! j = Some (f x)) by by rewrite list_lookup_fmap, Hj, Hf.
  pose proof (NoDup_lookup _ _ _ _ Hnd Hi' Hj') as ->. congruence.
Qed.

Lemma written_names_unique cs :
  NoDup (c_name <$> cs) -> names_unique (written (company_doc <$> cs) ∅).
Proof.
  intros Hnd. set (m := written (company_doc <$> cs) ∅).
  assert (Hperm : (map_to_list m).*2 ≡ₚ company_doc <$> cs).
  { unfold m. rewrite written_values. by rewrite map_to_list_empty. }
  assert (Hnames : NoDup ((fun kd : positive * document => kd.2 !! "name") <$> map_to_list m)).
  { assert (He : (fun kd : positive * document => kd.2 !! "name") <$> map_to_list m
                 = (fun d : document => d !! "name") <$> (map_to_list m).*2).
    { by rewrite <- list_fmap_compose. }
    rewrite He, Hperm, <- list_fmap_compose.
    assert (Hc : (fun d : document => d !! "name") ∘ company_doc
                 = (fun c => Some (VStr (c_name c)))) by done.
    apply (NoDup_fmap_2_strong _).
    - intros c1 c2 Hc1 Hc2 Hn. cbn in Hn.
      apply (NoDup_fmap_eq c_name cs); [done..|].
      unfold company_doc in Hn. rewrite !lookup_insert_eq in Hn. congruence.
    - eapply NoDup_fmap_1. exact Hnd. }
  intros k1 k2 d1 d2 H1 H2 Hn.
  apply elem_of_map_to_list in H1, H2.
  pose proof (NoDup_fmap_eq _ _ (k1, d1) (k2, d2) Hnames H1 H2 Hn). congruence.
Qed.

Lemma same_companies_bookkeeping : Bookkeeping same_companies.
Proof.
  split.
  - by intros w.
  - intros w1 w2 w3 H1 H2. unfold same_companies in *. congruence.
  - by intros f w.
  - by intros f w.
  - by intros f w.
  - by intros f w.
Qed.
#[global] Existing Instance same_companies_bookkeeping.

Lemma same_companies_coll name : name <> "companies" -> allows_coll same_companies name.
Proof. intros Hne f w. by apply coll_coll_step_ne. Qed.

Lemma same_companies_tables : allows_tables same_companies.
Proof. by intros f w. Qed.


Lemma names_unique_names_of (m m' : collection) :
  names_of m' = names_of m -> names_unique m -> names_unique m'.
Proof.
  intros Hn Hu k1 k2 d1 d2 H1 H2 Hname.
  assert (Hold : forall k d, m' !! k = Some d ->
                 exists d0, m !! k = Some d0 /\ d0 !! "name" = d !! "name").
  { intros k d Hk.
    assert (H : names_of m !! k = Some (d !! "name")).
    { rewrite <- Hn. unfold names_of. by rewrite lookup_fmap, Hk. }
    unfold names_of in H. rewrite lookup_fmap in H.
    destruct (m !! k) as [d0|]; [|done]. exists d0. split; [done|].
    by injection H. }
  destruct (Hold _ _ H1) as (e1 & He1 & Hn1). destruct (Hold _ _ H2) as (e2 & He2 & Hn2).
  apply (Hu k1 k2 e1 e2); [done..|]. congruence.
Qed.

(** The runs of the stages, one by one, in a run of [stages] that
    returns *)
Lemma stages_inv user_limit w a w' :
  stages user_limit w = (Ok a, w') ->
  exists w1 w2 w3 w4 w5 w6 w7 w8 w9 w10 w11,
    _create_user_collection user_limit w = (Ok (a_users a), w1) /\
    _create_company_collection (a_users a) w1 = (Ok (a_companies a), w2) /\
    _create_projects_collection (a_companies a) w2 = (Ok (a_projects a), w3) /\
    _create_trending_collection (a_companies a) w3 = (Ok (a_trending a), w4) /\
    lift_src (_generate_company_events (a_companies a)) w4
    = (Ok (a_company_events a), w5) /\
    _clear_bigquery_tables w5 = (Ok tt, w6) /\
    _write_company_events_to_bigquery (a_company_events a) w6 = (Ok tt, w7) /\
    _generate_company_updates (a_company_events a) w7 = (Ok (a_company_updates a), w8) /\
    _create_renewals_collection (a_company_updates a) w8 = (Ok (a_renewals a), w9) /\
    _update_company_docs_with_purchases_and_provisions (a_company_updates a) w9
    = (Ok tt, w10) /\
    lift_src (_generate_user_events (a_users a)) w10 = (Ok (a_user_events a), w11) /\
    _write_user_events_to_bigquery (a_user_events a) w11 = (Ok tt, w').
Proof.
  unfold stages, bind, ret.
  repeat (lazymatch goal with
          | |- match ?c with (_, _) => _ end = _ -> _ =>
              destruct c as [[?x|?e] ?w] eqn:?Hrun; [|discriminate]
          end).
  intros [= <- <-]. cbn [a_users a_companies a_projects a_trending a_company_events
                         a_company_updates a_renewals a_user_events].
  repeat match goal with x : unit |- _ => destruct x end.
  by eexists _, _, _, _, _, _, _, _, _, _, _.
Qed.

Lemma stays_elim {S A} (R : S -> S -> Prop) (c : M S A) s r s' :
  stays R c -> c s = (r, s') -> R s s'.
Proof. intros H Hrun. specialize (H s). unfold wp in H. by rewrite Hrun in H. Qed.

(** Every company has an event in the stream of the synthesizer. *)
Lemma company_in_streams companies streams c :
  Forall2 (fun c st => company_stream (c_name c) st) companies streams ->
  c ∈ companies -> c_name c ∈ companies_in (concat streams).
Proof.
  intros Hall Hc. apply list_elem_of_lookup in Hc as [i Hi].
  destruct (Forall2_lookup_l _ _ _ _ _ Hall Hi) as (st & Hst & [[e0 [Hhead _]] [Hev _]] ).
  destruct st as [|e st]; [done|]. injection Hhead as ->.
  apply Forall_inv in Hev. destruct Hev as [Hname _].
  unfold companies_in. apply elem_of_list_to_set, list_elem_of_fmap.
  exists e0. split; [done|]. apply elem_of_concat. exists i, (e0 :: st).
  split; [done|]. apply list_elem_of_here.
Qed.

Lemma update_for_names evs order : (update_for evs <$> order).*1 = order.
Proof. induction order as [|c order IH]; [done|]. cbn. by f_equal. Qed.

(** C1, as the specification words it, fails: when the store fails on the
    query of the patch stage, the run still returns and the document of
    the company keeps the totals it was written with. *)
Lemma unpatched_company_document :
  ~ totals_on_company_documents None (Example.seeded (Example.fails_at 13)).
Proof.
  intros H. unfold totals_on_company_documents in H.
  destruct (stages None (Example.seeded (Example.fails_at 13))) as [[a|e] w'] eqn:Hrun;
    vm_compute in Hrun; [|discriminate].
  specialize (H a w' eq_refl). injection Hrun as <- <-.
  destruct (H (mkCompany "Acme" 63849513600000000 0 0)) as (k & d & Hk & _ & Hb & _).
  { apply list_elem_of_here. }
  destruct k as [k|k|]; try (by destruct k); vm_compute in Hk; try discriminate.
  injection Hk as <-. vm_compute in Hb. discriminate.
Qed.


Import FirestoreService.

Lemma only_coll_bookkeeping name : Bookkeeping (only_coll name).
Proof.
  split.
  - by intros w.
  - intros w1 w2 w3 (?&?&?&Ha) (?&?&?&Hb). unfold only_coll.
    split_and!; [congruence..|]. intros other Hn. by rewrite Hb, Ha.
  - by intros f w.
  - by intros f w.
  - by intros f w.
  - by intros f w.
Qed.
#[global] Existing Instance only_coll_bookkeeping.

Lemma only_coll_allows name : allows_coll (only_coll name) name.
Proof.
  intros f w. unfold only_coll. split_and!; [done..|].
  intros other Hn. by apply coll_coll_step_ne.
Qed.

(** [update_document_by_field], exactly: it returns when it has a target,
    and raises an [ExternalServiceError] when it has none. *)
Lemma update_document_by_field_exact name field v fields w :
  exists r w',
    update_document_by_field name field v fields w = (r, w') /\
    update_by_match name field v fields w w' /\
    match update_target name field v w with
    | Some _ => r = Ok tt
    | None => exists msg, r = Raise (ExternalServiceError msg)
    end.
Proof.
  assert (Hst : stays (only_coll name) (update_document_by_field name field v fields)).
  { apply stays_update_document_by_field; [apply _|]. intros. apply only_coll_allows. }
  destruct (update_document_by_field name field v fields w) as [r w'] eqn:Hrun.
  exists r, w'. split; [done|].
  pose proof (stays_elim _ _ _ _ _ Hst Hrun) as Hfr.
  revert Hrun. unfold update_by_match, update_target, update_calls, first_match.
  cbv beta iota zeta delta [update_document_by_field catch bind stream_where rpc
    client_call get ret raise reference_update update_coll modify logger_warning
    logger_error].
  destruct (plan w (calls w)) as [|m1|e1]; cbv beta iota; cbn [refused fst snd].
  2:{ intros [= <- <-]. split; [|by eauto]. split_and!; try done.
      - simpl. lia.
      - simpl. by apply prefix_app_r. }
  all: rewrite coll_set_calls.
  all: destruct (filter _ (map_to_list (coll w name))) as [|[k d] rest] eqn:Hf;
    cbn [take head]; cbv beta iota.
  all: try (intros [= <- <-]; split; [|by eauto]; split_and!; try done;
            [simpl; lia | simpl; rewrite <- app_assoc; by apply prefix_app_r]).
  all: cbn [plan calls set_calls].
  all: destruct (plan w (S (calls w))) as [|m2|e2]; cbv beta iota; cbn [refused fst snd].
  all: intros [= <- <-]; (split; [|by eauto]); split_and!; try done.
  all: try (simpl; lia).
  all: try (simpl; by apply prefix_app_r).
  all: rewrite coll_coll_step, !coll_set_calls; unfold updated.
  all: assert (Hk : coll w name !! k = Some d)
    by (apply elem_of_map_to_list;
        assert (Hin : (k, d) ∈ filter (fun kd : positive * document =>
                                         field_is field v kd.2 = true)
                                      (map_to_list (coll w name)))
          by (rewrite Hf; left);
        by apply list_elem_of_filter in Hin as [_ Hin]).
  all: cbn [fst]; by rewrite Hk.
Qed.

(** The loop of the patch stage returns, whatever its counter, and leads
    through the entries. *)
Lemma patch_for ups :
  Forall (fun u => exists p v, update_with u p v) ups ->
  forall acc w, exists n w',
    for_ ups (fun (company_update : CompanyUpdate) (updated_count : nat) =>
      let company_name := company_update.1 in
      let update_data := company_update.2 in
      purchased_total <- first_total update_data "purchased" ;;
      provisioned_total <- first_total update_data "provisioned" ;;
      let update_fields : document :=
        {[ "boxes_bought" := VInt purchased_total;
           "boxes_prov" := VInt provisioned_total ]} in
      catch
        (_ <- FirestoreService.update_document_by_field
                "companies" "name" (VStr company_name) update_fields ;;
         ret (updated_count + 1)%nat)
        (fun e =>
           _ <- logger_error ("Failed to update company document for "
                              +:+ company_name) (Some (str e)) ;;
           ret updated_count)) acc w = (Ok n, w') /\
    patched ups w w'.
Proof.
  induction 1 as [|u ups (p & v & Huv) _ IH]; intros acc w.
  - exists acc, w. split; [done|constructor].
  - cbn [for_]. unfold bind at 1.
    destruct (first_total_update u p v w Huv) as [Hp Hv].
    cbv zeta. unfold bind at 1. rewrite Hp. unfold bind at 1. rewrite Hv.
    fold (totals_patch p v).
    destruct (update_document_by_field_exact "companies" "name" (VStr u.1)
                (totals_patch p v) w) as (r & w1 & Hrun & Hupd & Hres).
    unfold catch at 1, bind at 1. rewrite Hrun.
    destruct (update_target "companies" "name" (VStr u.1) w) as [[k d]|] eqn:Ht.
    + subst r. cbn [ret].
      destruct (IH (acc + 1)%nat w1) as (n & w' & Hloop & Hp').
      exists n, w'. split; [exact Hloop|].
      apply (patched_cons u p v ups w w1 w'); [done| |done].
      split; [done|]. by rewrite Ht.
    + destruct Hres as [msg ->].
      unfold bind at 1, logger_error at 1, modify at 1. cbn [ret].
      set (w2 := set_log _ w1).
      destruct (IH acc w2) as (n & w' & Hloop & Hp').
      exists n, w'. split; [exact Hloop|].
      apply (patched_cons u p v ups w w2 w'); [done| |done].
      split.
      * unfold update_by_match in *. rewrite Ht in *.
        destruct Hupd as (Hfr & Hc & Hs & Hsrc & Hcoll & Hlog).
        split_and!; try done. simpl. etrans; [exact Hlog|]. by apply prefix_app_r.
      * intros _. exists (ExternalServiceError msg). subst w2. simpl.
        by rewrite last_snoc.
Qed.

Lemma patch_stage_patched ups w :
  Forall (fun u => exists p v, update_with u p v) ups ->
  exists w', _update_company_docs_with_purchases_and_provisions ups w = (Ok tt, w') /\
             patched ups w w'.
Proof.
  intros Hwf. destruct (patch_for ups Hwf 0%nat w) as (n & w' & Hrun & Hp).
  exists w'. split; [|done].
  unfold _update_company_docs_with_purchases_and_provisions, bind at 1.
  match goal with
  | |- match ?c with _ => _ end = _ => replace c with (Ok n, w')
  end.
  done.
Qed.

Lemma field_is_named name (d : document) :
  d !! "name" = Some (VStr name) -> field_is "name" (VStr name) d = true.
Proof. unfold field_is. intros ->. simpl. apply String.eqb_refl. Qed.

Lemma update_with_inj u p v p' v' :
  update_with u p v -> update_with u p' v' -> p' = p /\ v' = v.
Proof.
  unfold update_with. intros H H'. rewrite H in H'.
  assert (H1 := f_equal (fun m : gmap string (list Z) => m !! "purchased") H').
  assert (H2 := f_equal (fun m : gmap string (list Z) => m !! "provisioned") H').
  cbv beta in H1, H2.
  rewrite !lookup_insert_eq in H1.
  rewrite !lookup_insert_ne, !lookup_singleton_eq in H2 by done.
  split; congruence.
Qed.

(** What one entry of the patch loop leaves *)
Lemma patch_entry_outcome name p v w w1 :
  patch_entry name p v w w1 ->
  only_coll "companies" w w1 /\ log_grows w w1 /\
  names_of (coll w1 "companies") = names_of (coll w "companies") /\
  (forall k d, d !! "name" <> Some (VStr name) ->
     coll w1 "companies" !! k = Some d <-> coll w "companies" !! k = Some d) /\
  (merged name p v w w1 \/
   (coll w1 "companies" = coll w "companies" /\
    exists e, patch_failed name e ∈ log w1)) /\
  (refused (plan w (calls w)) = false -> refused (plan w (S (calls w))) = false ->
   named name (coll w "companies") -> merged name p v w w1).
Proof.
  intros [(Hfr & _ & _ & _ & Hm) Hlast]. unfold update_target in *.
  destruct (refused (plan w (calls w))) eqn:R1.
  { destruct Hm as [Hc Hl]. destruct (Hlast eq_refl) as [e He].
    split_and!; [done|done|by rewrite Hc|by intros; rewrite Hc| |done].
    right. split; [done|]. exists e. apply last_Some in He as [l' ->]. set_solver. }
  destruct (first_match "name" (VStr name) (coll w "companies")) as [[k d]|] eqn:Hfm.
  2:{ destruct Hm as [Hc Hl]. destruct (Hlast eq_refl) as [e He].
      split_and!; [done|done|by rewrite Hc|by intros; rewrite Hc| |].
      - right. split; [done|]. exists e. apply last_Some in He as [l' ->]. set_solver.
      - intros _ _ (k & d & Hk & Hn). exfalso.
        pose proof (proj1 (first_match_None _ _ _) Hfm k d Hk) as Hno.
        by rewrite (field_is_named name d Hn) in Hno. }
  apply first_match_Some in Hfm as [Hk Hf]. apply field_is_name in Hf.
  destruct (refused (plan w (S (calls w)))) eqn:R2.
  { destruct Hm as [Hc Hl]. destruct (Hlast eq_refl) as [e He].
    split_and!; [done|done|by rewrite Hc|by intros; rewrite Hc| |done].
    right. split; [done|]. exists e. apply last_Some in He as [l' ->]. set_solver. }
  destruct Hm as [Hc Hl].
  assert (Hmerged : merged name p v w w1).
  { exists k, d. split_and!; [done..|]. by rewrite Hc, lookup_insert_eq. }
  split_and!; [done| | | |by left|done].
  - unfold log_grows. by rewrite Hl.
  - rewrite Hc. unfold names_of. rewrite fmap_insert, totals_patch_name.
    apply insert_id. by rewrite lookup_fmap, Hk.
  - intros k' d' Hn. rewrite Hc. destruct (decide (k = k')) as [<-|Hne].
    + rewrite lookup_insert_eq, Hk. split; intros [= <-]; exfalso; apply Hn;
        [by rewrite totals_patch_name|done].
    + by rewrite lookup_insert_ne.
Qed.

Lemma merged_name name p v w w' :
  merged name p v w w' ->
  exists k d', coll w' "companies" !! k = Some d' /\ d' !! "name" = Some (VStr name).
Proof.
  intros (k & d & _ & Hn & Hk). exists k, (totals_patch p v ∪ d).
  split; [done|]. by rewrite totals_patch_name.
Qed.

(** What the entries leave together, when no company has two entries *)
Lemma patched_outcome ups w w' :
  patched ups w w' -> NoDup ups.*1 ->
  only_coll "companies" w w' /\ log_grows w w' /\
  names_of (coll w' "companies") = names_of (coll w "companies") /\
  (forall k d, (forall u, u ∈ ups -> d !! "name" <> Some (VStr u.1)) ->
     coll w' "companies" !! k = Some d <-> coll w "companies" !! k = Some d) /\
  (forall u p v, u ∈ ups -> update_with u p v ->
     merged u.1 p v w w' \/ skipped u.1 w w') /\
  (healthy w -> forall u p v, u ∈ ups -> update_with u p v ->
     named u.1 (coll w "companies") -> merged u.1 p v w w').
Proof.
  induction 1 as [w|u p v ups w w1 w2 Huv Hentry Hrest IH]; intros Hnd.
  { split_and!; [reflexivity|reflexivity|done|done| |];
      intros; by match goal with H : _ ∈ [] |- _ => inversion H end. }
  cbn [fmap list_fmap] in Hnd. apply NoDup_cons in Hnd as [Hnew Hnd].
  destruct (IH Hnd) as (Hfr2 & Hlog2 & Hnames2 & Hkeep2 & Hall2 & Hhealthy2).
  destruct (patch_entry_outcome _ _ _ _ _ Hentry)
    as (Hfr1 & Hlog1 & Hnames1 & Hkeep1 & Hone1 & Hhealthy1).
  assert (Hother : forall u0, u0 ∈ ups -> u0.1 <> u.1).
  { intros u0 Hu0 Heq. apply Hnew. rewrite <- Heq. by apply list_elem_of_fmap_2. }
  (* the head entry, carried over the entries that follow *)
  assert (Hhead : forall k d, d !! "name" = Some (VStr u.1) ->
            coll w2 "companies" !! k = Some d <-> coll w1 "companies" !! k = Some d).
  { intros k d Hn. apply Hkeep2. intros u0 Hu0. rewrite Hn. intros [= Heq].
    by apply (Hother u0 Hu0). }
  assert (Hm1 : merged u.1 p v w w1 -> merged u.1 p v w w2).
  { intros (k & d & Hk & Hn & Hk1). exists k, d. split_and!; [done..|].
    apply Hhead; [by rewrite totals_patch_name|done]. }
  (* an entry that follows, read from the world before the head entry *)
  assert (Hback : forall u0 d, u0 ∈ ups -> d !! "name" = Some (VStr u0.1) ->
            forall k, coll w1 "companies" !! k = Some d <-> coll w "companies" !! k = Some d).
  { intros u0 d Hu0 Hn k. apply Hkeep1. rewrite Hn. intros [= Heq].
    by apply (Hother u0 Hu0). }
  assert (Hm2 : forall u0 p0 v0, u0 ∈ ups -> merged u0.1 p0 v0 w1 w2 ->
                                 merged u0.1 p0 v0 w w2).
  { intros u0 p0 v0 Hu0 (k & d & Hk & Hn & Hk2). exists k, d.
    split_and!; [|done..]. by apply (Hback u0 d Hu0 Hn). }
  split_and!.
  - by etrans.
  - by etrans.
  - by rewrite Hnames2.
  - intros k d Hno. rewrite Hkeep2 by (intros u0 Hu0; apply Hno; by right).
    apply Hkeep1, Hno. by left.
  - intros u0 p0 v0 Hu0 Huv0. apply elem_of_cons in Hu0 as [->|Hu0].
    + destruct (update_with_inj _ _ _ _ _ Huv Huv0) as [-> ->].
      destruct Hone1 as [Hm|[Hc [e He]]]; [left; by apply Hm1|].
      right. split.
      * intros k d Hk Hn. apply Hhead; [done|]. by rewrite Hc.
      * exists e. destruct Hlog2 as [l ->]. set_solver.
    + destruct (Hall2 u0 p0 v0 Hu0 Huv0) as [Hm|[Hsame Hfail]]; [left; by apply Hm2|].
      right. split; [|done].
      intros k d Hk Hn. apply Hsame; [|done]. by apply (Hback u0 d Hu0 Hn).
  - intros Hh u0 p0 v0 Hu0 Huv0 Hnamed.
    assert (Hr : forall n, refused (plan w n) = false) by (intros n; by rewrite Hh).
    apply elem_of_cons in Hu0 as [->|Hu0].
    + destruct (update_with_inj _ _ _ _ _ Huv Huv0) as [-> ->].
      apply Hm1, Hhealthy1; done.
    + apply Hm2; [done|]. apply Hhealthy2; [|done..|].
      * intros n. destruct Hfr1 as (_ & _ & -> & _). apply Hh.
      * destruct Hnamed as (k & d & Hk & Hn). exists k, d. split; [|done].
        by apply (Hback u0 d Hu0 Hn).
Qed.

(** C8. The patch stage always returns, whatever the store does, and it
    leads through its entries one after the other: each entry is the
    update by match of its two totals on the document that the query
    [name == company] yields first at that moment, and it goes through
    exactly when the client answers the query, a document matches and the
    client answers the update; otherwise no document changes, the failure
    is logged, and the loop goes on with the next entry.  So every entry
    has either merged its totals into a document that its company had, or
    left the documents of its company alone and its failure in the log;
    when every call succeeds, the entries of the companies that have a
    document are the merged ones.  Documents of other companies, other
    collections and the tables are never touched.  An update by match
    that returns has replaced, in the first document whose field has the
    value, the fields of the patch and no other field, and has left every
    other document as it was; it raises, and changes nothing, when no
    document matches or a call fails; it returns whenever it has a
    target. *)
Theorem patch_failures_are_skipped (ups : list CompanyUpdate) (w : World) :
  Forall (fun u => exists p v, update_with u p v) ups ->
  NoDup ups.*1 ->
  (exists w',
     _update_company_docs_with_purchases_and_provisions ups w = (Ok tt, w') /\
     patched ups w w' /\
     (forall u, u ∈ ups ->
        exists p v, update_with u p v /\
          ((exists k d, coll w' "companies" !! k = Some (totals_patch p v ∪ d) /\
                        d !! "name" = Some (VStr u.1))
           \/ exists e, patch_failed u.1 e ∈ log w')) /\
     (forall u p v, u ∈ ups -> update_with u p v ->
        merged u.1 p v w w' \/ skipped u.1 w w') /\
     (healthy w -> forall u p v, u ∈ ups -> update_with u p v ->
        (named u.1 (coll w "companies") -> merged u.1 p v w w') /\
        (~ named u.1 (coll w "companies") -> skipped u.1 w w')) /\
     (forall k d, (forall u, u ∈ ups -> d !! "name" <> Some (VStr u.1)) ->
        coll w' "companies" !! k = Some d <-> coll w "companies" !! k = Some d) /\
     only_coll "companies" w w') /\
  (forall name field value fields r w',
     FirestoreService.update_document_by_field name field value fields w = (r, w') ->
     match r with
     | Ok _ =>
         exists k d,
           first_match field value (coll w name) = Some (k, d) /\
           coll w name !! k = Some d /\
           FirestoreService.field_is field value d = true /\
           (forall d', coll w' name !! k = Some d' <->
                       d' = fields ∪ d) /\
           (forall f, (fields ∪ d) !! f =
                      match fields !! f with Some x => Some x | None => d !! f end) /\
           (forall k', k' <> k -> coll w' name !! k' = coll w name !! k')
     | Raise e => coll w' name = coll w name
     end) /\
  (forall name field value fields,
     (forall k d, coll w name !! k = Some d ->
                  FirestoreService.field_is field value d = false) ->
     exists msg w',
       FirestoreService.update_document_by_field name field value fields w
       = (Raise (ExternalServiceError msg), w') /\
       coll w' name = coll w name) /\
  (forall name field value fields,
     exists r w',
       FirestoreService.update_document_by_field name field value fields w = (r, w') /\
       update_by_match name field value fields w w' /\
       match update_target name field value w with
       | Some _ => r = Ok tt
       | None => exists msg, r = Raise (ExternalServiceError msg)
       end).
Proof.
  intros Hwf Hnd. split_and!.
  - destruct (patch_stage_patched ups w Hwf) as (w' & Hrun & Hp).
    destruct (patched_outcome ups w w' Hp Hnd)
      as (Hfr & Hlog & Hnames & Hkeep & Hall & Hhealthy).
    exists w'. split_and!; [done|done| |done| |done|done].
    + intros u Hu. rewrite Forall_forall in Hwf. destruct (Hwf u Hu) as (p & v & Huv).
      exists p, v. split; [done|].
      destruct (Hall u p v Hu Huv) as [(k & d & Hk & Hn & Hk')|[_ He]]; [|by right].
      left. by exists k, d.
    + intros Hh u p v Hu Huv. split; [by apply Hhealthy|].
      intros Hno. destruct (Hall u p v Hu Huv) as [(k & d & Hk & Hn & _)|Hs]; [|done].
      exfalso. apply Hno. by exists k, d.
  - intros name field value fields r w' Hrun.
    pose proof (update_document_by_field_spec name field value fields w) as Hspec.
    apply (wp_elim _ _ _ _ _ Hrun) in Hspec.
    destruct r as [[]|e]; [|by destruct Hspec].
    destruct Hspec as (k & d & Hfm & Hc & _).
    exists k, d. destruct (first_match_Some _ _ _ _ _ Hfm) as [Hk Hf].
    split_and!; [done|done|done| | |].
    + intros d'. rewrite Hc, lookup_insert_eq. split; congruence.
    + intros f. rewrite lookup_union. by destruct (fields !! f), (d !! f).
    + intros k' Hne. rewrite Hc. by rewrite lookup_insert_ne.
  - intros name field value fields Hnone.
    pose proof (update_document_by_field_spec name field value fields w) as Hspec.
    unfold wp in Hspec.
    destruct (FirestoreService.update_document_by_field name field value fields w)
      as [[[]|e] w'] eqn:Hrun; simpl in Hspec.
    + destruct Hspec as (k & d & Hfm & _).
      apply first_match_None in Hnone. congruence.
    + destruct Hspec as [Hc [msg ->]]. eauto.
  - intros name field value fields. apply update_document_by_field_exact.
Qed.

Lemma patch_failures_are_skipped_witness :
  Forall (fun u => exists p v, update_with u p v)
         [Example.bolt_update; Example.acme_update] /\
  NoDup [Example.bolt_update; Example.acme_update].*1 /\
  healthy Example.acme_only /\
  exists w',
    _update_company_docs_with_purchases_and_provisions
      [Example.bolt_update; Example.acme_update] Example.acme_only = (Ok tt, w') /\
    skipped "Bolt" Example.acme_only w' /\
    merged "Acme" 1 1 Example.acme_only w'.
Proof.
  assert (H1 : Forall (fun u => exists p v, update_with u p v)
                      [Example.bolt_update; Example.acme_update]).
  { constructor; [by exists 3, 2|]. constructor; [by exists 1, 1|constructor]. }
  assert (H2 : NoDup [Example.bolt_update; Example.acme_update].*1).
  { simpl. apply NoDup_cons. split; [|apply NoDup_singleton].
    intros H. apply list_elem_of_singleton in H. discriminate H. }
  assert (H3 : healthy Example.acme_only) by (intros n; reflexivity).
  split; [exact H1|]. split; [exact H2|]. split; [exact H3|].
  destruct (proj1 (patch_failures_are_skipped
                     [Example.bolt_update; Example.acme_update] Example.acme_only H1 H2))
    as (w' & Hrun & _ & _ & _ & Hh & _).
  exists w'. split; [exact Hrun|]. split.
  - apply (Hh H3 Example.bolt_update 3 2); [left|reflexivity|].
    intros (k & d & Hk & Hn).
    change (coll Example.acme_only "companies")
      with ({[ 1%positive := Example.acme_doc ]} : collection) in Hk.
    apply lookup_singleton_Some in Hk as [_ <-]. vm_compute in Hn. discriminate Hn.
  - apply (Hh H3 Example.acme_update 1 1); [right; left|reflexivity|].
    exists 1%positive, Example.acme_doc. split; reflexivity.
Defined.

(** ** The totals on the company documents, company by company *)

Lemma same_plan_bookkeeping : Bookkeeping same_plan.
Proof.
  split.
  - by intros w.
  - intros w1 w2 w3 H1 H2. unfold same_plan in *. congruence.
  - by intros f w.
  - by intros f w.
  - by intros f w.
  - by intros f w.
Qed.
#[global] Existing Instance same_plan_bookkeeping.

Lemma same_plan_coll name : allows_coll same_plan name.
Proof. by intros f w. Qed.

Lemma same_plan_tables : allows_tables same_plan.
Proof. by intros f w. Qed.

Lemma create_company_docs_zero {S} users (s : S) :
  wp (_create_company_docs users)
     (if_returns (fun cs _ =>
        Forall (fun c => c_boxes_bought c = 0 /\ c_boxes_prov c = 0) cs)) s.
Proof.
  unfold _create_company_docs.
  eapply wp_mono.
  { apply (wp_for_if_returns
             (fun _ cs _ => Forall (fun c => c_boxes_bought c = 0 /\ c_boxes_prov c = 0) cs)
             _ _ []); [done|].
    intros pre' [name us] cs s' _ Hcs.
    unfold min_of. destruct (u_reg_date <$> us) as [|x xs]; [done|].
    apply wp_bind, wp_ret, wp_ret. apply Forall_app. split; [done|].
    by apply Forall_singleton. }
  by intros [cs|e] s'.
Qed.

Lemma create_company_collection_zero users w cs w' :
  _create_company_collection users w = (Ok cs, w') ->
  Forall (fun c => c_boxes_bought c = 0 /\ c_boxes_prov c = 0) cs.
Proof.
  unfold _create_company_collection. unfold bind at 1.
  destruct (delete_existing "company" "companies" w) as [[[]|e] w1]; [|done].
  unfold bind at 1.
  destruct (_create_company_docs users w1) as [[cs'|e] w2] eqn:Hd; [|done].
  unfold bind at 1.
  destruct (write_new "company" "companies" (company_doc <$> cs') w2) as [[[]|e] w3];
    [|done].
  intros [= <- <-].
  pose proof (create_company_docs_zero users w1) as H.
  by apply (wp_elim _ _ _ _ _ Hd) in H.
Qed.

(** Every document that was written is in the collection. *)
Lemma written_elem (docs : list document) d :
  d ∈ docs -> exists k, written docs ∅ !! k = Some d.
Proof.
  intros Hd.
  assert (Hperm : (map_to_list (written docs ∅)).*2 ≡ₚ docs).
  { rewrite written_values. by rewrite map_to_list_empty. }
  rewrite <- Hperm in Hd. apply list_elem_of_fmap in Hd as ([k d'] & -> & Hin).
  exists k. by apply elem_of_map_to_list in Hin.
Qed.

Lemma stream_purchased_nonneg c st :
  Forall (event_of c) st -> 0 <= sum_with purchased_of st.
Proof.
  induction 1 as [|e st [_ He] _ IH]; simpl; [done|].
  unfold purchased_of at 1. destruct (ce_type e); [|lia].
  destruct He as (n & -> & Hn). simpl. lia.
Qed.

Lemma stream_purchased_pos c st : company_stream c st -> 1 <= sum_with purchased_of st.
Proof.
  intros ([e0 [Hhead Hty]] & Hall & _). destruct st as [|e st]; [done|].
  injection Hhead as ->. apply Forall_cons in Hall as [[_ He] Hall].
  pose proof (stream_purchased_nonneg c st Hall). simpl.
  unfold purchased_of at 1. rewrite Hty in He |- *.
  destruct He as (n & -> & Hn). simpl. lia.
Qed.

(** Every company of the streams has bought at least one box. *)
Lemma streams_purchased streams names c :
  Forall2 (fun n st => company_stream n st) names streams ->
  0 <= total_purchased c (concat streams) /\
  (c ∈ names -> 1 <= total_purchased c (concat streams)).
Proof.
  unfold total_purchased.
  induction 1 as [|n st names streams Hst _ IH]; simpl; [split; [done|by inversion 1]|].
  rewrite events_of_app, !sum_with_app. destruct IH as [IH0 IH1].
  pose proof Hst as (_ & Hall & _).
  destruct (decide (c = n)) as [->|Hne].
  - rewrite events_of_same by done. pose proof (stream_purchased_pos n st Hst).
    split; [lia|]. intros _. lia.
  - rewrite (events_of_other c n) by done. simpl. split; [done|].
    intros Hc. apply elem_of_cons in Hc as [?|Hc]; [done|]. by apply IH1.
Qed.

(** C1, amended: after a run of the stages that returns, from a store
    whose collection [companies] held at most 2000 documents, every
    generated company has exactly one document of its name.  The company
    has bought at least one box, and its document carries the totals of
    its events: [boxes_bought] and [boxes_prov] are the sums of the
    purchased and of the provisioned quantities over the events generated
    for the company; or else it has kept the zeros it was written with,
    and the log holds the failure of the patch stage for that company.  So
    the document of a company for which no such failure is logged carries
    the totals, whatever became of the other companies; and when every
    client call of the run succeeds, the document of every company carries
    the totals. *)
Theorem company_documents_carry_the_totals
    (user_limit : option nat) (w : World) (a : Artifacts) (w' : World) :
  stages user_limit w = (Ok a, w') ->
  (size (coll w "companies") <= 2000)%nat ->
  forall c, c ∈ a_companies a ->
    exists k d,
      coll w' "companies" !! k = Some d /\
      d !! "name" = Some (VStr (c_name c)) /\
      (forall k' d', coll w' "companies" !! k' = Some d' ->
                     d' !! "name" = Some (VStr (c_name c)) -> k' = k) /\
      1 <= total_purchased (c_name c) (a_company_events a) /\
      ((d !! "boxes_bought"
        = Some (VInt (total_purchased (c_name c) (a_company_events a))) /\
        d !! "boxes_prov"
        = Some (VInt (total_provisioned (c_name c) (a_company_events a))))
       \/ (d !! "boxes_bought" = Some (VInt 0) /\ d !! "boxes_prov" = Some (VInt 0) /\
           exists e, patch_failed (c_name c) e ∈ log w')) /\
      ((forall e, patch_failed (c_name c) e ∉ log w') ->
       d !! "boxes_bought"
       = Some (VInt (total_purchased (c_name c) (a_company_events a))) /\
       d !! "boxes_prov"
       = Some (VInt (total_provisioned (c_name c) (a_company_events a)))) /\
      (healthy w ->
       d !! "boxes_bought"
       = Some (VInt (total_purchased (c_name c) (a_company_events a))) /\
       d !! "boxes_prov"
       = Some (VInt (total_provisioned (c_name c) (a_company_events a)))).
Proof.
  intros Hrun Hsz c Hc.
  destruct (stages_inv _ _ _ _ Hrun)
    as (w1 & w2 & w3 & w4 & w5 & w6 & w7 & w8 & w9 & w10 & w11 &
        H1 & H2 & H3 & H4 & H5 & H6 & H7 & H8 & H9 & H10 & H11 & H12).
  set (evs := a_company_events a) in *. set (ups := a_company_updates a) in *.
  (* the collection after the companies stage *)
  assert (S1 : same_companies w w1).
  { eapply stays_elim; [|exact H1].
    apply stays_create_user_collection; [apply _|]. by apply same_companies_coll. }
  pose proof (create_company_collection_returns (a_users a) w1) as C2.
  apply (wp_elim _ _ _ _ _ H2) in C2; [|by rewrite S1].
  destruct C2 as [Hnd Hc2].
  pose proof (create_company_collection_zero _ _ _ _ H2) as Hzero.
  (* it is the same when the patch stage starts *)
  assert (S9 : same_companies w2 w9).
  { assert (S3 : same_companies w2 w3).
    { eapply stays_elim; [|exact H3].
      apply stays_create_projects_collection; [apply _|]. by apply same_companies_coll. }
    assert (S4 : same_companies w3 w4).
    { eapply stays_elim; [|exact H4].
      apply stays_create_trending_collection; [apply _|]. by apply same_companies_coll. }
    assert (S5 : same_companies w4 w5).
    { eapply stays_elim; [|exact H5]. apply stays_lift_src. apply _. }
    assert (S6 : same_companies w5 w6).
    { eapply stays_elim; [|exact H6].
      apply stays_clear_bigquery_tables; [apply _|]. apply same_companies_tables. }
    assert (S7 : same_companies w6 w7).
    { eapply stays_elim; [|exact H7].
      apply stays_write_events; [apply _|]. apply same_companies_tables. }
    assert (S8 : same_companies w7 w8).
    { eapply stays_elim; [|exact H8]. apply stays_generate_company_updates. apply _. }
    assert (S9 : same_companies w8 w9).
    { eapply stays_elim; [|exact H9].
      apply stays_create_renewals_collection; [apply _|]. by apply same_companies_coll. }
    unfold same_companies in *. congruence. }
  (* the events and the entries *)
  destruct (wp_returns_inv _ _ _
              (generate_company_events_streams (a_companies a) (src w4)))
    as (evs' & s5 & Hgen & streams & -> & Hstreams).
  pose proof H5 as H5'.
  unfold lift_src in H5. rewrite Hgen in H5. injection H5 as Hevs _.
  assert (Hst : Forall2 (fun n st => company_stream n st)
                        (c_name <$> a_companies a) streams).
  { by apply Forall2_fmap_l. }
  assert (Hq : Forall has_quantity evs).
  { rewrite <- Hevs. by apply (generated_events_have_quantity (c_name <$> a_companies a)). }
  assert (Hbought : 1 <= total_purchased (c_name c) evs).
  { rewrite <- Hevs. eapply streams_purchased; [exact Hst|].
    by apply list_elem_of_fmap_2. }
  destruct (wp_returns_inv _ _ _ (generate_company_updates_spec evs w7 Hq))
    as (ups' & w8' & Hups & _ & order & -> & Hord & Horder).
  pose proof H8 as H8'.
  rewrite Hups in H8. injection H8 as Hups' _.
  assert (Hin : update_for evs (c_name c) ∈ ups).
  { rewrite <- Hups'. apply list_elem_of_fmap_2, Horder.
    rewrite <- Hevs. by eapply company_in_streams. }
  (* the patch stage *)
  destruct (patch_stage_patched ups w9) as (w10' & H10' & Hpatched).
  { rewrite <- Hups'. apply Forall_fmap, Forall_forall. intros c0 _.
    by exists (total_purchased c0 evs), (total_provisioned c0 evs). }
  rewrite H10 in H10'. injection H10' as <-.
  destruct (patched_outcome ups w9 w10 Hpatched)
    as (_ & L10 & Hnames & _ & Htot & Hhealthy).
  { rewrite <- Hups'. by rewrite update_for_names. }
  (* the plan of the replies when the patch stage starts *)
  assert (P9 : same_plan w w9).
  { assert (P1 : same_plan w w1).
    { eapply stays_elim; [|exact H1].
      apply stays_create_user_collection; [apply _|]. apply same_plan_coll. }
    assert (P2 : same_plan w1 w2).
    { eapply stays_elim; [|exact H2].
      apply stays_create_company_collection; [apply _|]. apply same_plan_coll. }
    assert (P3 : same_plan w2 w3).
    { eapply stays_elim; [|exact H3].
      apply stays_create_projects_collection; [apply _|]. apply same_plan_coll. }
    assert (P4 : same_plan w3 w4).
    { eapply stays_elim; [|exact H4].
      apply stays_create_trending_collection; [apply _|]. apply same_plan_coll. }
    assert (P5 : same_plan w4 w5).
    { eapply stays_elim; [|exact H5']. apply stays_lift_src. apply _. }
    assert (P6 : same_plan w5 w6).
    { eapply stays_elim; [|exact H6].
      apply stays_clear_bigquery_tables; [apply _|]. apply same_plan_tables. }
    assert (P7 : same_plan w6 w7).
    { eapply stays_elim; [|exact H7].
      apply stays_write_events; [apply _|]. apply same_plan_tables. }
    assert (P8 : same_plan w7 w8).
    { eapply stays_elim; [|exact H8']. apply stays_generate_company_updates. apply _. }
    assert (P9 : same_plan w8 w9).
    { eapply stays_elim; [|exact H9].
      apply stays_create_renewals_collection; [apply _|]. apply same_plan_coll. }
    unfold same_plan in *. congruence. }
  (* the stages after it *)
  assert (S12 : same_companies w10 w').
  { assert (S11 : same_companies w10 w11).
    { eapply stays_elim; [|exact H11]. apply stays_lift_src. apply _. }
    assert (S12 : same_companies w11 w').
    { eapply stays_elim; [|exact H12].
      apply stays_write_events; [apply _|]. apply same_companies_tables. }
    unfold same_companies in *. congruence. }
  assert (L12 : log_grows w10 w').
  { assert (L11 : log_grows w10 w11).
    { eapply stays_elim; [|exact H11]. apply stays_lift_src. apply _. }
    assert (L12 : log_grows w11 w').
    { eapply stays_elim; [|exact H12].
      apply stays_write_events; [apply _|]. apply log_grows_tables. }
    by etrans. }
  assert (Huniq : names_unique (coll w' "companies")).
  { rewrite S12. eapply names_unique_names_of; [exact Hnames|].
    rewrite S9, Hc2. by apply written_names_unique. }
  (* the document that the companies stage wrote for the company *)
  destruct (written_elem (company_doc <$> a_companies a) (company_doc c)) as [k0 Hk0];
    [by apply list_elem_of_fmap_2|].
  rewrite <- Hc2, <- S9 in Hk0.
  rewrite Forall_forall in Hzero. destruct (Hzero c Hc) as [Hzb Hzp].
  assert (Hdoc : exists k d,
    coll w' "companies" !! k = Some d /\ d !! "name" = Some (VStr (c_name c)) /\
    ((d !! "boxes_bought" = Some (VInt (total_purchased (c_name c) evs)) /\
      d !! "boxes_prov" = Some (VInt (total_provisioned (c_name c) evs)))
     \/ (d !! "boxes_bought" = Some (VInt 0) /\ d !! "boxes_prov" = Some (VInt 0) /\
         exists e, patch_failed (c_name c) e ∈ log w'))).
  { destruct (Htot (update_for evs (c_name c)) (total_purchased (c_name c) evs)
                (total_provisioned (c_name c) evs) Hin eq_refl)
      as [(k & d & Hk & Hname & Hk')|[Hsame (e & He)]]; cbn [fst update_for] in *.
    - exists k, (totals_patch (total_purchased (c_name c) evs)
                              (total_provisioned (c_name c) evs) ∪ d).
      split_and!; [by rewrite S12|by rewrite totals_patch_name|].
      left. split; [apply totals_patch_bought|apply totals_patch_prov].
    - exists k0, (company_doc c). split_and!.
      + rewrite S12. by apply Hsame.
      + done.
      + right. unfold company_doc. rewrite Hzb, Hzp. split_and!; [done..|].
        exists e. destruct L12 as [l ->]. set_solver. }
  destruct Hdoc as (k & d & Hk & Hname & Hcase).
  assert (Hone : forall k' d', coll w' "companies" !! k' = Some d' ->
                   d' !! "name" = Some (VStr (c_name c)) -> k' = k).
  { intros k' d' Hk2 Hn2. apply (Huniq k' k _ _ Hk2 Hk). congruence. }
  exists k, d. split_and!; [done|done|done|done|done| |].
  - intros Hno. destruct Hcase as [?|(_ & _ & e & He)]; [done|].
    by destruct (Hno e).
  - intros Hh.
    assert (Hh9 : healthy w9) by (intros n; rewrite P9; apply Hh).
    destruct (Hhealthy Hh9 (update_for evs (c_name c)) (total_purchased (c_name c) evs)
                (total_provisioned (c_name c) evs) Hin eq_refl)
      as (k1 & d1 & Hk1 & Hn1 & Hk1'); cbn [fst update_for] in *.
    { by exists k0, (company_doc c). }
    rewrite <- S12 in Hk1'.
    assert (k1 = k) as ->.
    { apply (Hone k1 _ Hk1'). by rewrite totals_patch_name. }
    rewrite Hk in Hk1'. injection Hk1' as ->.
    split; [apply totals_patch_bought|apply totals_patch_prov].
Qed.

Lemma company_documents_carry_the_totals_witness :
  stages None (Example.pair_seeded (Example.fails_at 15))
  = (Ok mixed_artifacts, mixed_final) /\
  (size (coll (Example.pair_seeded (Example.fails_at 15)) "companies") <= 2000)%nat /\
  (exists e, patch_failed "Bolt" e ∈ log mixed_final) /\
  forall c, c ∈ a_companies mixed_artifacts -> c_name c = "Acme" ->
    exists k d,
      coll mixed_final "companies" !! k = Some d /\
      d !! "name" = Some (VStr "Acme") /\
      (forall k' d', coll mixed_final "companies" !! k' = Some d' ->
                     d' !! "name" = Some (VStr "Acme") -> k' = k) /\
      d !! "boxes_bought"
      = Some (VInt (total_purchased "Acme" (a_company_events mixed_artifacts))) /\
      d !! "boxes_prov"
      = Some (VInt (total_provisioned "Acme" (a_company_events mixed_artifacts))).
Proof.
  assert (Hrun : stages None (Example.pair_seeded (Example.fails_at 15))
                 = (Ok mixed_artifacts, mixed_final)) by (vm_compute; reflexivity).
  assert (Hsz : (size (coll (Example.pair_seeded (Example.fails_at 15)) "companies")
                 <= 2000)%nat) by (vm_compute; lia).
  assert (Hl : log mixed_final
               = [mkLog warning "No documents to write" None;
                  mkLog error "Failed to update document with name='Bolt' in collection companies"
                        (Some "unavailable");
                  patch_failed "Bolt"
                    (ExternalServiceError
                       "Failed to update document with name='Bolt': unavailable")])
    by (vm_compute; reflexivity).
  split; [exact Hrun|]. split; [exact Hsz|]. split.
  { eexists. rewrite Hl. do 2 right. left. }
  intros c Hc Hname.
  destruct (company_documents_carry_the_totals None _ _ _ Hrun Hsz c Hc)
    as (k & d & Hk & Hn & Hu & _ & _ & Htot & _).
  rewrite Hname in Hn, Hu, Htot.
  exists k, d. split_and!; [exact Hk|exact Hn|exact Hu|apply Htot|apply Htot].
  all: intros e Hin; rewrite Hl in Hin.
  all: repeat (apply elem_of_cons in Hin as [Hin|Hin]; [discriminate Hin|]).
  all: inversion Hin.
Defined.

(** ** The ingest, chunk by chunk *)

Import BigQueryService.

(** One attempt, exactly *)
Lemma attempt_exact t batch k total w :
  exists r w',
    insert_attempt t batch k total w = (r, w') /\
    calls w' = S (calls w) /\ plan w' = plan w /\
    collections w' = collections w /\ seed_rows w' = seed_rows w /\
    match error_str (plan w (calls w)) with
    | None =>
        r = Ok (Break (total + length batch)%nat) /\
        tables w' = appended t batch (tables w) /\ slept w' = slept w
    | Some text =>
        tables w' = tables w /\
        if transient (plan w (calls w)) && (k <? max_retries - 1)
        then r = Ok (Continue total) /\ slept w' = slept w ++ [2 ^ k]
        else slept w' = slept w /\ exists ex, r = Raise ex /\ str ex = text
    end.
Proof.
  cbv beta iota zeta delta [insert_attempt catch bind insert_rows_json client_call ret
                            raise logger_error logger_warning sleep modify].
  unfold transient, error_str.
  destruct (plan w (calls w)) as [|msg|errors]; cbv beta iota; cbn [fst snd str].
  - eexists _, _. split; [reflexivity|]. by cbn.
  - destruct (contains "not found" (lower msg) && (k <? max_retries - 1)) eqn:E;
      cbv beta iota; eexists _, _; (split; [reflexivity|]); cbn; split_and!; try done.
    + unfold base_delay. by rewrite Z.mul_1_l.
    + by eexists.
  - destruct (contains "not found" (lower _) && (k <? max_retries - 1)) eqn:E;
      cbv beta iota; eexists _, _; (split; [reflexivity|]); cbn; split_and!; try done.
    + unfold base_delay. by rewrite Z.mul_1_l.
    + by eexists.
Qed.

Lemma range2_cons lo hi : lo < hi -> range2 lo hi = lo :: range2 (lo + 1) hi.
Proof.
  intros Hlt. unfold range2.
  replace (Z.to_nat (hi - lo)) with (S (Z.to_nat (hi - (lo + 1)))) by lia.
  cbn [seq fmap list_fmap]. f_equal; [lia|].
  rewrite <- fmap_S_seq, <- list_fmap_compose. apply list_fmap_ext.
  intros _ i _. simpl. lia.
Qed.

(** The attempts on a batch from the attempt [k] on are those of the
    specification with the retries that are left. *)
Lemma attempts_spec t batch total retries :
  forall k w e n sleeps,
    k = 2 - Z.of_nat retries -> 0 <= k ->
    spec_insert_chunk retries (2 ^ k) (plan w) (calls w) = (e, n, sleeps) ->
    exists r w',
      for_break (range2 k max_retries) (insert_attempt t batch) total w = (r, w') /\
      calls w' = (calls w + n)%nat /\ plan w' = plan w /\
      collections w' = collections w /\ seed_rows w' = seed_rows w /\
      slept w' = slept w ++ sleeps /\
      match e with
      | ChunkIn =>
          r = Ok (total + length batch)%nat /\ tables w' = appended t batch (tables w)
      | ChunkFailed text => tables w' = tables w /\ exists ex, r = Raise ex /\ str ex = text
      end.
Proof.
  induction retries as [|retries IH]; intros k w e n sleeps Hk Hk0 Hspec.
  - assert (k = 2) as -> by lia. change (range2 2 max_retries) with [2].
    cbn [for_break]. unfold bind at 1.
    destruct (attempt_exact t batch 2 total w)
      as (r & w' & Hrun & Hc & Hp & Hcs & Hsr & Hcase).
    rewrite Hrun. cbn [spec_insert_chunk] in Hspec.
    destruct (error_str (plan w (calls w))) as [text|].
    + injection Hspec as <- <- <-. destruct Hcase as [Ht Hcase].
      rewrite andb_false_r in Hcase. destruct Hcase as (Hs & ex & -> & Hex).
      exists (Raise ex), w'. rewrite app_nil_r.
      split_and!; try done; try lia. by exists ex.
    + injection Hspec as <- <- <-. destruct Hcase as (-> & Ht & Hs).
      exists (Ok (total + length batch)%nat), w'. rewrite app_nil_r.
      split_and!; try done; lia.
  - rewrite range2_cons by (unfold max_retries; lia).
    cbn [for_break]. unfold bind at 1.
    destruct (attempt_exact t batch k total w)
      as (r & w1 & Hrun & Hc & Hp & Hcs & Hsr & Hcase).
    rewrite Hrun. cbn [spec_insert_chunk] in Hspec.
    destruct (error_str (plan w (calls w))) as [text|].
    2:{ injection Hspec as <- <- <-. destruct Hcase as (-> & Ht & Hs).
        exists (Ok (total + length batch)%nat), w1. rewrite app_nil_r.
        split_and!; try done; lia. }
    destruct Hcase as [Ht Hcase].
    replace (k <? max_retries - 1) with true in Hcase
      by (symmetry; apply Z.ltb_lt; unfold max_retries; lia).
    rewrite andb_true_r in Hcase.
    destruct (transient (plan w (calls w))).
    2:{ injection Hspec as <- <- <-. destruct Hcase as (Hs & ex & -> & Hex).
        exists (Raise ex), w1. rewrite app_nil_r.
        split_and!; try done; try lia. by exists ex. }
    destruct Hcase as [-> Hs].
    destruct (spec_insert_chunk retries (2 * 2 ^ k) (plan w) (S (calls w)))
      as [[e' n'] sleeps'] eqn:Hrest.
    injection Hspec as <- <- <-.
    destruct (IH (k + 1) w1 e' n' sleeps') as (r & w' & Hrun' & Hc' & Hp' & Hcs' & Hsr' & Hs' & He');
      [lia|lia| |].
    { rewrite Hp, Hc. rewrite <- Hrest. f_equal. rewrite Z.pow_add_r by lia. lia. }
    exists r, w'. split; [done|]. split; [lia|]. split; [congruence|].
    split; [congruence|]. split; [congruence|]. split.
    + rewrite Hs', Hs, <- app_assoc. done.
    + destruct e'; by rewrite <- Ht.
Qed.

Lemma insert_batch_spec t rows i total w e n sleeps :
  spec_insert_chunk 2 1 (plan w) (calls w) = (e, n, sleeps) ->
  exists r w',
    insert_batch t rows i total w = (r, w') /\
    calls w' = (calls w + n)%nat /\ plan w' = plan w /\
    collections w' = collections w /\ seed_rows w' = seed_rows w /\
    slept w' = slept w ++ sleeps /\
    match e with
    | ChunkIn =>
        r = Ok (total + length (batch_at rows i))%nat /\
        tables w' = appended t (batch_at rows i) (tables w)
    | ChunkFailed text => tables w' = tables w /\ exists ex, r = Raise ex /\ str ex = text
    end.
Proof.
  intros Hspec. unfold insert_batch. fold (batch_at rows i).
  apply (attempts_spec t (batch_at rows i) total 2 0 w e n sleeps); [done|done|done].
Qed.

Lemma rows_of_appended t batch w f :
  tables w = appended t batch (tables (f : World)) ->
  rows_of w t = rows_of f t ++ batch /\
  forall t', t' <> t -> tables w !! t' = tables f !! t'.
Proof.
  intros H. unfold rows_of. rewrite H, appended_rows. split; [done|].
  intros t' Hne. unfold appended. by rewrite lookup_insert_ne.
Qed.

Lemma batches_spec t rows offsets :
  forall total w failure inserted n sleeps,
    spec_insert (plan w) (calls w) (batch_at rows <$> offsets)
    = (failure, inserted, n, sleeps) ->
    exists r w',
      for_ offsets (insert_batch t rows) total w = (r, w') /\
      calls w' = (calls w + n)%nat /\ plan w' = plan w /\
      collections w' = collections w /\ seed_rows w' = seed_rows w /\
      slept w' = slept w ++ sleeps /\
      rows_of w' t = rows_of w t ++ inserted /\
      (forall t', t' <> t -> tables w' !! t' = tables w !! t') /\
      match failure with
      | None => r = Ok (total + length inserted)%nat
      | Some text => exists ex, r = Raise ex /\ str ex = text
      end.
Proof.
  induction offsets as [|i offsets IH]; intros total w failure inserted n sleeps Hspec.
  - injection Hspec as <- <- <- <-. exists (Ok total), w.
    rewrite !app_nil_r. split_and!; try done; simpl; f_equal; lia.
  - cbn [fmap list_fmap spec_insert] in Hspec.
    destruct (spec_insert_chunk 2 1 (plan w) (calls w)) as [[e n1] sl1] eqn:Hchunk.
    destruct (insert_batch_spec t rows i total w e n1 sl1 Hchunk)
      as (r1 & w1 & Hrun1 & Hc1 & Hp1 & Hcs1 & Hsr1 & Hs1 & He).
    cbn [for_]. unfold bind at 1. rewrite Hrun1.
    destruct e as [|text].
    + destruct He as [-> Ht1].
      destruct (spec_insert (plan w) (calls w + n1) (batch_at rows <$> offsets))
        as [[[failure' ins'] m] sl2] eqn:Hrest.
      injection Hspec as <- <- <- <-.
      destruct (IH (total + length (batch_at rows i))%nat w1 failure' ins' m sl2)
        as (r & w' & Hrun & Hc & Hp & Hcs & Hsr & Hs & Hrows & Hoth & Hres).
      { by rewrite Hp1, Hc1. }
      apply rows_of_appended in Ht1 as [Hr1 Ho1].
      exists r, w'. split; [done|]. split; [lia|]. split; [congruence|].
      split; [congruence|]. split; [congruence|]. split; [|split; [|split]].
      * by rewrite Hs, Hs1, <- app_assoc.
      * by rewrite Hrows, Hr1, <- app_assoc.
      * intros t' Hne. by rewrite Hoth, Ho1.
      * destruct failure'; [done|]. rewrite Hres, length_app. f_equal. lia.
    + injection Hspec as <- <- <- <-. destruct He as (Ht1 & ex & -> & Hex).
      exists (Raise ex), w1. rewrite app_nil_r.
      split_and!; try done.
      * unfold rows_of. by rewrite Ht1.
      * intros t' _. by rewrite Ht1.
      * by exists ex.
Qed.

Lemma batches_are_spec_chunks rows :
  batch_at rows <$> batch_offsets rows = spec_chunks rows.
Proof.
  unfold batch_offsets, range_step, spec_chunks. by rewrite <- list_fmap_compose.
Qed.

(** The chunks of the specification: they make up the rows, none is empty
    and all have 10,000 rows but, maybe, the last. *)
Lemma spec_chunks_shape rows :
  concat (spec_chunks rows) = rows /\
  forall j chunk, spec_chunks rows !! j = Some chunk ->
    chunk = take chunk_size (drop (j * chunk_size) rows) /\
    (0 < length chunk <= chunk_size)%nat /\
    ((S j < length (spec_chunks rows))%nat -> length chunk = chunk_size).
Proof.
  split.
  { rewrite <- batches_are_spec_chunks. apply batches_cover. }
  intros j chunk Hj. unfold spec_chunks in *.
  rewrite length_fmap, length_seq.
  rewrite list_lookup_fmap in Hj.
  destruct (seq 0 _ !! j) as [j'|] eqn:Hseq; [|done].
  apply lookup_seq in Hseq as [-> Hlt]. simpl in Hj. injection Hj as <-.
  split; [done|]. rewrite length_take, length_drop.
  assert (Hbs : (0 < chunk_size)%nat) by (unfold chunk_size; lia).
  pose proof (Nat.div_mod_eq (length rows + chunk_size - 1) chunk_size) as Hd.
  pose proof (Nat.mod_upper_bound (length rows + chunk_size - 1) chunk_size) as Hm.
  remember ((length rows + chunk_size - 1) `div` chunk_size)%nat as q eqn:Hq.
  remember ((length rows + chunk_size - 1) `mod` chunk_size)%nat as m eqn:Hmm.
  clear Hq Hmm. generalize dependent chunk_size. intros bs Hbs Hd Hm.
  split; [nia|]. intros Hnext. nia.
Qed.

(** A chunk of the specification: at most 3 attempts, each but the last
    one answered by a transient error and followed by a sleep, of 1 and
    then of 2 seconds; the last attempt is answered without an error, or by
    a fatal one: an error that is not transient, or the error of the third
    attempt. *)
Lemma spec_insert_chunk_shape p c e n sleeps :
  spec_insert_chunk 2 1 p c = (e, n, sleeps) ->
  (1 <= n <= 3)%nat /\ sleeps = take (n - 1) [1; 2] /\
  (forall j, (j < n - 1)%nat -> transient (p (c + j)%nat) = true) /\
  match e with
  | ChunkIn => error_str (p (c + (n - 1))%nat) = None
  | ChunkFailed text =>
      error_str (p (c + (n - 1))%nat) = Some text /\
      (transient (p (c + (n - 1))%nat) = false \/ n = 3%nat)
  end.
Proof.
  cbn [spec_insert_chunk].
  replace (S c) with (c + 1)%nat by lia. replace (S (c + 1)) with (c + 2)%nat by lia.
  pose proof (Nat.add_0_r c) as H0.
  destruct (error_str (p c)) as [t0|] eqn:E0.
  2:{ intros [= <- <- <-]. cbn [Nat.sub]. rewrite H0.
      split_and!; [lia|lia|done|intros j Hj; lia|done]. }
  destruct (transient (p c)) eqn:T0.
  2:{ intros [= <- <- <-]. cbn [Nat.sub]. rewrite H0.
      split_and!; [lia|lia|done|intros j Hj; lia|done|by left]. }
  assert (Hj1 : forall j, (j < 1)%nat -> transient (p (c + j)%nat) = true).
  { intros j Hj. assert (j = 0)%nat as -> by lia. by rewrite H0. }
  destruct (error_str (p (c + 1)%nat)) as [t1|] eqn:E1.
  2:{ intros [= <- <- <-]. cbn [Nat.sub].
      split_and!; [lia|lia|done|exact Hj1|done]. }
  destruct (transient (p (c + 1)%nat)) eqn:T1.
  2:{ intros [= <- <- <-]. cbn [Nat.sub].
      split_and!; [lia|lia|done|exact Hj1|done|by left]. }
  assert (Hj2 : forall j, (j < 2)%nat -> transient (p (c + j)%nat) = true).
  { intros j Hj. destruct j as [|[|j]]; [by rewrite H0|done|lia]. }
  destruct (error_str (p (c + 2)%nat)) as [t2|] eqn:E2.
  - intros [= <- <- <-]. cbn [Nat.sub].
    split_and!; [lia|lia|done|exact Hj2|done|by right].
  - intros [= <- <- <-]. cbn [Nat.sub].
    split_and!; [lia|lia|done|exact Hj2|done].
Qed.

(** C5. The ingest of a non-empty list of rows is the one of the
    specification, whatever the client answers: it takes the rows in
    chunks of 10,000 (the last chunk takes what is left), in their order;
    it attempts each chunk, the first or a later one, up to 3 times, the
    next attempt only after an error whose text says "not found" and
    after a sleep of 1 second, then of 2 seconds; the first chunk that
    meets another error, or "not found" at its third attempt, ends the
    ingest at once with an [ExternalServiceError] that carries the text of
    that error, the chunks before it staying in the table and the chunks
    after it never being sent.  With a client that answers "not found"
    exactly twice and then succeeds, the ingest returns with all rows
    inserted after exactly the sleeps [1; 2]; with a client that always
    answers "not found", it raises after exactly 3 calls; after any other
    error it raises at once, without a sleep and without a second call. *)
Theorem insert_retries_transient_not_found (t : string) (rows : list row) (w : World) :
  rows <> [] ->
  (exists r w',
     write_rows_to_table t rows w = (r, w') /\
     let '(failure, inserted, n, sleeps) :=
       spec_insert (plan w) (calls w) (spec_chunks rows) in
     calls w' = (calls w + n)%nat /\ slept w' = slept w ++ sleeps /\
     rows_of w' t = rows_of w t ++ inserted /\
     (forall t', t' <> t -> tables w' !! t' = tables w !! t') /\
     match failure with
     | None =>
         inserted = rows /\
         r = Ok (mkResult true ("Successfully inserted " +:+ pretty (length rows)
                                +:+ " rows into table " +:+ t) (length rows))
     | Some text =>
         r = Raise (ExternalServiceError
                      ("Error writing rows to table " +:+ t +:+ ": " +:+ text))
     end) /\
  (concat (spec_chunks rows) = rows /\
   forall j chunk, spec_chunks rows !! j = Some chunk ->
     chunk = take chunk_size (drop (j * chunk_size) rows) /\
     (0 < length chunk <= chunk_size)%nat /\
     ((S j < length (spec_chunks rows))%nat -> length chunk = chunk_size)) /\
  (forall p c,
     let '(e, n, sleeps) := spec_insert_chunk 2 1 p c in
     (1 <= n <= 3)%nat /\ sleeps = take (n - 1) [1; 2] /\
     (forall j, (j < n - 1)%nat -> transient (p (c + j)%nat) = true) /\
     match e with
     | ChunkIn => error_str (p (c + (n - 1))%nat) = None
     | ChunkFailed text =>
         error_str (p (c + (n - 1))%nat) = Some text /\
         (transient (p (c + (n - 1))%nat) = false \/ n = 3%nat)
     end) /\
  ((forall n, plan w (calls w + n) = Fine) ->
   exists r w',
     write_rows_to_table t rows w = (Ok r, w') /\
     BigQueryService.success r = true /\ rows_inserted r = length rows /\
     rows_of w' t = rows_of w t ++ concat (batch_at rows <$> batch_offsets rows) /\
     concat (batch_at rows <$> batch_offsets rows) = rows /\
     calls w' = (calls w + length (batch_offsets rows))%nat /\
     slept w' = slept w) /\
  (transient (plan w (calls w)) = true ->
   transient (plan w (S (calls w))) = true ->
   (forall n, plan w (calls w + 2 + n) = Fine) ->
   exists r w',
     write_rows_to_table t rows w = (Ok r, w') /\
     BigQueryService.success r = true /\ rows_inserted r = length rows /\
     rows_of w' t = rows_of w t ++ rows /\
     calls w' = (calls w + 2 + length (batch_offsets rows))%nat /\
     slept w' = slept w ++ [1; 2]) /\
  ((forall n, transient (plan w (calls w + n)) = true) ->
   exists msg w',
     write_rows_to_table t rows w = (Raise (ExternalServiceError msg), w') /\
     calls w' = (calls w + 3)%nat /\ slept w' = slept w ++ [1; 2] /\
     tables w' = tables w) /\
  (fatal (plan w (calls w)) = true ->
   exists msg w',
     write_rows_to_table t rows w = (Raise (ExternalServiceError msg), w') /\
     calls w' = (calls w + 1)%nat /\ slept w' = slept w /\
     tables w' = tables w).
Proof.
  intros Hne.
  destruct (range_step_first rows Hne) as [rest Hrest].
  pose proof (batches_cover rows) as Hcover.
  fold (batch_offsets rows) in Hrest, Hcover.
  assert (Hbody : forall w0, write_rows_to_table t rows w0 =
    catch (bind (for_ (batch_offsets rows) (insert_batch t rows) 0%nat)
                (fun total => ret (mkResult true
                   ("Successfully inserted " +:+ pretty total
                    +:+ " rows into table " +:+ t) total)))
          (fun e => bind (logger_error ("Error writing rows to table " +:+ t +:+ ": "
                                        +:+ str e) None)
                         (fun _ => raise (ExternalServiceError
                            ("Error writing rows to table " +:+ t +:+ ": " +:+ str e))))
          w0).
  { intros w0. unfold write_rows_to_table. by destruct rows. }
  split_and!.
  - rewrite <- batches_are_spec_chunks.
    destruct (spec_insert (plan w) (calls w) (batch_at rows <$> batch_offsets rows))
      as [[[failure inserted] n] sleeps] eqn:Hspec.
    destruct (batches_spec t rows (batch_offsets rows) 0%nat w _ _ _ _ Hspec)
      as (r & w1 & Hrun & Hc & Hp & Hcs & Hsr & Hs & Hrows & Hoth & Hres).
    rewrite Hbody. unfold catch at 1, bind at 1. rewrite Hrun.
    destruct failure as [text|].
    + destruct Hres as (ex & -> & Hex).
      unfold bind, logger_error, modify, raise. eexists _, _. split; [reflexivity|].
      rewrite Hex. by cbn.
    + subst r. unfold ret. eexists _, _. split; [reflexivity|].
      assert (inserted = rows) as ->.
      { rewrite <- Hcover. clear -Hspec Hp.
        revert Hspec. generalize (batch_offsets rows) as offsets.
        generalize (calls w) as c. intros c offsets. revert c inserted n sleeps.
        induction offsets as [|i offsets IH]; intros c inserted n sleeps;
          cbn [fmap list_fmap spec_insert concat].
        - by intros [= <- <- <-].
        - destruct (spec_insert_chunk 2 1 (plan w) c) as [[[|text] n1] sl1]; [|done].
          destruct (spec_insert (plan w) (c + n1) (batch_at rows <$> offsets))
            as [[[failure' ins'] m] sl2] eqn:Hrest.
          intros [= -> <- <- <-]. f_equal. by eapply IH. }
      split_and!; try done.
  - apply spec_chunks_shape.
  - apply spec_chunks_shape.
  - intros p c. destruct (spec_insert_chunk 2 1 p c) as [[e n] sleeps] eqn:E.
    by apply spec_insert_chunk_shape.
  - intros Hfine.
    destruct (batches_fine t rows (batch_offsets rows) 0%nat w) as (w' & ts & Hrun & Hw' & Hts);
      [by intros n _|].
    destruct Hw' as (Hc & _ & Hs & Ht).
    rewrite Hbody. unfold catch, bind. rewrite Hrun.
    eexists _, w'. split; [reflexivity|]. cbn [BigQueryService.success rows_inserted].
    split_and!; [done|by rewrite Hcover| |done|done|by rewrite Hs, app_nil_r].
    unfold rows_of. by rewrite Ht.
  - intros H0 H1 Hfine.
    destruct (batch_twice t rows 0%nat 0%nat w H0 H1) as (w1 & Hr1 & Hw1).
    { rewrite <- (Hfine 0%nat). f_equal. lia. }
    pose proof Hw1 as (Hc1 & Hp1 & Hs1 & Ht1).
    destruct (batches_fine t rows rest (0 + length (batch_at rows 0))%nat w1)
      as (w2 & ts & Hr2 & Hw2 & Hts).
    { intros n _. rewrite Hp1, Hc1. rewrite <- (Hfine (S n)). f_equal. lia. }
    destruct Hw2 as (Hc2 & _ & Hs2 & Ht2).
    rewrite Hbody, Hrest. cbn [for_]. unfold catch, bind.
    rewrite Hr1. fold (batch_at rows 0). rewrite Hr2.
    eexists _, w2. split; [reflexivity|]. cbn [BigQueryService.success rows_inserted].
    rewrite Hrest in Hcover. cbn [fmap list_fmap concat] in Hcover.
    split_and!; [done| | | |].
    + transitivity (length (batch_at rows 0 ++ concat (batch_at rows <$> rest)));
        [rewrite length_app; lia | by rewrite Hcover].
    + unfold rows_of. rewrite Ht2, Hts, Ht1, appended_rows.
      fold (batch_at rows 0). by rewrite <- app_assoc, Hcover.
    + rewrite Hc2, Hc1. simpl. lia.
    + by rewrite Hs2, Hs1, app_nil_r.
  - intros Htr.
    destruct (batch_exhausted t rows 0%nat 0%nat w) as (e & w1 & Hr1 & Hc1 & _ & Hs1 & Ht1).
    { rewrite <- (Htr 0%nat). do 2 f_equal. lia. }
    { rewrite <- (Htr 1%nat). do 2 f_equal. lia. }
    { rewrite <- (Htr 2%nat). do 2 f_equal. lia. }
    rewrite Hbody, Hrest. cbn [for_]. unfold catch, bind. rewrite Hr1.
    eexists _, _. split; [reflexivity|]. by cbn.
  - intros Hf.
    destruct (batch_fatal t rows 0%nat 0%nat w Hf) as (e & w1 & Hr1 & Hc1 & _ & Hs1 & Ht1).
    rewrite Hbody, Hrest. cbn [for_]. unfold catch, bind. rewrite Hr1.
    eexists _, _. split; [reflexivity|]. cbn. by rewrite app_nil_r in Hs1.
Qed.

Lemma insert_retries_transient_not_found_witness :
  Example.many_rows <> [] /\
  length Example.many_rows = 10001%nat /\
  (exists r w',
     write_rows_to_table "company_events" Example.many_rows
       (Example.seeded Example.second_chunk_missing_twice) = (Ok r, w') /\
     rows_inserted r = 10001%nat /\ calls w' = 4%nat /\ slept w' = [1; 2] /\
     rows_of w' "company_events" = Example.many_rows) /\
  (exists w',
     write_rows_to_table "company_events" Example.many_rows
       (Example.seeded Example.second_chunk_refused)
     = (Raise (ExternalServiceError
                 "Error writing rows to table company_events: quota exceeded"), w') /\
     calls w' = 2%nat /\ slept w' = [] /\
     rows_of w' "company_events" = take 10000 Example.many_rows).
Proof.
  assert (Hlen : length Example.many_rows = 10001%nat) by (vm_compute; reflexivity).
  assert (Hne : Example.many_rows <> []).
  { intros H. rewrite H in Hlen. discriminate Hlen. }
  split; [exact Hne|]. split; [exact Hlen|]. split.
  - destruct (insert_retries_transient_not_found "company_events" Example.many_rows
                (Example.seeded Example.second_chunk_missing_twice) Hne)
      as ((r & w' & Hrun & Hspec) & _).
    assert (E : spec_insert (plan (Example.seeded Example.second_chunk_missing_twice))
                  (calls (Example.seeded Example.second_chunk_missing_twice))
                  (spec_chunks Example.many_rows)
                = (None, Example.many_rows, 4%nat, [1; 2])) by (vm_compute; reflexivity).
    rewrite E in Hspec. destruct Hspec as (Hc & Hs & Hrows & _ & _ & ->).
    eexists _, w'. split; [exact Hrun|]. split_and!; [exact Hlen|exact Hc|exact Hs|exact Hrows].
  - destruct (insert_retries_transient_not_found "company_events" Example.many_rows
                (Example.seeded Example.second_chunk_refused) Hne)
      as ((r & w' & Hrun & Hspec) & _).
    assert (E : spec_insert (plan (Example.seeded Example.second_chunk_refused))
                  (calls (Example.seeded Example.second_chunk_refused))
                  (spec_chunks Example.many_rows)
                = (Some "quota exceeded", take 10000 Example.many_rows, 2%nat, []))
      by (vm_compute; reflexivity).
    rewrite E in Hspec. destruct Hspec as (Hc & Hs & Hrows & _ & ->).
    exists w'. split; [exact Hrun|]. split_and!; [exact Hc|exact Hs|exact Hrows].
Defined.

(** ** The draws behind the sub-events of a call *)

Lemma wp_randint_at o n a b Q s :
  oracle s = o -> cursor s = n -> a <= b ->
  (forall s', a <= drawn o n a b <= b -> oracle s' = o -> cursor s' = S n ->
              Q (Ok (drawn o n a b)) s') ->
  wp (randint a b) Q s.
Proof.
  intros <- <- Hab HQ. unfold randint.
  destruct (Z.ltb_spec b a); [lia|].
  apply wp_bind. unfold wp, draw; simpl. apply HQ; [|done..].
  unfold drawn.
  pose proof (Z.mod_pos_bound (Z.of_N (oracle s (cursor s))) (b - a + 1)). lia.
Qed.

Lemma wp_choice_at {A} o n (xs : list A) Q s :
  oracle s = o -> cursor s = n -> xs <> [] ->
  (forall x s', x ∈ xs -> oracle s' = o -> cursor s' = S n -> Q (Ok x) s') ->
  wp (choice xs) Q s.
Proof.
  intros <- <- Hne HQ. unfold choice. destruct xs as [|x0 xs']; [done|].
  apply wp_bind. unfold wp, draw, ret; cbn [fst snd]. apply HQ; [|done..].
  apply list_elem_of_In, nth_In.
  apply Nat.mod_upper_bound. cbn [length]. lia.
Qed.

Lemma wp_now_at o n Q s :
  oracle s = o -> cursor s = n ->
  (forall t s', oracle s' = o -> cursor s' = S n -> Q (Ok t) s') ->
  wp now Q s.
Proof. intros <- <- HQ. unfold wp, now; simpl. by apply HQ. Qed.

(** [v <- randint a b ;; k], [x <- choice xs ;; k] and [t <- now ;; k],
    keeping the number of the draw *)
Tactic Notation "wp_rand_at" ident(v) ident(Hv) ident(H) :=
  apply wp_bind_returns; eapply wp_randint_at; [eassumption|eassumption|lia|];
  intros ? H ? ?; unfold returns at 1; cbn beta iota;
  remember (drawn _ _ _ _) as v eqn:Hv in H |- *.

Tactic Notation "wp_pick_at" ident(x) ident(H) :=
  apply wp_bind_returns; eapply wp_choice_at; [eassumption|eassumption|done|];
  intros x ? H ? ?; unfold returns at 1; cbn beta iota.

Tactic Notation "wp_clock_at" ident(t) :=
  apply wp_bind_returns; eapply wp_now_at; [eassumption|eassumption|];
  intros t ? ? ?; unfold returns at 1; cbn beta iota.

Lemma comments_truthy text :
  text ∈ cfg.good_comments ++ cfg.bad_comments -> truthy_str (Some text) = true.
Proof.
  intros H. repeat (apply elem_of_cons in H as [->|H]; [reflexivity|]). inversion H.
Qed.

Lemma call_events_for_draws user s :
  wp (call_events_for user)
     (returns (fun evs s' =>
        exists groups starts,
          evs = concat groups /\ call_groups user groups /\
          call_draws s s' groups starts)) s.
Proof.
  unfold call_events_for.
  set (o := oracle s).
  assert (Ho0 : oracle s = o) by done.
  pose proof (eq_refl (cursor s)) as Hc0.
  wp_pick_at os Hos. wp_clock_at t. wp_rand_at freq Hfreqv Hfreq.
  wp_step. wp_step.
  wp_rand_at happy Hhappyv Hhappy. wp_rand_at ratey Hrateyv Hratey.
  wp_rand_at commenty Hcommentyv Hcommenty. wp_rand_at chatty Hchattyv Hchatty.
  wp_step.
  set (n0 := S (S (S (S (S (S (S (cursor s)))))))) in *.
  eapply wp_mono.
  { apply (wp_for (fun pre '(evs, call_num) s1 =>
       oracle s1 = o /\
       exists groups starts,
         length groups = length pre /\ evs = concat groups /\
         call_groups user groups /\
         length starts = S (length pre) /\ starts !! 0%nat = Some n0 /\
         last starts = Some (cursor s1) /\
         forall i g n n',
           groups !! i = Some g -> starts !! i = Some n -> starts !! S i = Some n' ->
           ue_type <$> g = call :: load :: decided o ratey commenty chatty n /\
           (n + 10 + Nat.b2n (rates o ratey n) + Nat.b2n (comments o ratey commenty n)
            <= n' <=
            n + 11 + Nat.b2n (rates o ratey n)
            + Nat.b2n (comments o ratey commenty n))%nat) _ _ []).
    - split; [done|]. exists [], [n0]. split_and!; try done.
      all: try (simpl; by rewrite H12).
      all: try (intros i g Hg; by rewrite lookup_nil in Hg).
      all: intros i g n n' Hg; by rewrite lookup_nil in Hg.
    - intros pre' call_ [evs call_num] s1 Hpre
        (Ho1 & groups & starts & Hlen & -> & Hgroups & Hslen & Hs0 & Hlast & Hdraws).
      apply range2_prefix in Hpre as [Hidx Hlt].
      remember (cursor s1) as n eqn:Hc1. symmetry in Hc1.
      wp_rand_at call_happy_score Hhsv Hhs.
      wp_rand_at call_rating_score Hrsv Hrs.
      apply wp_bind_returns.
      eapply (wp_mono _ (returns (fun cr s2 =>
                oracle s2 = o /\
                cursor s2 = (S (S n) + Nat.b2n (call_rating_score <=? ratey * 40)%Z)%nat /\
                truthy_int cr = (call_rating_score <=? ratey * 40) /\
                match cr with Some r => 1 <= r <= 5 | None => True end))).
      { destruct (call_rating_score <=? ratey * 40).
        - destruct (happy * 25 <=? call_happy_score).
          + wp_rand_at r Hrv Hr. wp_step. split; [done|]. split; [simpl; lia|]. split; [|lia].
            simpl. destruct (Z.eqb_spec r 0); [lia|done].
          + wp_rand_at r Hrv Hr. wp_step. split; [done|]. split; [simpl; lia|]. split; [|lia].
            simpl. destruct (Z.eqb_spec r 0); [lia|done].
        - wp_step. split; [done|]. split; [simpl; lia|]. done. }
      intros [call_rating|e] s2; [|done]. unfold returns at 1 3.
      intros (Ho2 & Hc2 & Hrated & Hcr).
      wp_rand_at call_comment_score Hcsv Hcs.
      apply wp_bind_returns.
      set (commented := Qle_bool (inject_Z call_comment_score)
                                 (inject_Z (commenty * 33 * ratey) / 3)).
      eapply (wp_mono _ (returns (fun cc s3 =>
                oracle s3 = o /\
                cursor s3 = (S (S (S n) + Nat.b2n (call_rating_score <=? ratey * 40)%Z)
                             + Nat.b2n commented)%nat /\
                truthy_str cc = commented /\
                match cc with
                | Some text => text ∈ cfg.good_comments ++ cfg.bad_comments
                | None => True
                end))).
      { destruct commented.
        - destruct (truthy_int call_rating && (3 <=? default 0 call_rating)).
          + wp_pick_at c Hc. wp_step.
            assert (Hin : c ∈ cfg.good_comments ++ cfg.bad_comments) by set_solver.
            split; [done|]. split; [simpl; lia|]. split; [by apply comments_truthy|done].
          + wp_pick_at c Hc. wp_step.
            assert (Hin : c ∈ cfg.good_comments ++ cfg.bad_comments) by set_solver.
            split; [done|]. split; [simpl; lia|]. split; [by apply comments_truthy|done].
        - wp_step. split; [done|]. split; [simpl; lia|]. done. }
      intros [call_comment|e] s3; [|done]. unfold returns at 1 3.
      intros (Ho3 & Hc3 & Hcommented & Hcc).
      wp_rand_at length_draw Hldv Hld.
      wp_rand_at call_dialin_score Hdsv Hds.
      wp_rand_at call_type_score Htsv Hts.
      apply wp_bind_returns.
      match goal with |- wp _ _ ?s4 =>
        eapply (wp_mono _ (returns (fun _ s' => s' = s4)))
      end.
      { repeat (destruct (call_type_score <? _)); by eapply wp_index. }
      intros [call_type|e] s4; [|done]. unfold returns at 1 3. intros ->.
      wp_rand_at call_size_score Hssv Hss.
      wp_step. wp_step.
      wp_rand_at jitter Hjv Hj.
      wp_clock_at t1.
      apply wp_bind_returns.
      match goal with Hk : cursor ?s4 = ?k |- wp _ _ ?s4 =>
        eapply (wp_mono _ (returns (fun _ s5 =>
                  oracle s5 = o /\ (k <= cursor s5 <= S k)%nat)))
      end.
      { destruct (_ <? _).
        - eapply wp_now_at; [eassumption|eassumption|].
          intros t1' s5 Ho5 Hc5. unfold returns. split; [done|lia].
        - wp_step. split; [done|lia]. }
      intros [event_date|e] s5; [|done]. unfold returns at 1 3. intros [Ho5 Hb5].
      remember (cursor s5) as k5 eqn:Hk5. symmetry in Hk5.
      wp_clock_at t2. wp_step.
      split; [done|].
      set (sid := (t2 - Datetime.dt_1980_01_01_0100, call_)).
      set (c := mkUserEvent event_date call _ _ _ _ _ _ _ _ _ _ _ _).
      set (l := mkUserEvent (event_date - Datetime.minutes 1) load _ _ _ _ _ _ _ _ _ _ _ _).
      set (r := mkUserEvent event_date rating _ _ _ _ _ _ _ _ _ _ _ _).
      set (cm := mkUserEvent event_date comment _ _ _ _ _ _ _ _ _ _ _ _).
      set (d := mkUserEvent event_date dialin _ _ _ _ _ _ _ _ _ _ _ _).
      set (rs := if truthy_int call_rating then [r] else []).
      set (cs := if truthy_str call_comment then [cm] else []).
      set (ds := if truthy_int (if call_dialin_score <? 40
                                then Some (chatty * length_draw) else None)
                 then [d] else []).
      exists (groups ++ [c :: l :: rs ++ cs ++ ds]), (starts ++ [S k5]).
      assert (Er : rates o ratey n = (call_rating_score <=? ratey * 40)).
      { unfold rates. replace (n + 1)%nat with (S n) by lia. by rewrite <- Hrsv. }
      assert (Ec : comments o ratey commenty n = commented).
      { unfold comments, commented. rewrite Er.
        match type of Hcsv with _ = drawn _ ?p _ _ =>
          replace (n + 2 + Nat.b2n (call_rating_score <=? ratey * 40)%Z)%nat with p by lia
        end.
        by rewrite <- Hcsv. }
      assert (Ed : dials_in o ratey commenty chatty n
                   = truthy_int (if call_dialin_score <? 40
                                 then Some (chatty * length_draw) else None)).
      { unfold dials_in. cbv zeta. rewrite Er, Ec.
        match type of Hldv with _ = drawn _ ?p _ _ =>
          replace (n + 3 + Nat.b2n (call_rating_score <=? ratey * 40)%Z
                   + Nat.b2n commented)%nat with p by lia
        end.
        match type of Hdsv with _ = drawn _ ?p _ _ =>
          match goal with |- context [drawn o (?q + 1)%nat 0 99] =>
            replace (q + 1)%nat with p by lia
          end
        end.
        rewrite <- Hldv, <- Hdsv. by destruct (call_dialin_score <? 40). }
      split_and!.
      + rewrite !length_app. simpl. lia.
      + rewrite concat_app. simpl. rewrite app_nil_r. subst rs cs ds.
        destruct (truthy_int call_rating), (truthy_str call_comment),
          (truthy_int _); by rewrite <- ?app_assoc.
      + intros i g Hi. apply lookup_app_Some in Hi as [Hi|[Hge Hi]];
          [by apply Hgroups|].
        apply list_lookup_singleton_Some in Hi as [Hi <-].
        assert (Z.of_nat i = call_) as -> by lia.
        exists c, l, (rs ++ cs ++ ds), (t2 - Datetime.dt_1980_01_01_0100).
        assert (Hr : follows_call c r \/ truthy_int call_rating = false).
        { destruct call_rating as [rv|]; [|by right].
          left. split; [done|]. simpl. split; [done|]. by exists rv. }
        assert (Hcm : follows_call c cm \/ truthy_str call_comment = false).
        { destruct call_comment as [text|]; [|by right].
          left. split; [done|]. simpl. split; [done|]. by exists text. }
        assert (Hd : follows_call c d \/
                     truthy_int (if call_dialin_score <? 40
                                 then Some (chatty * length_draw) else None) = false).
        { destruct (call_dialin_score <? 40); [|by right].
          destruct (truthy_int (Some (chatty * length_draw))) eqn:E; [|by right].
          left. split; [done|]. simpl. split_and!; [done|done|].
          eexists. split; [done|]. simpl in E. by apply negb_true_iff, Z.eqb_neq in E. }
        split_and!; try done.
        * repeat apply Forall_app_2; subst rs cs ds.
          -- destruct Hr as [Hr|Hr]; [|rewrite Hr; apply Forall_nil_2].
             destruct (truthy_int call_rating); [by apply Forall_singleton|apply Forall_nil_2].
          -- destruct Hcm as [Hcm|Hcm]; [|rewrite Hcm; apply Forall_nil_2].
             destruct (truthy_str call_comment); [by apply Forall_singleton|apply Forall_nil_2].
          -- destruct Hd as [Hd|Hd]; [|rewrite Hd; apply Forall_nil_2].
             match goal with |- Forall _ (if ?b then _ else _) => destruct b end;
               [by apply Forall_singleton|apply Forall_nil_2].
        * subst rs cs ds.
          destruct (truthy_int call_rating), (truthy_str call_comment),
            (truthy_int _); cbn; repeat constructor.
        * subst rs cs ds.
          destruct (truthy_int call_rating), (truthy_str call_comment),
            (truthy_int _); cbn; by repeat constructor.
      + rewrite !length_app. simpl. lia.
      + apply lookup_app_l_Some. exact Hs0.
      + rewrite last_snoc. by f_equal.
      + intros i g n1 n' Hg Hn1 Hn'.
        assert (Hnth : starts !! length pre' = Some n).
        { rewrite last_lookup in Hlast. by rewrite Hslen in Hlast. }
        apply lookup_app_Some in Hg as [Hg|[Hge Hg]].
        * pose proof (lookup_lt_Some _ _ _ Hg) as Hlt'.
          rewrite lookup_app_l in Hn1 by lia. rewrite lookup_app_l in Hn' by lia.
          by apply (Hdraws i g).
        * apply list_lookup_singleton_Some in Hg as [Hi <-].
          assert (i = length pre') as -> by lia.
          rewrite lookup_app_l in Hn1 by lia. rewrite Hnth in Hn1. injection Hn1 as <-.
          rewrite lookup_app_r in Hn' by lia.
          replace (S (length pre') - length starts)%nat with 0%nat in Hn' by lia.
          injection Hn' as <-.
          rewrite Er, Ec. split; [|lia].
          unfold decided. rewrite Er, Ec, Ed. subst rs cs ds.
          rewrite Hrated, Hcommented.
          clearbody commented.
          destruct (call_rating_score <=? ratey * 40), commented,
            (truthy_int (if call_dialin_score <? 40 then _ else _)); reflexivity. }
  intros [[evs call_num]|e] s1; [|done]. unfold returns at 1. cbn [app].
  intros (Ho1 & groups & starts & Hlen & -> & Hgroups & Hslen & Hs0 & Hlast & Hdraws).
  wp_step. exists groups, starts. split_and!; [done|done|].
  unfold call_draws. cbv zeta. fold o.
  replace (cursor s + 4)%nat with (S (S (S (S (cursor s))))) by lia.
  replace (cursor s + 5)%nat with (S (S (S (S (S (cursor s)))))) by lia.
  replace (cursor s + 6)%nat with (S (S (S (S (S (S (cursor s))))))) by lia.
  replace (cursor s + 7)%nat with n0 by (unfold n0; lia).
  rewrite <- Hrateyv, <- Hcommentyv, <- Hchattyv.
  split_and!; [lia|done|done|done].
Qed.

Lemma decided_types o ratey commenty chatty n ty :
  ty ∈ call :: load :: decided o ratey commenty chatty n <->
  match ty with
  | call | load => True
  | rating => rates o ratey n = true
  | comment => comments o ratey commenty n = true
  | dialin => dials_in o ratey commenty chatty n = true
  | _ => False
  end.
Proof.
  unfold decided.
  destruct (rates o ratey n), (comments o ratey commenty n),
    (dials_in o ratey commenty chatty n), ty; cbn [app];
    split; intros H; try done; try set_solver.
Qed.

(** C3, as the code has it.  For every user and every outcome of the
    draws, the events of the call generator are the groups of the calls, in
    the order of the calls: the call, its load, then at most one rating,
    one comment and one dial-in.  Which of the three a group has is what
    the draws of its own iteration decide, and nothing else: the group has
    a rating exactly when the rating score of the iteration is at most
    [ratey * 40], a comment exactly when its comment score is at most
    [commenty * 33 * ratey / 3], a dial-in exactly when its dial-in score
    is below 40 and the duration of the call is not zero; the scores are
    the draws of the oracle at the places of the iteration.  The call of
    the [i]-th group carries a session identifier that ends in [i], so the
    calls of a user have pairwise different session identifiers.  A rating
    or a comment carries the session identifier and the timestamp of the
    call of its group, and of no other call; a load carries no session
    identifier and is stamped exactly one minute before the call before
    it; a dial-in carries no session identifier and has the timestamp and
    the duration of the call of its group.  No rating, comment or dial-in
    occurs outside the group of a call. *)
Theorem call_sub_events_follow_their_call (user : User) (s : Src) :
  exists evs s' groups starts,
    call_events_for user s = (Ok evs, s') /\
    evs = concat groups /\
    call_groups user groups /\
    call_draws s s' groups starts /\
    (forall i g, groups !! i = Some g ->
       exists n, starts !! i = Some n /\
         let o := oracle s in
         let ratey := drawn o (cursor s + 4) 0 2 in
         let commenty := drawn o (cursor s + 5) 0 2 in
         let chatty := drawn o (cursor s + 6) 0 4 in
         ((exists e, e ∈ g /\ ue_type e = rating) <-> rates o ratey n = true) /\
         ((exists e, e ∈ g /\ ue_type e = comment)
          <-> comments o ratey commenty n = true) /\
         ((exists e, e ∈ g /\ ue_type e = dialin)
          <-> dials_in o ratey commenty chatty n = true)) /\
    (forall i j gi gj ci cj,
       groups !! i = Some gi -> groups !! j = Some gj ->
       head gi = Some ci -> head gj = Some cj ->
       ue_session_id ci = ue_session_id cj -> i = j) /\
    (forall e, e ∈ evs -> ue_type e ∈ [rating; comment] ->
       exists c, c ∈ evs /\ ue_type c = call /\
         is_Some (ue_session_id c) /\
         ue_session_id e = ue_session_id c /\
         ue_timestamp e = ue_timestamp c /\
         forall c', c' ∈ evs -> ue_type c' = call ->
                    ue_session_id c' = ue_session_id e -> c' = c) /\
    (forall e, e ∈ evs -> ue_type e = load ->
       ue_session_id e = None /\
       exists c, c ∈ evs /\ ue_type c = call /\
                 ue_timestamp e = ue_timestamp c - Datetime.minutes 1) /\
    (forall e, e ∈ evs -> ue_type e = dialin ->
       ue_session_id e = None /\
       exists c, c ∈ evs /\ ue_type c = call /\
                 ue_timestamp e = ue_timestamp c /\
                 ue_call_duration e = ue_call_duration c).
Proof.
  destruct (wp_returns_inv _ _ _ (call_events_for_draws user s))
    as (evs & s' & Hrun & groups & starts & -> & Hgr & Hdraws).
  exists (concat groups), s', groups, starts.
  assert (Hin : forall e, e ∈ concat groups ->
    exists i c l rest x,
      groups !! i = Some (c :: l :: rest) /\
      ue_type c = call /\ ue_session_id c = Some (x, Z.of_nat i) /\
      ue_type l = load /\ ue_session_id l = None /\
      ue_timestamp l = ue_timestamp c - Datetime.minutes 1 /\
      Forall (follows_call c) rest /\
      (e = c \/ e = l \/ e ∈ rest)).
  { intros e He. apply elem_of_concat in He as (i & g & Hi & He).
    destruct (Hgr i g Hi) as (c & l & rest & x & -> & Hc & Hsc & Hl & Hsl & Htl & Hrest & _).
    exists i, c, l, rest, x. split_and!; try done.
    apply elem_of_cons in He as [->|He]; [by left|].
    apply elem_of_cons in He as [->|He]; [by right; left|by right; right]. }
  assert (Hmem : forall i g e, groups !! i = Some g -> e ∈ g -> e ∈ concat groups).
  { intros i g e Hi He. apply elem_of_concat. eauto. }
  split_and!; [done|done|done|done|..].
  - intros i g Hg. destruct Hdraws as (Hlen & _ & _ & Hd).
    pose proof (lookup_lt_Some _ _ _ Hg) as Hlt.
    destruct (lookup_lt_is_Some_2 starts i) as [n Hn]; [lia|].
    destruct (lookup_lt_is_Some_2 starts (S i)) as [n' Hn']; [lia|].
    exists n. split; [done|]. cbv zeta.
    destruct (Hd i g n n' Hg Hn Hn') as [Hty _].
    assert (Hany : forall ty, (exists e, e ∈ g /\ ue_type e = ty) <-> ty ∈ ue_type <$> g).
    { intros ty. rewrite list_elem_of_fmap. split; intros (e & H1 & H2); eauto. }
    rewrite !Hany, Hty, !decided_types. done.
  - intros i j gi gj ci cj. by apply (call_groups_sessions user).
  - intros e He Hty.
    destruct (Hin e He) as (i & c & l & rest & x & Hi & Hc & Hsc & Hl & Hsl & Htl & Hrest & Hcase).
    assert (Her : e ∈ rest).
    { destruct Hcase as [->|[->|Hr]]; [| |done].
      - rewrite Hc in Hty. set_solver.
      - rewrite Hl in Hty. set_solver. }
    rewrite Forall_forall in Hrest. destruct (Hrest e Her) as [Hts Hf].
    assert (Hse : ue_session_id e = ue_session_id c).
    { apply elem_of_cons in Hty as [Hty|Hty]; [|apply list_elem_of_singleton in Hty];
        rewrite Hty in Hf; by destruct Hf. }
    exists c. split_and!; [by eapply Hmem; [exact Hi|left]|done|by rewrite Hsc|done|done|].
    intros c' Hc' Hcall Hs'.
    destruct (Hin c' Hc') as (j & c2 & l2 & rest2 & x2 & Hj & Hc2 & Hsc2 & Hl2 & Hsl2 & _
                              & Hrest2 & Hcase2).
    assert (c' = c2) as ->.
    { destruct Hcase2 as [->|[->|Hr]]; [done|congruence|].
      rewrite Forall_forall in Hrest2. destruct (Hrest2 c' Hr) as [_ Hf'].
      by rewrite Hcall in Hf'. }
    assert (j = i) as ->.
    { eapply (call_groups_sessions user groups); [done|exact Hj|exact Hi|done|done|].
      congruence. }
    congruence.
  - intros e He Hty.
    destruct (Hin e He) as (i & c & l & rest & x & Hi & Hc & Hsc & Hl & Hsl & Htl & Hrest & Hcase).
    assert (e = l) as ->.
    { destruct Hcase as [->|[->|Hr]]; [congruence|done|].
      rewrite Forall_forall in Hrest. destruct (Hrest e Hr) as [_ Hf].
      by rewrite Hty in Hf. }
    split; [done|]. exists c. split_and!; [by eapply Hmem; [exact Hi|left]|done|done].
  - intros e He Hty.
    destruct (Hin e He) as (i & c & l & rest & x & Hi & Hc & Hsc & Hl & Hsl & Htl & Hrest & Hcase).
    assert (Her : e ∈ rest).
    { destruct Hcase as [->|[->|Hr]]; [congruence|congruence|done]. }
    rewrite Forall_forall in Hrest. destruct (Hrest e Her) as [Hts Hf].
    rewrite Hty in Hf. destruct Hf as (Hs & Hd & _).
    split; [done|]. exists c. split_and!; [by eapply Hmem; [exact Hi|left]|done|done|done].
Qed.
